(** * Verum Omnis forensic service: evidence store, report ledger and
      contradiction engine

    A shallow embedding of [services/forensicService.ts] (both the original
    file and the one under [www_backup_20251115], which adds
    [updateEvidence] and the contradiction engine) together with the record
    types of [types.ts].

    Conventions of the embedding:
    - JavaScript strings are Rocq [string]s; one [ascii] stands for one
      UTF-16 code unit in the range U+0000..U+00FF.
    - A [Date] is its time value in milliseconds, [None] being the NaN of
      an invalid date.
    - An IndexedDB object store with a key path is a [gmap] from keys to
      records; [put] inserts under the record's own key.
    - A promise is represented by the way it settles; the failure of a
      request or transaction is chosen by an explicit argument.
    - [crypto.randomUUID()], [new Date()] and [Math.random()] are read from
      explicit arguments. *)

From Stdlib Require Import ZArith QArith Lqa List Bool Lia Permutation Sorted.
From Stdlib.Strings Require Import String Ascii Byte.
From stdpp Require Import base option list gmap strings.

Open Scope Z_scope.

(* ================================================================= *)
(** ** types.ts *)
(* ================================================================= *)

Inductive Jurisdiction := Global | UAE | SA | EU.

(** Time value of a JavaScript [Date]; [None] is an invalid date. *)
Definition Date := option Z.

(** [a > b] on dates compares the time values; any comparison with NaN is
    false. *)
Definition Date_gt (a b : Date) : bool :=
  match a, b with
  | Some x, Some y => y <? x
  | _, _ => false
  end.

(** A [File] (a [Blob] with a name). *)
Record File := mkFile {
  file_name : string;
  file_type : string;
  file_bytes : list byte
}.

Definition file_size (f : File) : nat := length (file_bytes f).

Module Evidence.
Record t := mk {
  id : string;
  name : string;
  size : nat;
  type : string;
  blob : File;
  sha512 : string;
  createdAt : Date;
  jurisdiction : Jurisdiction;
  timezone : string;
  meta : gmap string string;
  ocrText : option string
}.

(** [{ ...evidence, ocrText }] *)
Definition with_ocrText (e : t) (text : string) : t :=
  mk (id e) (name e) (size e) (type e) (blob e) (sha512 e) (createdAt e)
     (jurisdiction e) (timezone e) (meta e) (Some text).
End Evidence.

Inductive Verification :=
| Verified_3_3        (* 'Verified (3/3)' *)
| Consensus_2_3       (* 'Consensus (2/3)' *)
| Inconclusive_1_3.   (* 'Inconclusive (≤1/3)' *)

Record Finding := mkFinding {
  finding_title : string;
  finding_trigger : string;
  finding_source : string;
  finding_rationale : string;
  finding_verification : option Verification
}.

Inductive ContradictionType :=
| direct | metadata_mismatch | cross_doc_drift | omission.

#[global] Instance ContradictionType_eq_dec : EqDecision ContradictionType.
Proof. solve_decision. Defined.

(** The string a [ContradictionType] is at run time. *)
Definition type_string (ty : ContradictionType) : string :=
  match ty with
  | direct => "direct"
  | metadata_mismatch => "metadata_mismatch"
  | cross_doc_drift => "cross_doc_drift"
  | omission => "omission"
  end.

(** [Omit<Contradiction, 'verification'>] *)
Module RawContradiction.
Record t := mk {
  type : ContradictionType;
  actor : option string;
  claimA : option string;
  claimB : option string;
  sources : list string;
  explanation : string
}.
End RawContradiction.

Module Contradiction.
Record t := mk {
  type : ContradictionType;
  actor : option string;
  claimA : option string;
  claimB : option string;
  sources : list string;
  explanation : string;
  verification : Verification
}.

(** [{ ...contradiction, verification }] *)
Definition of_raw (c : RawContradiction.t) (v : Verification) : t :=
  mk (RawContradiction.type c) (RawContradiction.actor c)
     (RawContradiction.claimA c) (RawContradiction.claimB c)
     (RawContradiction.sources c) (RawContradiction.explanation c) v.
End Contradiction.

Record TimelineEvent := mkTimelineEvent {
  timeline_date : string;
  timeline_event : string;
  timeline_sources : list string
}.

Record Highlight := mkHighlight {
  findingIndex : Z;
  boundingBox : list (Z * Z)
}.

Record EvidenceRef := mkRef {
  ref_id : string;
  ref_sha512 : string
}.

Module Report.
Record t := mk {
  id : string;
  title : string;
  chapterIndex : Z;
  createdAt : Date;
  updatedAt : Date;
  jurisdiction : Jurisdiction;
  timezone : string;
  evidenceRefs : list EvidenceRef;
  findings : list Finding;
  contradictions : list Contradiction.t;
  timeline : list TimelineEvent;
  pdfSha512 : option string;
  rawHtmlReport : option string;
  highlights : option (list Highlight)
}.
End Report.

(** [Omit<Report, 'id' | 'createdAt' | 'updatedAt' | 'chapterIndex'>] *)
Module PartialReport.
Record t := mk {
  title : string;
  jurisdiction : Jurisdiction;
  timezone : string;
  evidenceRefs : list EvidenceRef;
  findings : list Finding;
  contradictions : list Contradiction.t;
  timeline : list TimelineEvent;
  pdfSha512 : option string;
  rawHtmlReport : option string;
  highlights : option (list Highlight)
}.
End PartialReport.

Module ReportsIndexMeta.
Record t := mk {
  key : string;
  order : list string;
  lastChapterIndex : Z
}.
End ReportsIndexMeta.

(* ================================================================= *)
(** ** Hashing service *)
(* ================================================================= *)

Definition byte_of_Z (z : Z) : byte :=
  default x00 (Byte.of_N (Z.to_N (Z.land z 255))).

Definition Z_of_byte (b : byte) : Z := Z.of_N (Byte.to_N b).

(** [crypto.subtle.digest('SHA-512', buffer)]: the platform's SHA-512,
    written out after FIPS 180-4 on 64-bit words held in [Z]. *)
Module SHA512.
Definition mask64 : Z := 0xffffffffffffffff.

Definition add64 (a b : Z) : Z := Z.land (a + b) mask64.

Definition rotr (n x : Z) : Z :=
  Z.land (Z.lor (Z.shiftr x n) (Z.shiftl x (64 - n))) mask64.

Definition shr (n x : Z) : Z := Z.shiftr x n.

Definition not64 (x : Z) : Z := Z.lxor x mask64.

Definition Ch (x y z : Z) : Z :=
  Z.lxor (Z.land x y) (Z.land (not64 x) z).

Definition Maj (x y z : Z) : Z :=
  Z.lxor (Z.lxor (Z.land x y) (Z.land x z)) (Z.land y z).

Definition Sigma0 (x : Z) : Z :=
  Z.lxor (Z.lxor (rotr 28 x) (rotr 34 x)) (rotr 39 x).

Definition Sigma1 (x : Z) : Z :=
  Z.lxor (Z.lxor (rotr 14 x) (rotr 18 x)) (rotr 41 x).

Definition sigma0 (x : Z) : Z :=
  Z.lxor (Z.lxor (rotr 1 x) (rotr 8 x)) (shr 7 x).

Definition sigma1 (x : Z) : Z :=
  Z.lxor (Z.lxor (rotr 19 x) (rotr 61 x)) (shr 6 x).

Definition K : list Z :=
  [ 0x428a2f98d728ae22; 0x7137449123ef65cd; 0xb5c0fbcfec4d3b2f; 0xe9b5dba58189dbbc;
    0x3956c25bf348b538; 0x59f111f1b605d019; 0x923f82a4af194f9b; 0xab1c5ed5da6d8118;
    0xd807aa98a3030242; 0x12835b0145706fbe; 0x243185be4ee4b28c; 0x550c7dc3d5ffb4e2;
    0x72be5d74f27b896f; 0x80deb1fe3b1696b1; 0x9bdc06a725c71235; 0xc19bf174cf692694;
    0xe49b69c19ef14ad2; 0xefbe4786384f25e3; 0x0fc19dc68b8cd5b5; 0x240ca1cc77ac9c65;
    0x2de92c6f592b0275; 0x4a7484aa6ea6e483; 0x5cb0a9dcbd41fbd4; 0x76f988da831153b5;
    0x983e5152ee66dfab; 0xa831c66d2db43210; 0xb00327c898fb213f; 0xbf597fc7beef0ee4;
    0xc6e00bf33da88fc2; 0xd5a79147930aa725; 0x06ca6351e003826f; 0x142929670a0e6e70;
    0x27b70a8546d22ffc; 0x2e1b21385c26c926; 0x4d2c6dfc5ac42aed; 0x53380d139d95b3df;
    0x650a73548baf63de; 0x766a0abb3c77b2a8; 0x81c2c92e47edaee6; 0x92722c851482353b;
    0xa2bfe8a14cf10364; 0xa81a664bbc423001; 0xc24b8b70d0f89791; 0xc76c51a30654be30;
    0xd192e819d6ef5218; 0xd69906245565a910; 0xf40e35855771202a; 0x106aa07032bbd1b8;
    0x19a4c116b8d2d0c8; 0x1e376c085141ab53; 0x2748774cdf8eeb99; 0x34b0bcb5e19b48a8;
    0x391c0cb3c5c95a63; 0x4ed8aa4ae3418acb; 0x5b9cca4f7763e373; 0x682e6ff3d6b2b8a3;
    0x748f82ee5defb2fc; 0x78a5636f43172f60; 0x84c87814a1f0ab72; 0x8cc702081a6439ec;
    0x90befffa23631e28; 0xa4506cebde82bde9; 0xbef9a3f7b2c67915; 0xc67178f2e372532b;
    0xca273eceea26619c; 0xd186b8c721c0c207; 0xeada7dd6cde0eb1e; 0xf57d4f7fee6ed178;
    0x06f067aa72176fba; 0x0a637dc5a2c898a6; 0x113f9804bef90dae; 0x1b710b35131c471b;
    0x28db77f523047d84; 0x32caab7b40c72493; 0x3c9ebe0a15c9bebc; 0x431d67c49c100d4c;
    0x4cc5d4becb3e42b6; 0x597f299cfc657e2a; 0x5fcb6fab3ad6faec; 0x6c44198c4a475817 ].

(** The eight working words. *)
Definition state : Type := Z * Z * Z * Z * Z * Z * Z * Z.

Definition H0 : state :=
  (0x6a09e667f3bcc908, 0xbb67ae8584caa73b, 0x3c6ef372fe94f82b, 0xa54ff53a5f1d36f1,
   0x510e527fade682d1, 0x9b05688c2b3e6c1f, 0x1f83d9abfb41bd6b, 0x5be0cd19137e2179).

(** [n] bytes of [v], most significant first. *)
Definition be_bytes (n : nat) (v : Z) : list byte :=
  map (fun i => byte_of_Z (Z.shiftr v (8 * Z.of_nat i))) (rev (seq 0 n)).

Definition be_word (bs : list byte) : Z :=
  fold_left (fun acc b => acc * 256 + Z_of_byte b) bs 0.

(** Padding to a multiple of 128 bytes: a one bit, zeros, and the bit
    length on 128 bits. *)
Definition pad (msg : list byte) : list byte :=
  let l := Z.of_nat (length msg) in
  msg ++ [x80] ++ repeat x00 (Z.to_nat ((111 - l) mod 128))
      ++ be_bytes 16 (8 * l).

Fixpoint chunks (count size : nat) (l : list byte) : list (list byte) :=
  match count with
  | O => []
  | S c => firstn size l :: chunks c size (skipn size l)
  end.

Definition blocks (padded : list byte) : list (list byte) :=
  chunks (length padded / 128) 128 padded.

(** The message schedule, kept newest word first while it grows. *)
Fixpoint extend (n : nat) (w_rev : list Z) : list Z :=
  match n with
  | O => w_rev
  | S n' =>
    let w := add64 (add64 (add64 (sigma1 (nth 1 w_rev 0)) (nth 6 w_rev 0))
                          (sigma0 (nth 14 w_rev 0)))
                   (nth 15 w_rev 0) in
    extend n' (w :: w_rev)
  end.

Definition schedule (block : list byte) : list Z :=
  rev (extend 64 (rev (map be_word (chunks 16 8 block)))).

Definition round (s : state) (kw : Z * Z) : state :=
  let '(a, b, c, d, e, f, g, h) := s in
  let '(k, w) := kw in
  let T1 := add64 (add64 (add64 (add64 h (Sigma1 e)) (Ch e f g)) k) w in
  let T2 := add64 (Sigma0 a) (Maj a b c) in
  (add64 T1 T2, a, b, c, add64 d T1, e, f, g).

Definition compress (H : state) (block : list byte) : state :=
  let '(a, b, c, d, e, f, g, h) :=
    fold_left round (combine K (schedule block)) H in
  let '(h0, h1, h2, h3, h4, h5, h6, h7) := H in
  (add64 h0 a, add64 h1 b, add64 h2 c, add64 h3 d,
   add64 h4 e, add64 h5 f, add64 h6 g, add64 h7 h).

Definition words (H : state) : list Z :=
  let '(h0, h1, h2, h3, h4, h5, h6, h7) := H in
  [h0; h1; h2; h3; h4; h5; h6; h7].

Definition digest (msg : list byte) : list byte :=
  flat_map (be_bytes 8) (words (fold_left compress (blocks (pad msg)) H0)).
End SHA512.

(** [Number.prototype.toString(radix)] on a natural number, for a radix
    from 2 to 36. *)
Definition digit_char (n : N) : ascii :=
  nth (N.to_nat n)
      (list_ascii_of_string "0123456789abcdefghijklmnopqrstuvwxyz") "0"%char.

Fixpoint Number_toString_digits (fuel : nat) (radix n : N) : string :=
  match fuel with
  | O => ""
  | S fuel' =>
    if (n <? radix)%N then String (digit_char n) ""
    else Number_toString_digits fuel' radix (n / radix)%N
         +:+ String (digit_char (n mod radix)%N) ""
  end.

(** A number below [2^k] has at most [k] digits in any radix, so the fuel
    never runs out. *)
Definition Number_toString (radix n : N) : string :=
  Number_toString_digits (S (N.to_nat (N.log2 n))) radix n.

(** The first [n] characters of [pad] repeated without end. *)
Fixpoint fill_from (n : nat) (cur pad : string) : string :=
  match n with
  | O => ""
  | S n' =>
    match cur with
    | String c rest => String c (fill_from n' rest pad)
    | EmptyString =>
      match pad with
      | String c rest => String c (fill_from n' rest pad)
      | EmptyString => ""
      end
    end
  end.

(** [String.prototype.padStart] *)
Definition padStart (targetLength : nat) (padString : string) (s : string)
    : string :=
  fill_from (targetLength - String.length s) padString padString +:+ s.

(** [TextEncoder().encode]: UTF-8 of the code units below U+0100. *)
Definition TextEncoder_encode (s : string) : list byte :=
  flat_map (fun c =>
              let n := Z.of_N (N_of_ascii c) in
              if n <? 128 then [byte_of_Z n]
              else [byte_of_Z (Z.lor 0xC0 (Z.shiftr n 6));
                    byte_of_Z (Z.lor 0x80 (Z.land n 0x3F))])
           (list_ascii_of_string s).

(** [hashArray.map(b => b.toString(16).padStart(2, '0')).join('')] *)
Definition hashHex (hashArray : list byte) : string :=
  String.concat ""
    (map (fun b => padStart 2 "0" (Number_toString 16 (Byte.to_N b))) hashArray).

Definition is_lower_hex (c : ascii) : bool :=
  existsb (Ascii.eqb c) (list_ascii_of_string "0123456789abcdef").

(** The argument of [calculateSHA512] in [www_backup_20251115]. *)
Inductive FileOrBlobOrString :=
| of_File (f : File)
| of_string (s : string).

Definition calculateSHA512 (fileOrBlob : FileOrBlobOrString) : string :=
  let buffer :=
    match fileOrBlob with
    | of_string s => TextEncoder_encode s
    | of_File f => file_bytes f
    end in
  hashHex (SHA512.digest buffer).

(* ================================================================= *)
(** ** IndexedDB service *)
(* ================================================================= *)

(** The database [verum_db]: three object stores, keyed by [id], [id] and
    [key]. *)
Record DB := mkDB {
  EVIDENCE_STORE : gmap string Evidence.t;
  REPORTS_STORE : gmap string Report.t;
  META_STORE : gmap string ReportsIndexMeta.t
}.

Definition empty_db : DB := mkDB ∅ ∅ ∅.

(** How a promise settles. *)
Inductive Promise (A : Type) :=
| Resolved (a : A)
| Rejected.
Arguments Resolved {A} a.
Arguments Rejected {A}.

Definition is_resolved {A} (p : Promise A) : bool :=
  match p with Resolved _ => true | Rejected => false end.

Definition resolved_values {A} (ps : list (Promise A)) : list A :=
  omap (fun p => match p with Resolved a => Some a | Rejected => None end) ps.

(** [store.getAll()]: every record of the store. IndexedDB returns them by
    ascending key; nothing below depends on the order. *)
Definition getAll {A} (store : gmap string A) : list A :=
  (map_to_list store).*2.

(** [new Map(pairs)]: a later pair replaces an earlier one with the same
    key. *)
Definition Map_new {A} (pairs : list (string * A)) : gmap string A :=
  foldl (fun m kv => <[kv.1 := kv.2]> m) ∅ pairs.

(** [saveEvidence]; [sha512] is the digest [calculateSHA512] gave for the
    file. *)
Definition saveEvidence (tx_ok : bool) (uuid : string) (now : Z)
    (sha512 : string) (file : File) (jurisdiction : Jurisdiction)
    (timezone : string) (db : DB) : DB * Promise Evidence.t :=
  let evidence :=
    Evidence.mk uuid (file_name file) (file_size file) (file_type file) file
                sha512 (Some now) jurisdiction timezone ∅ None in
  if tx_ok
  then (mkDB (<[Evidence.id evidence := evidence]> (EVIDENCE_STORE db))
             (REPORTS_STORE db) (META_STORE db),
        Resolved evidence)
  else (db, Rejected).

Definition updateEvidence (tx_ok : bool) (evidence : Evidence.t) (db : DB)
    : DB * Promise Evidence.t :=
  if tx_ok
  then (mkDB (<[Evidence.id evidence := evidence]> (EVIDENCE_STORE db))
             (REPORTS_STORE db) (META_STORE db),
        Resolved evidence)
  else (db, Rejected).

(** Where [saveReport] can fail: the read of the index record, the
    transaction on the meta store, or the later transaction on the reports
    store. *)
Inductive saveReport_io :=
| io_ok
| io_getMeta_error
| io_metaTransaction_error
| io_reportTransaction_error.

Definition default_meta : ReportsIndexMeta.t :=
  ReportsIndexMeta.mk "reports_index" [] 0.

Definition saveReport (io : saveReport_io) (uuid : string) (now : Z)
    (report : PartialReport.t) (db : DB) : DB * Promise Report.t :=
  match io with
  | io_getMeta_error => (db, Rejected)
  | _ =>
    let meta := default default_meta (META_STORE db !! "reports_index") in
    let nextChapterIndex := ReportsIndexMeta.lastChapterIndex meta + 1 in
    let fullReport :=
      Report.mk uuid (PartialReport.title report) nextChapterIndex
                (Some now) (Some now)
                (PartialReport.jurisdiction report)
                (PartialReport.timezone report)
                (PartialReport.evidenceRefs report)
                (PartialReport.findings report)
                (PartialReport.contradictions report)
                (PartialReport.timeline report)
                (PartialReport.pdfSha512 report)
                (PartialReport.rawHtmlReport report)
                (PartialReport.highlights report) in
    let meta' :=
      ReportsIndexMeta.mk (ReportsIndexMeta.key meta)
                          (ReportsIndexMeta.order meta ++ [Report.id fullReport])
                          nextChapterIndex in
    match io with
    | io_metaTransaction_error => (db, Rejected)
    | _ =>
      let db1 := mkDB (EVIDENCE_STORE db) (REPORTS_STORE db)
                      (<[ReportsIndexMeta.key meta' := meta']> (META_STORE db)) in
      match io with
      | io_reportTransaction_error => (db1, Rejected)
      | _ =>
        (mkDB (EVIDENCE_STORE db1)
              (<[Report.id fullReport := fullReport]> (REPORTS_STORE db1))
              (META_STORE db1),
         Resolved fullReport)
      end
    end
  end.

(** One call of [saveReport] with what it reads from its environment. *)
Record SaveCall := mkCall {
  call_io : saveReport_io;
  call_uuid : string;
  call_now : Z;
  call_report : PartialReport.t
}.

(** A sequence of [saveReport] calls, each awaited before the next. *)
Fixpoint run_saveReports (calls : list SaveCall) (db : DB)
    : DB * list (Promise Report.t) :=
  match calls with
  | [] => (db, [])
  | c :: rest =>
    let '(db1, p) := saveReport (call_io c) (call_uuid c) (call_now c)
                                (call_report c) db in
    let '(db2, ps) := run_saveReports rest db1 in
    (db2, p :: ps)
  end.

(** The index record as the read path sees it:
    [metaReq.result?.order ?? []]. *)
Definition index_order (db : DB) : list string :=
  match META_STORE db !! "reports_index" with
  | Some m => ReportsIndexMeta.order m
  | None => []
  end.

Definition index_lastChapterIndex (db : DB) : Z :=
  ReportsIndexMeta.lastChapterIndex
    (default default_meta (META_STORE db !! "reports_index")).

(** [order.map(id => reportsMap.get(id)).filter(Boolean)] *)
Definition ordered_reports (db : DB) : list Report.t :=
  let order := index_order db in
  let reportsUnordered := getAll (REPORTS_STORE db) in
  let reportsMap := Map_new (map (fun r => (Report.id r, r)) reportsUnordered) in
  omap (fun id => reportsMap !! id) order.

(** [getAllReportsIndexed] of [www_backup_20251115]: the id set is filled by
    [forEach] and [add]. *)
Definition getAllReportsIndexed (io_ok : bool) (db : DB)
    : Promise (list Report.t * list Evidence.t) :=
  if io_ok then
    let reports := ordered_reports db in
    let allEvidenceIds : gset string :=
      foldl (fun s r =>
               foldl (fun s ref => s ∪ {[ref_id ref]}) s (Report.evidenceRefs r))
            ∅ reports in
    let allEvidence := getAll (EVIDENCE_STORE db) in
    let relatedEvidence :=
      filter (fun e => Evidence.id e ∈ allEvidenceIds) allEvidence in
    Resolved (reports, relatedEvidence)
  else Rejected.

Definition getEvidenceById (io_ok : bool) (id : string) (db : DB)
    : Promise (option Evidence.t) :=
  if io_ok then Resolved (EVIDENCE_STORE db !! id) else Rejected.

Definition clearEvidenceAndReports (tx_ok : bool) (db : DB) : DB * Promise unit :=
  if tx_ok
  then (mkDB ∅ ∅ (delete "reports_index" (META_STORE db)), Resolved tt)
  else (db, Rejected).

(** The original [services/forensicService.ts], where it differs. *)
Module Original.
Definition calculateSHA512 (file : File) : string :=
  hashHex (SHA512.digest (file_bytes file)).

(** The id set is built from [reports.flatMap(...)]. *)
Definition getAllReportsIndexed (io_ok : bool) (db : DB)
    : Promise (list Report.t * list Evidence.t) :=
  if io_ok then
    let reports := ordered_reports db in
    let evidenceIds : gset string :=
      list_to_set (flat_map (fun r => map ref_id (Report.evidenceRefs r)) reports) in
    let allEvidence := getAll (EVIDENCE_STORE db) in
    let relatedEvidence :=
      filter (fun e => Evidence.id e ∈ evidenceIds) allEvidence in
    Resolved (reports, relatedEvidence)
  else Rejected.
End Original.

(* ================================================================= *)
(** ** JavaScript strings and regular expressions *)
(* ================================================================= *)

Definition code (c : ascii) : N := N_of_ascii c.

Definition in_range (lo hi c : ascii) : bool :=
  ((code lo <=? code c) && (code c <=? code hi))%N.

Definition is_digit (c : ascii) : bool := in_range "0" "9" c.

Definition is_upper (c : ascii) : bool := in_range "A" "Z" c.

Definition is_lower (c : ascii) : bool := in_range "a" "z" c.

(** [\w] *)
Definition is_word (c : ascii) : bool :=
  is_upper c || is_lower c || is_digit c || Ascii.eqb c "_".

(** [\s], also what [trim] strips: TAB, LF, VT, FF, CR, SP and NBSP are the
    white space and line terminators below U+0100. *)
Definition is_space (c : ascii) : bool :=
  existsb (N.eqb (code c)) [9; 10; 11; 12; 13; 32; 160]%N.

(** Lower case of one code unit: A-Z, and the Latin-1 capitals
    U+00C0..U+00DE but for the multiplication sign. *)
Definition lower_char (c : ascii) : ascii :=
  let n := code c in
  if is_upper c then ascii_of_N (n + 32)
  else if ((192 <=? n) && (n <=? 222) && negb (n =? 215))%N
       then ascii_of_N (n + 32)
       else c.

Fixpoint toLowerCase (s : string) : string :=
  match s with
  | EmptyString => EmptyString
  | String c rest => String (lower_char c) (toLowerCase rest)
  end.

(** [s.includes(t)] *)
Fixpoint includes (s t : string) : bool :=
  String.prefix t s
  || match s with
     | EmptyString => false
     | String _ rest => includes rest t
     end.

Fixpoint drop_spaces (l : list ascii) : list ascii :=
  match l with
  | c :: rest => if is_space c then drop_spaces rest else l
  | [] => []
  end.

Definition trim (s : string) : string :=
  string_of_list_ascii
    (rev (drop_spaces (rev (drop_spaces (list_ascii_of_string s))))).

(** [Array.prototype.sort()] without a comparator, on strings: ascending
    by code units. *)
Fixpoint sort_insert (x : string) (l : list string) : list string :=
  match l with
  | [] => [x]
  | y :: rest => if String.leb x y then x :: l else y :: sort_insert x rest
  end.

Definition Array_sort (l : list string) : list string :=
  fold_right sort_insert [] l.

(** [Array.prototype.join] *)
Definition join (sep : string) (l : list string) : string :=
  String.concat sep l.

(** The number that a string of decimal digits denotes. *)
Definition decimal_value (digits : list ascii) : option Z :=
  match digits with
  | [] => None
  | _ =>
    if forallb is_digit digits
    then Some (fold_left (fun acc c => acc * 10 + (Z.of_N (code c) - 48))
                         digits 0)
    else None
  end.

(** The double quote, for template literals that contain one. *)
Definition dquote : string := String (ascii_of_nat 34) "".

(** A backtracking matcher for the patterns of this file. Quantifiers
    apply to single characters or classes, as they do in every pattern
    here, and groups are not nested. *)
Module RegExp.
Inductive t :=
| Empty
| Char (p : ascii → bool)
| Repeat (p : ascii → bool) (min : nat) (max : option nat)
| Seq (r1 r2 : t)
| Alt (r1 r2 : t)
| WordBoundary
| EndOfInput
| Group (r : t).

(** A position in the input: the characters before it, nearest first, the
    characters from it on, and the groups captured so far. *)
Record state := mkState {
  before : list ascii;
  rest : list ascii;
  captures : list string
}.

(** The text between an earlier position and the current one. *)
Definition consumed (before0 before1 : list ascii) : string :=
  string_of_list_ascii
    (rev (firstn (length before1 - length before0) before1)).

Definition word_at (l : list ascii) : bool :=
  match l with
  | c :: _ => is_word c
  | [] => false
  end.

(** Greedy [p{min,max}]: as many characters as possible first, one fewer
    each time the continuation fails. *)
Fixpoint repeat_greedy (p : ascii → bool) (min : nat) (max : option nat)
    (before rest : list ascii) (captures : list string)
    (k : state → option state) {struct rest} : option state :=
  let stop :=
    match min with
    | O => k (mkState before rest captures)
    | S _ => None
    end in
  match rest with
  | c :: rest' =>
    if p c && match max with Some O => false | _ => true end
    then match repeat_greedy p (Nat.pred min) (Nat.pred <$> max)
                             (c :: before) rest' captures k with
         | Some st => Some st
         | None => stop
         end
    else stop
  | [] => stop
  end.

(** [matcher r st k]: match [r] at [st] and go on with [k]; alternatives
    are tried in order and the first success wins. *)
Fixpoint matcher (r : t) (st : state) (k : state → option state)
    : option state :=
  match r with
  | Empty => k st
  | Char p =>
    match rest st with
    | c :: rest' =>
      if p c then k (mkState (c :: before st) rest' (captures st)) else None
    | [] => None
    end
  | Repeat p min max =>
    repeat_greedy p min max (before st) (rest st) (captures st) k
  | Seq r1 r2 => matcher r1 st (fun st' => matcher r2 st' k)
  | Alt r1 r2 =>
    match matcher r1 st k with
    | Some st' => Some st'
    | None => matcher r2 st k
    end
  | WordBoundary =>
    if xorb (word_at (before st)) (word_at (rest st)) then k st else None
  | EndOfInput =>
    match rest st with
    | [] => k st
    | _ :: _ => None
    end
  | Group r =>
    matcher r st
      (fun st' =>
         k (mkState (before st') (rest st')
                    (captures st' ++ [consumed (before st) (before st')])))
  end.

(** The leftmost match at or after a position: where it starts and where
    it ends. *)
Fixpoint search (r : t) (before rest : list ascii)
    : option (list ascii * state) :=
  match matcher r (mkState before rest []) Some with
  | Some st' => Some (before, st')
  | None =>
    match rest with
    | [] => None
    | c :: rest' => search r (c :: before) rest'
    end
  end.

(** What [exec] returns: [match[0]] and the groups [match[1]], ... *)
Record MatchResult := mkMatch {
  matched : string;
  groups : list string
}.

Definition result_of (before0 : list ascii) (st : state) : MatchResult :=
  mkMatch (consumed before0 (before st)) (captures st).

(** [while ((match = regex.exec(text)) !== null)] for a global pattern:
    each search starts where the last match ended. [fuel] bounds the number
    of iterations. *)
Fixpoint exec_loop (fuel : nat) (r : t) (bef inp : list ascii)
    : list MatchResult :=
  match fuel with
  | O => []
  | S fuel' =>
    match search r bef inp with
    | None => []
    | Some (before0, st) =>
      result_of before0 st :: exec_loop fuel' r (RegExp.before st) (RegExp.rest st)
    end
  end.

(** The iteration of [String.prototype.match] with a global pattern: after
    an empty match the next search starts one character further. *)
Fixpoint match_loop (fuel : nat) (r : t) (bef inp : list ascii)
    : list MatchResult :=
  match fuel with
  | O => []
  | S fuel' =>
    match search r bef inp with
    | None => []
    | Some (before0, st) =>
      result_of before0 st ::
      (if (length (RegExp.before st) =? length before0)%nat
       then match RegExp.rest st with
            | [] => []
            | c :: rest' => match_loop fuel' r (c :: RegExp.before st) rest'
            end
       else match_loop fuel' r (RegExp.before st) (RegExp.rest st))
    end
  end.

(** A literal character, and one matched without regard to case (flag
    [i]). *)
Definition lit (c : ascii) : t := Char (Ascii.eqb c).

Definition lit_i (c : ascii) : t :=
  Char (fun x => Ascii.eqb (lower_char x) (lower_char c)).

Definition word_i (s : string) : t :=
  fold_right (fun c r => Seq (lit_i c) r) Empty (list_ascii_of_string s).

Definition sequence (rs : list t) : t := fold_right Seq Empty rs.
(** What [matcher] finds, read off the pattern: [r] matches the text [w]
    standing between [before] (nearest character first) and [after]. *)
Fixpoint matches (r : t) (before w after : list ascii) : Prop :=
  match r with
  | Empty => w = []
  | Char p => ∃ c, w = [c] ∧ p c = true
  | Repeat p min max =>
    Forall (fun c => p c = true) w
    ∧ (min ≤ length w)%nat
    ∧ match max with
      | Some n => (length w ≤ n)%nat
      | None => True
      end
  | Seq r1 r2 =>
    ∃ w1 w2, w = w1 ++ w2
             ∧ matches r1 before w1 (w2 ++ after)
             ∧ matches r2 (rev w1 ++ before) w2 after
  | Alt r1 r2 => matches r1 before w after ∨ matches r2 before w after
  | WordBoundary => w = [] ∧ xorb (word_at before) (word_at after) = true
  | EndOfInput => w = [] ∧ after = []
  | Group r => matches r before w after
  end.
End RegExp.

(** [text.match(regex)] for a global [regex]: every matched substring
    ([null] is the empty list here). *)
Definition String_match (regex : RegExp.t) (text : string) : list string :=
  map RegExp.matched
      (RegExp.match_loop (S (String.length text)) regex []
                         (list_ascii_of_string text)).

(** The successive results of [regex.exec(text)] in a [while] loop, for a
    global [regex] that starts with [lastIndex] 0. *)
Definition RegExp_exec_all (regex : RegExp.t) (text : string)
    : list RegExp.MatchResult :=
  RegExp.exec_loop (S (String.length text)) regex []
                   (list_ascii_of_string text).

(** [s.replace(regex, replacement)] for a [regex] that is not global: the
    first match is replaced. *)
Definition String_replace (regex : RegExp.t) (replacement : string)
    (s : string) : string :=
  match RegExp.search regex [] (list_ascii_of_string s) with
  | None => s
  | Some (before0, st) =>
    string_of_list_ascii (rev before0) +:+ replacement
    +:+ string_of_list_ascii (RegExp.rest st)
  end.

(** [/\.[^/.]+$/] *)
Definition extensionRegex : RegExp.t :=
  RegExp.sequence
    [ RegExp.lit ".";
      RegExp.Repeat (fun c => negb (Ascii.eqb c "/" || Ascii.eqb c ".")) 1 None;
      RegExp.EndOfInput ].

(** [/\b(0?[1-9]|1[0-2])\/(0?[1-9]|[12][0-9]|3[01])\/\d{4}\b/g] *)
Definition dateRegex : RegExp.t :=
  RegExp.sequence
    [ RegExp.WordBoundary;
      RegExp.Group
        (RegExp.Alt
           (RegExp.Seq (RegExp.Repeat (Ascii.eqb "0") 0 (Some 1%nat))
                       (RegExp.Char (in_range "1" "9")))
           (RegExp.Seq (RegExp.lit "1") (RegExp.Char (in_range "0" "2"))));
      RegExp.lit "/";
      RegExp.Group
        (RegExp.Alt
           (RegExp.Seq (RegExp.Repeat (Ascii.eqb "0") 0 (Some 1%nat))
                       (RegExp.Char (in_range "1" "9")))
           (RegExp.Alt
              (RegExp.Seq (RegExp.Char (in_range "1" "2"))
                          (RegExp.Char (in_range "0" "9")))
              (RegExp.Seq (RegExp.lit "3") (RegExp.Char (in_range "0" "1")))));
      RegExp.lit "/";
      RegExp.Repeat is_digit 4 (Some 4%nat);
      RegExp.WordBoundary ].

(** [/(see|ref|reference|attachment|exhibit)\s+([A-Z0-9-]{1,10})/gi] *)
Definition omissionRegex : RegExp.t :=
  RegExp.sequence
    [ RegExp.Group
        (RegExp.Alt (RegExp.word_i "see")
           (RegExp.Alt (RegExp.word_i "ref")
              (RegExp.Alt (RegExp.word_i "reference")
                 (RegExp.Alt (RegExp.word_i "attachment")
                             (RegExp.word_i "exhibit")))));
      RegExp.Repeat is_space 1 None;
      RegExp.Group
        (RegExp.Repeat
           (fun c => is_upper c || is_lower c || is_digit c || Ascii.eqb c "-")
           1 (Some 10%nat)) ].

(* ================================================================= *)
(** ** Dates of the platform *)
(* ================================================================= *)

(** What the engine asks of the platform's [Date]: the time value of
    [new Date(dateStr)] for a string that is not in the ISO format, which
    the language leaves to the implementation, and
    [toLocaleDateString()], which depends on the locale and time zone. *)
Record Platform := mkPlatform {
  Date_parse : string → Date;
  toLocaleDateString : Date → string
}.

(** A reference platform: dates are read as month/day/year at midnight UTC
    and printed the same way, as with the locale en-US. *)
Module ReferencePlatform.
Definition msPerDay : Z := 86400000.

(** Days since 1970-01-01 of a date of the proleptic Gregorian calendar. *)
Definition days_from_civil (y m d : Z) : Z :=
  let y' := if m <=? 2 then y - 1 else y in
  let era := y' / 400 in
  let yoe := y' - era * 400 in
  let mp := (m + 9) mod 12 in
  let doy := (153 * mp + 2) / 5 + d - 1 in
  let doe := yoe * 365 + yoe / 4 - yoe / 100 + doy in
  era * 146097 + doe - 719468.

Definition civil_from_days (z : Z) : Z * Z * Z :=
  let z := z + 719468 in
  let era := z / 146097 in
  let doe := z - era * 146097 in
  let yoe := (doe - doe / 1460 + doe / 36524 - doe / 146096) / 365 in
  let doy := doe - (365 * yoe + yoe / 4 - yoe / 100) in
  let mp := (5 * doy + 2) / 153 in
  let d := doy - (153 * mp + 2) / 5 + 1 in
  let m := if mp <? 10 then mp + 3 else mp - 9 in
  let y := yoe + era * 400 in
  (if m <=? 2 then y + 1 else y, m, d).

Fixpoint split_at (sep : ascii) (l : list ascii) : list (list ascii) :=
  match l with
  | [] => [[]]
  | c :: rest =>
    if Ascii.eqb c sep then [] :: split_at sep rest
    else match split_at sep rest with
         | cur :: others => (c :: cur) :: others
         | [] => [[c]]
         end
  end.

Definition parse (dateStr : string) : Date :=
  match split_at "/" (list_ascii_of_string dateStr) with
  | [m; d; y] =>
    match decimal_value m, decimal_value d, decimal_value y with
    | Some m, Some d, Some y =>
      if (1 <=? m) && (m <=? 12) && (1 <=? d) && (d <=? 31)
      then Some ((days_from_civil y m 1 + (d - 1)) * msPerDay)
      else None
    | _, _, _ => None
    end
  | _ => None
  end.

Definition decimal (z : Z) : string :=
  if z <? 0 then "-" +:+ Number_toString 10 (Z.to_N (- z))
  else Number_toString 10 (Z.to_N z).

Definition format (d : Date) : string :=
  match d with
  | None => "Invalid Date"
  | Some t =>
    let '(y, m, day) := civil_from_days (t / msPerDay) in
    decimal m +:+ "/" +:+ decimal day +:+ "/" +:+ decimal y
  end.

Definition platform : Platform := mkPlatform parse format.
End ReferencePlatform.

(* ================================================================= *)
(** ** Contradiction engine *)
(* ================================================================= *)

(** The values [Math.floor(Math.random() * n)] is going to take, each
    reduced below its [n] when it is read; an exhausted tape reads 0. *)
Definition Tape := list nat.

Definition random_below (n : nat) (tape : Tape) : nat * Tape :=
  match tape with
  | [] => (O, [])
  | d :: tape' => ((d mod n)%nat, tape')
  end.

(** [[a[i], a[j]] = [a[j], a[i]]] *)
Definition swap {T} (a : list T) (i j : nat) : list T :=
  match a !! i, a !! j with
  | Some x, Some y => <[j := x]> (<[i := y]> a)
  | _, _ => a
  end.

(** The loop of [shuffle], from index [i] down to 1. *)
Fixpoint shuffle_from {T} (i : nat) (newArray : list T) (tape : Tape)
    : list T * Tape :=
  match i with
  | O => (newArray, tape)
  | S i' =>
    let '(j, tape') := random_below (S i) tape in
    shuffle_from i' (swap newArray i j) tape'
  end.

Definition shuffle {T} (array : list T) (tape : Tape) : list T * Tape :=
  shuffle_from (length array - 1) array tape.

Definition stripExtension (name : string) : string :=
  String_replace extensionRegex "" (toLowerCase name).

(** [ref => { const ev = evidenceMap.get(ref.id); if (ev && !scope.some(e
    => e.id === ev.id)) scope.push(ev) }] *)
Definition scope_add (evidenceMap : gmap string Evidence.t)
    (scope : list Evidence.t) (ref : EvidenceRef) : list Evidence.t :=
  match evidenceMap !! ref_id ref with
  | Some ev =>
    if existsb (fun e => String.eqb (Evidence.id e) (Evidence.id ev)) scope
    then scope
    else scope ++ [ev]
  | None => scope
  end.

Definition allEvidenceInScope (reports : list Report.t)
    (evidenceList : list Evidence.t) : list Evidence.t :=
  let evidenceMap := Map_new (map (fun e => (Evidence.id e, e)) evidenceList) in
  foldl (fun scope r => foldl (scope_add evidenceMap) scope (Report.evidenceRefs r))
        [] reports.

(** [e.ocrText && e.ocrText.trim().length > 0] *)
Definition has_text (e : Evidence.t) : bool :=
  match Evidence.ocrText e with
  | Some text => negb (String.length (trim text) =? 0)%nat
  | None => false
  end.

(** Rule [cross_doc_drift] for the pair [evA], [evB]. *)
Definition drift_rule (evA evB : Evidence.t) : list RawContradiction.t :=
  let nameA := stripExtension (Evidence.name evA) in
  let nameB := stripExtension (Evidence.name evB) in
  if (includes nameA nameB || includes nameB nameA)
     && negb (String.eqb nameA nameB)
     && negb (String.eqb (Evidence.sha512 evA) (Evidence.sha512 evB))
  then
    [ RawContradiction.mk cross_doc_drift None
        (Some ("Evidence named " +:+ dquote +:+ Evidence.name evA +:+ dquote))
        (Some ("Evidence named " +:+ dquote +:+ Evidence.name evB +:+ dquote))
        [Evidence.id evA; Evidence.id evB]
        ("Two files with similar names ('" +:+ Evidence.name evA +:+ "', '"
         +:+ Evidence.name evB
         +:+ "') have different content hashes, indicating a possible version mismatch or alteration.") ]
  else [].

(** The two nested loops over [i < j]. *)
Fixpoint drift_pairs (scope : list Evidence.t) : list RawContradiction.t :=
  match scope with
  | [] => []
  | evA :: later =>
    flat_map (fun evB => drift_rule evA evB) later ++ drift_pairs later
  end.

Section Engine.
Variable P : Platform.

Definition metadata_explanation (mentionedDate fileCreationDate : Date)
    : string :=
  "The document content mentions a future date ("
  +:+ toLocaleDateString P mentionedDate
  +:+ ") relative to its creation date ("
  +:+ toLocaleDateString P fileCreationDate +:+ ").".

(** Rule [metadata_mismatch] for one string matched by [dateRegex]. *)
Definition metadata_rule (evidence : Evidence.t) (dateStr : string)
    : list RawContradiction.t :=
  let mentionedDate := Date_parse P dateStr in
  let fileCreationDate := Evidence.createdAt evidence in
  if Date_gt mentionedDate fileCreationDate
  then
    [ RawContradiction.mk metadata_mismatch None
        (Some ("File created: " +:+ toLocaleDateString P fileCreationDate))
        (Some ("Content mentions: " +:+ toLocaleDateString P mentionedDate))
        [Evidence.id evidence]
        (metadata_explanation mentionedDate fileCreationDate) ]
  else [].

Definition metadata_mismatches (evidence : Evidence.t)
    : list RawContradiction.t :=
  flat_map (metadata_rule evidence)
           (String_match dateRegex (default "" (Evidence.ocrText evidence))).

(** Rule [omission] for one result of [omissionRegex.exec]. *)
Definition omission_rule (scope : list Evidence.t) (evidence : Evidence.t)
    (m : RegExp.MatchResult) : list RawContradiction.t :=
  let match2 := nth 1 (RegExp.groups m) "" in
  let referencedExhibit := toLowerCase match2 in
  let found :=
    existsb (fun e => includes (toLowerCase (Evidence.name e)) referencedExhibit)
            scope in
  if found then []
  else
    [ RawContradiction.mk omission None
        (Some ("Reference to " +:+ dquote +:+ match2 +:+ dquote))
        (Some "Evidence not provided")
        [Evidence.id evidence]
        ("Document " +:+ dquote +:+ Evidence.name evidence +:+ dquote
         +:+ " references an exhibit or attachment " +:+ dquote +:+ match2
         +:+ dquote +:+ " which was not found in the provided evidence set.") ].

Definition omissions (scope : list Evidence.t) (evidence : Evidence.t)
    : list RawContradiction.t :=
  flat_map (omission_rule scope evidence)
           (RegExp_exec_all omissionRegex (default "" (Evidence.ocrText evidence))).

Definition analyzeContradictionsOnce (reports : list Report.t)
    (evidenceList : list Evidence.t) : list RawContradiction.t :=
  let scope := allEvidenceInScope reports evidenceList in
  let textEvidence := List.filter has_text scope in
  drift_pairs scope
  ++ flat_map (fun evidence =>
                 metadata_mismatches evidence ++ omissions scope evidence)
              textEvidence.

(** [`${c.type}-${[...c.sources].sort().join('-')}-${c.explanation}`] *)
Definition contradiction_key (c : RawContradiction.t) : string :=
  type_string (RawContradiction.type c) +:+ "-"
  +:+ join "-" (Array_sort (RawContradiction.sources c)) +:+ "-"
  +:+ RawContradiction.explanation c.

(** The first loop of [runContradictionAnalysis]: [n] passes on shuffled
    inputs, every result pushed with its key. *)
Fixpoint allFoundContradictions (n : nat) (reports : list Report.t)
    (evidence : list Evidence.t) (tape : Tape)
    : list (RawContradiction.t * string) :=
  match n with
  | O => []
  | S n' =>
    let '(shuffledReports, tape1) := shuffle reports tape in
    let '(shuffledEvidence, tape2) := shuffle evidence tape1 in
    let results := analyzeContradictionsOnce shuffledReports shuffledEvidence in
    map (fun c => (c, contradiction_key c)) results
    ++ allFoundContradictions n' reports evidence tape2
  end.

(** One step of the counting loop on [contradictionCounts], a [Map] in
    insertion order. *)
Fixpoint count_found (counts : list (string * (RawContradiction.t * nat)))
    (c : RawContradiction.t) (key : string)
    : list (string * (RawContradiction.t * nat)) :=
  match counts with
  | [] => [(key, (c, 1%nat))]
  | (k, (c0, count)) :: rest =>
    if String.eqb k key then (k, (c0, S count)) :: rest
    else (k, (c0, count)) :: count_found rest c key
  end.

Definition contradictionCounts (found : list (RawContradiction.t * string))
    : list (string * (RawContradiction.t * nat)) :=
  foldl (fun counts ck => count_found counts ck.1 ck.2) [] found.

Definition verification_of (count : nat) : Verification :=
  if (3 <=? count)%nat then Verified_3_3
  else if (count =? 2)%nat then Consensus_2_3
  else Inconclusive_1_3.

Definition runContradictionAnalysis (reports : list Report.t)
    (evidence : list Evidence.t) (tape : Tape) : list Contradiction.t :=
  map (fun entry =>
         Contradiction.of_raw entry.2.1 (verification_of entry.2.2))
      (contradictionCounts (allFoundContradictions 3 reports evidence tape)).
End Engine.

(** The key of a finished record, from the same three fields. *)
Definition key_of (c : Contradiction.t) : string :=
  type_string (Contradiction.type c) +:+ "-"
  +:+ join "-" (Array_sort (Contradiction.sources c)) +:+ "-"
  +:+ Contradiction.explanation c.

(* ================================================================= *)
(** ** hooks/useJurisdiction.ts *)
(* ================================================================= *)

(** The hook has a [Jurisdiction] type of its own. Coordinates are finite
    numbers; a finite double is a rational and [<] on doubles is the
    order of the rationals. *)
Module useJurisdiction.
Inductive Jurisdiction := UAE | KSA | EU | US | ZA | UN.

Definition lt (x y : Q) : bool := negb (Qle_bool y x).

Definition guessJurisdiction (lat lon : Q) : Jurisdiction :=
  if lt lat (-20) && lt (-36) lat && lt 16 lon && lt lon 33 then ZA
  else if lt 35 lat && lt lat 72 && lt (-25) lon && lt lon 45 then EU
  else if lt 22 lat && lt lat 27.5 && lt 51 lon && lt lon 56.5 then UAE
  else if lt 16 lat && lt lat 32.5 && lt 34 lon && lt lon 56 then KSA
  else if lt 24 lat && lt lat 49 && lt (-125) lon && lt lon (-66) then US
  else UN.

(** The open rectangle of a test. *)
Definition inside (lat_lo lat_hi lon_lo lon_hi lat lon : Q) : Prop :=
  (lat_lo < lat ∧ lat < lat_hi ∧ lon_lo < lon ∧ lon < lon_hi)%Q.
End useJurisdiction.

(* ================================================================= *)
(** ** App.tsx *)
(* ================================================================= *)

Record SessionContext := mkSession {
  session_jurisdiction : Jurisdiction;
  session_timezone : string;
  session_location : Q * Q
}.

(** The update that [handleToggleEvidenceSelection] applies to the set of
    selected evidence ids. *)
Definition handleToggleEvidenceSelection (evidenceId : string)
    (prev : gset string) : gset string :=
  if decide (evidenceId ∈ prev)
  then prev ∖ {[evidenceId]}
  else prev ∪ {[evidenceId]}.

(** [map.set(k, v)] on a [Map], which keeps its keys in insertion order:
    the value of a key already present is replaced where it stands. *)
Fixpoint Map_set {A} (m : list (string * A)) (k : string) (v : A)
    : list (string * A) :=
  match m with
  | [] => [(k, v)]
  | (k', v') :: rest =>
    if String.eqb k' k then (k', v) :: rest else (k', v') :: Map_set rest k v
  end.

(** [Array.from(new Map(pairs).values())] *)
Definition Map_values {A} (pairs : list (string * A)) : list A :=
  map snd (foldl (fun m kv => Map_set m kv.1 kv.2) [] pairs).

(** [reports.filter(r => r.evidenceRefs.some(ref =>
    selectedEvidenceIds.has(ref.id)))] *)
Definition selectedReports (selectedEvidenceIds : gset string)
    (reports : list Report.t) : list Report.t :=
  List.filter
    (fun r => existsb (fun ref => bool_decide (ref_id ref ∈ selectedEvidenceIds))
                      (Report.evidenceRefs r))
    reports.

Definition uniqueEvidenceRefs (evidenceRefs : list EvidenceRef)
    : list EvidenceRef :=
  Map_values (map (fun item => (ref_id item, item)) evidenceRefs).

(** [handleAnalyzeContradictions], as far as the database and the
    selection go: the database and the selection afterwards, and the
    report that was saved, if any. The messages put in the chat are left
    out. [read_ok] and [io] say how [getAllReportsIndexed] and
    [saveReport] fare. *)
Definition handleAnalyzeContradictions (P : Platform)
    (sessionContext : option SessionContext)
    (selectedEvidenceIds : gset string) (read_ok : bool) (io : saveReport_io)
    (uuid : string) (now : Z) (tape : Tape) (db : DB)
    : DB * gset string * option Report.t :=
  match sessionContext with
  | None => (db, selectedEvidenceIds, None)
  | Some session =>
    if (size selectedEvidenceIds <? 2)%nat
    then (db, selectedEvidenceIds, None)
    else
      match getAllReportsIndexed read_ok db with
      | Rejected => (db, ∅, None)
      | Resolved (reports, evidence) =>
        let selected := selectedReports selectedEvidenceIds reports in
        if (length selected <? 2)%nat then (db, ∅, None)
        else
          let contradictions :=
            runContradictionAnalysis P selected evidence tape in
          let evidenceRefs := flat_map Report.evidenceRefs selected in
          let newReport :=
            saveReport io uuid now
              (PartialReport.mk
                 ("Contradiction Analysis of "
                  +:+ Number_toString 10 (N.of_nat (length selected))
                  +:+ " reports")
                 (session_jurisdiction session) (session_timezone session)
                 (uniqueEvidenceRefs evidenceRefs) [] contradictions []
                 None None None)
              db in
          match newReport.2 with
          | Resolved r => (newReport.1, ∅, Some r)
          | Rejected => (newReport.1, ∅, None)
          end
      end
  end.

(** What [generateSealedReportFromEvidence] returns; it catches its own
    errors and then returns no data. *)
Record ReportData := mkReportData {
  reportHtml : string;
  data_findings : list Finding;
  data_highlights : list Highlight
}.

Record SealedReport := mkSealedReport {
  intro : string;
  data : option ReportData
}.

(** [consensusCount === 3 ? 'Verified (3/3)' : (consensusCount === 2 ?
    'Consensus (2/3)' : 'Inconclusive (≤1/3)')] *)
Definition verificationLabel (consensusCount : nat) : Verification :=
  if (consensusCount =? 3)%nat then Verified_3_3
  else if (consensusCount =? 2)%nat then Consensus_2_3
  else Inconclusive_1_3.

(** [runAnalysisAndSaveReport]: the database afterwards and the report
    that was saved, if any. [results] are the answers of the three calls
    of [generateSealedReportFromEvidence]. *)
Definition runAnalysisAndSaveReport (sessionContext : option SessionContext)
    (results : SealedReport * SealedReport * SealedReport)
    (io : saveReport_io) (uuid : string) (now : Z) (evidence : Evidence.t)
    (db : DB) : DB * option Report.t :=
  match sessionContext with
  | None => (db, None)
  | Some session =>
    let '(r1, r2, r3) := results in
    let validResults :=
      List.filter (fun r => bool_decide (is_Some (data r))) [r1; r2; r3] in
    match validResults with
    | [] => (db, None)
    | primaryResult :: _ =>
      let consensusCount := length validResults in
      match data primaryResult with
      | None => (db, None)
      | Some reportData =>
        let findingsWithVerification :=
          map (fun f =>
                 mkFinding (finding_title f) (finding_trigger f)
                           (finding_source f) (finding_rationale f)
                           (Some (verificationLabel consensusCount)))
              (data_findings reportData) in
        let newReport :=
          saveReport io uuid now
            (PartialReport.mk
               ("Analysis of " +:+ Evidence.name evidence)
               (session_jurisdiction session) (session_timezone session)
               [mkRef (Evidence.id evidence) (Evidence.sha512 evidence)]
               findingsWithVerification [] []
               None (Some (reportHtml reportData))
               (Some (data_highlights reportData)))
            db in
        match newReport.2 with
        | Resolved r => (newReport.1, Some r)
        | Rejected => (newReport.1, None)
        end
      end
    end
  end.

(** What the user does with the two buttons shown for a scanned
    document; [ocr] is what [runOcr] answers and [update_ok] how the
    transaction of [updateEvidence] fares. *)
Inductive ScannedChoice :=
| no_choice
| run_local_ocr (ocr : Promise string) (update_ok : bool)
| analyze_as_image_only.

(** [handleFileUpload] followed by the button the user presses for a
    scanned document, nothing else touching the database in between: the
    database afterwards, the evidence handed to the analysis and the
    report that was saved, if any. [pdfText] is what [extractPdfText]
    answers for a PDF. *)
Definition handleFileUpload (sessionContext : option SessionContext)
    (tx_ok : bool) (uuid : string) (now : Z) (file : File)
    (pdfText : Promise string) (choice : ScannedChoice)
    (results : SealedReport * SealedReport * SealedReport)
    (io : saveReport_io) (report_uuid : string) (report_now : Z) (db : DB)
    : DB * option Evidence.t * option Report.t :=
  match sessionContext with
  | None => (db, None, None)
  | Some session =>
    let saved :=
      saveEvidence tx_ok uuid now (calculateSHA512 (of_File file)) file
                   (session_jurisdiction session) (session_timezone session)
                   db in
    match saved.2 with
    | Rejected => (saved.1, None, None)
    | Resolved evidence =>
      let analyse (e : Evidence.t) (db0 : DB) :=
        let out := runAnalysisAndSaveReport sessionContext results io
                     report_uuid report_now e db0 in
        (out.1, Some e, out.2) in
      let continue (textContent : string) :=
        let isScanned := (String.length (trim textContent) <? 100)%nat in
        if isScanned then
          match choice with
          | no_choice => (saved.1, None, None)
          | analyze_as_image_only => analyse evidence saved.1
          | run_local_ocr ocr update_ok =>
            match ocr with
            | Rejected => (saved.1, None, None)
            | Resolved ocrText =>
              let updatedEvidence := Evidence.with_ocrText evidence ocrText in
              let updated := updateEvidence update_ok updatedEvidence saved.1 in
              match updated.2 with
              | Rejected => (updated.1, None, None)
              | Resolved _ => analyse updatedEvidence updated.1
              end
            end
          end
        else analyse (Evidence.with_ocrText evidence textContent) saved.1 in
      if String.eqb (file_type file) "application/pdf"
      then match pdfText with
           | Rejected => (saved.1, None, None)
           | Resolved textContent => continue textContent
           end
      else continue ""
    end
  end.

(* ================================================================= *)
(** ** Notions used in the statements *)
(* ================================================================= *)

(** The record under ['reports_index'], when there is one, carries that
    key: IndexedDB stores a record under the value of its key path. *)
Definition meta_keyed (db : DB) : Prop :=
  ∀ m, META_STORE db !! "reports_index" = Some m →
       ReportsIndexMeta.key m = "reports_index".

(** Every report is stored under its own id, the key path of the store. *)
Definition reports_keyed (db : DB) : Prop :=
  ∀ k r, REPORTS_STORE db !! k = Some r → Report.id r = k.

Definition stored_digest (db : DB) (id : string) : option string :=
  Evidence.sha512 <$> (EVIDENCE_STORE db !! id).

(** The keys and tiers of a result. *)
Definition keys_and_tiers (result : list Contradiction.t)
    : list (string * Verification) :=
  map (fun c => (key_of c, Contradiction.verification c)) result.

(** A record of type [cross_doc_drift] whose sources are the two given
    ids, in either order. *)
Definition cites_pair (idA idB : string) (type : ContradictionType)
    (sources : list string) : bool :=
  match type with
  | cross_doc_drift =>
    bool_decide (sources = [idA; idB]) || bool_decide (sources = [idB; idA])
  | _ => false
  end.

(** Such records in a result, and in what one pass returns. *)
Definition drift_records_for (idA idB : string)
    (result : list Contradiction.t) : list Contradiction.t :=
  List.filter
    (fun c => cites_pair idA idB (Contradiction.type c) (Contradiction.sources c))
    result.

Definition pass_drift_records_for (idA idB : string)
    (found : list RawContradiction.t) : list RawContradiction.t :=
  List.filter
    (fun c => cites_pair idA idB (RawContradiction.type c)
                         (RawContradiction.sources c))
    found.

(** How many times a key was pushed by the passes. *)
Definition occurrences (key : string)
    (found : list (RawContradiction.t * string)) : nat :=
  length (List.filter (fun ck => String.eqb ck.2 key) found).

(** Every evidence reference of the reports, in order. *)
Definition all_refs (reports : list Report.t) : list EvidenceRef :=
  flat_map Report.evidenceRefs reports.

(** The inputs of one pass: the reports and the evidence in some order. *)
Definition reordering (reports : list Report.t) (evidence : list Evidence.t)
    (pass : list Report.t * list Evidence.t) : Prop :=
  pass.1 ≡ₚ reports ∧ pass.2 ≡ₚ evidence.

(** What one pass pushes. *)
Definition pass_found (P : Platform)
    (pass : list Report.t * list Evidence.t)
    : list (RawContradiction.t * string) :=
  map (fun c => (c, contradiction_key c))
      (analyzeContradictionsOnce P pass.1 pass.2).

(** All the ids have one length, as the UUIDs that [saveEvidence] assigns
    do. *)
Definition ids_same_length (evidence : list Evidence.t) : Prop :=
  ∀ e1 e2, e1 ∈ evidence → e2 ∈ evidence →
           String.length (Evidence.id e1) = String.length (Evidence.id e2).

(** The record [metadata_rule] pushes for a date string. *)
Definition metadata_record (P : Platform) (evidence : Evidence.t)
    (dateStr : string) : RawContradiction.t :=
  RawContradiction.mk metadata_mismatch None
    (Some ("File created: "
           +:+ toLocaleDateString P (Evidence.createdAt evidence)))
    (Some ("Content mentions: "
           +:+ toLocaleDateString P (Date_parse P dateStr)))
    [Evidence.id evidence]
    (metadata_explanation P (Date_parse P dateStr)
                          (Evidence.createdAt evidence)).

(** A record is a [metadata_mismatch] record on the evidence with this
    id. *)
Definition cites_metadata (id : string) (c : Contradiction.t) : Prop :=
  Contradiction.type c = metadata_mismatch
  ∧ Contradiction.sources c = [id].

(** A date in the only form [dateRegex] matches: a month from 1 to 12 and
    a day from 1 to 31 on one or two digits, and a year on four digits,
    separated by slashes. *)
Definition slash_date (s : string) : Prop :=
  ∃ m d y : list ascii,
    list_ascii_of_string s = m ++ "/"%char :: d ++ "/"%char :: y
    ∧ (length m ≤ 2)%nat
    ∧ (∃ month, decimal_value m = Some month ∧ 1 ≤ month ≤ 12)
    ∧ (length d ≤ 2)%nat
    ∧ (∃ day, decimal_value d = Some day ∧ 1 ≤ day ≤ 31)
    ∧ length y = 4%nat
    ∧ Forall (fun c => is_digit c = true) y.

(** [dateStr] is a date in slash form written in [text] as a word of its
    own: no letter, digit or underscore stands right before it or right
    after it. *)
Definition written_slash_date (text dateStr : string) : Prop :=
  slash_date dateStr
  ∧ ∃ pre post : list ascii,
      list_ascii_of_string text = pre ++ list_ascii_of_string dateStr ++ post
      ∧ RegExp.word_at (rev pre) = false
      ∧ RegExp.word_at post = false.

(** The three fields a key is built from, the sources sorted. *)
Definition key_fields (c : RawContradiction.t)
    : ContradictionType * list string * string :=
  (RawContradiction.type c, Array_sort (RawContradiction.sources c),
   RawContradiction.explanation c).

Definition key_fields_of (c : Contradiction.t)
    : ContradictionType * list string * string :=
  (Contradiction.type c, Array_sort (Contradiction.sources c),
   Contradiction.explanation c).

(** A pattern that no empty text matches. *)
Definition never_empty (r : RegExp.t) : Prop :=
  ∀ b a, ¬ RegExp.matches r b [] a.

(** What the counting loop maintains, [seen] being the entries already
    counted. *)
Definition counted (counts : list (string * (RawContradiction.t * nat)))
    (seen : list (RawContradiction.t * string)) : Prop :=
  NoDup (map fst counts)
  ∧ (∀ k, k ∈ map fst counts ↔ k ∈ map snd seen)
  ∧ (∀ k c n, (k, (c, n)) ∈ counts →
              n = occurrences k seen ∧ (c, k) ∈ seen).

(** The scope under construction holds records of the map, one for each
    id. *)
Definition scope_ok (M : gmap string Evidence.t) (scope : list Evidence.t)
    : Prop :=
  NoDup (map Evidence.id scope)
  ∧ ∀ e, e ∈ scope → M !! Evidence.id e = Some e.

Definition drift_explanation (nameA nameB : string) : string :=
  "Two files with similar names ('" +:+ nameA +:+ "', '" +:+ nameB
  +:+ "') have different content hashes, indicating a possible version mismatch or alteration.".

(** [Number.MAX_SAFE_INTEGER] and [Number.isSafeInteger]: [lastChapterIndex]
    is a JavaScript number, and [lastChapterIndex + 1] is the integer sum
    as long as the counter is a safe integer. *)
Definition MAX_SAFE_INTEGER : Z := 2 ^ 53 - 1.

Definition Number_isSafeInteger (x : Z) : Prop :=
  - MAX_SAFE_INTEGER ≤ x ≤ MAX_SAFE_INTEGER.

(** Every evidence is stored under its own id, the key path of the
    store. *)
Definition evidence_keyed (db : DB) : Prop :=
  ∀ k e, EVIDENCE_STORE db !! k = Some e → Evidence.id e = k.

(** The byte that two hexadecimal digits at the head of a string denote. *)
Definition hex_digit_value (c : ascii) : N :=
  let n := N_of_ascii c in
  if (n <? 58)%N then (n - 48)%N else (n - 87)%N.

Definition hex_byte (s : string) : option byte :=
  match s with
  | String c1 (String c2 _) =>
    Byte.of_N (16 * hex_digit_value c1 + hex_digit_value c2)
  | _ => None
  end.

(** [name] is [base] followed by an extension: a dot and one or more
    characters, none of them a dot or a slash. *)
Definition has_extension (name base ext : string) : Prop :=
  name = base +:+ "." +:+ ext
  ∧ ext ≠ ""
  ∧ Forall (fun c => c ≠ "/"%char ∧ c ≠ "."%char) (list_ascii_of_string ext).

(** The record [drift_rule] pushes for a pair. *)
Definition drift_record (evA evB : Evidence.t) : RawContradiction.t :=
  RawContradiction.mk cross_doc_drift None
    (Some ("Evidence named " +:+ dquote +:+ Evidence.name evA +:+ dquote))
    (Some ("Evidence named " +:+ dquote +:+ Evidence.name evB +:+ dquote))
    [Evidence.id evA; Evidence.id evB]
    (drift_explanation (Evidence.name evA) (Evidence.name evB)).

(** The tiers of the records of a result that cite a pair. *)
Definition pair_tiers (idA idB : string) (result : list Contradiction.t)
    : list Verification :=
  map Contradiction.verification (drift_records_for idA idB result).

(** A reference as [omissionRegex] finds them in a text: one of the five
    words in any case, white space, then the token, one to ten letters,
    digits or hyphens. *)
Definition omission_reference (text token : string) : Prop :=
  ∃ pre kw sp post,
    list_ascii_of_string text
    = pre ++ kw ++ sp ++ list_ascii_of_string token ++ post
    ∧ toLowerCase (string_of_list_ascii kw)
      ∈ ["see"; "ref"; "reference"; "attachment"; "exhibit"]
    ∧ sp ≠ []
    ∧ Forall (fun c => is_space c = true) sp
    ∧ (1 ≤ String.length token ≤ 10)%nat
    ∧ Forall (fun c => is_upper c || is_lower c || is_digit c
                       || Ascii.eqb c "-" = true)
             (list_ascii_of_string token).

(** Settles the tests [k =? k'] of a goal from the equalities at hand. *)
Ltac key_tests :=
  repeat match goal with
         | |- context [String.eqb ?a ?b] =>
           first [ rewrite (proj2 (String.eqb_eq a b)) by congruence
                 | rewrite (proj2 (String.eqb_neq a b)) by congruence ]
         end.

(* ================================================================= *)
(** ** Sample inputs *)
(* ================================================================= *)

Definition demo_partial (title : string) (refs : list EvidenceRef)
    : PartialReport.t :=
  PartialReport.mk title Global "UTC" refs [] [] [] None None None.

Definition demo_calls : list SaveCall :=
  [ mkCall io_ok "r-0001" 1000 (demo_partial "first" []);
    mkCall io_ok "r-0002" 2000 (demo_partial "second" []);
    mkCall io_ok "r-0003" 3000 (demo_partial "third" []) ].

Definition demo_file (name : string) : File :=
  mkFile name "application/pdf" [].

Definition demo_evidence (id name sha : string) (created : Z)
    (text : option string) : Evidence.t :=
  Evidence.mk id name 0%nat "application/pdf" (demo_file name) sha
              (Some created) Global "UTC" ∅ text.

Definition db_one_evidence : DB :=
  (saveEvidence true "ev-0001" 1000 "aaaa" (demo_file "statement.pdf")
                Global "UTC" empty_db).1.

Definition bytes_abc : list byte := [x61; x62; x63].

Definition demo_report (id : string) (chapter : Z) (refs : list EvidenceRef)
    : Report.t :=
  Report.mk id ("Analysis " +:+ id) chapter (Some 0) (Some 0) Global "UTC"
            refs [] [] [] None None None.

(** 2026-01-01T00:00:00Z *)
Definition t_2026 : Z := 1767225600000.

Definition ev_statement : Evidence.t :=
  demo_evidence "ev-A" "statement.pdf" "aaaa" t_2026 None.

Definition ev_statement_v2 : Evidence.t :=
  demo_evidence "ev-B" "statement_v2.pdf" "bbbb" t_2026 None.

Definition ev_statement_copy : Evidence.t :=
  demo_evidence "ev-B" "statement_v2.pdf" "aaaa" t_2026 None.

Definition report_A : Report.t := demo_report "r-A" 1 [mkRef "ev-A" "aaaa"].
Definition report_B : Report.t := demo_report "r-B" 2 [mkRef "ev-B" "bbbb"].

(** Three passes in which [shuffle] leaves both two-element lists as they
    are, and three passes the first of which swaps the reports. *)
Definition tape_steady : Tape := [1; 1; 1; 1; 1; 1]%nat.
Definition tape_swap_first : Tape := [0; 1; 1; 1; 1; 1]%nat.

Definition ev_exhibit : Evidence.t :=
  demo_evidence "ev-A" "statement.pdf" "aaaa" t_2026
                (Some "As agreed, see A-7 for the schedule.").

Definition ev_iso_date : Evidence.t :=
  demo_evidence "ev-A" "contract.pdf" "aaaa" t_2026
                (Some "Signed in Paris on 2027-03-14 (14 March 2027).").

Definition ev_two_dates : Evidence.t :=
  demo_evidence "ev-A" "contract.pdf" "aaaa" t_2026
                (Some "Signed on 3/14/2027, to be renewed on 3/14/2028.").

Definition demo_mismatch_record : Contradiction.t :=
  Contradiction.mk metadata_mismatch None
    (Some "File created: 1/1/2026") (Some "Content mentions: 3/14/2027")
    ["ev-A"]
    "The document content mentions a future date (3/14/2027) relative to its creation date (1/1/2026)."
    Verified_3_3.

(** Three calls of [saveReport], the second of which fails on the reports
    store. *)
Definition demo_calls_failing : list SaveCall :=
  [ mkCall io_ok "r-0001" 1000 (demo_partial "first" []);
    mkCall io_reportTransaction_error "r-0002" 2000 (demo_partial "second" []);
    mkCall io_ok "r-0003" 3000 (demo_partial "third" []) ].

(** A case with one evidence and one report on it. *)
Definition db_case : DB :=
  mkDB (<["ev-A" := ev_statement]> ∅) (<["r-A" := report_A]> ∅)
       (<["reports_index" := ReportsIndexMeta.mk "reports_index" ["r-A"] 1]> ∅).

Definition demo_drift_record : Contradiction.t :=
  Contradiction.mk cross_doc_drift None
    (Some ("Evidence named " +:+ dquote +:+ "statement.pdf" +:+ dquote))
    (Some ("Evidence named " +:+ dquote +:+ "statement_v2.pdf" +:+ dquote))
    ["ev-A"; "ev-B"]
    (drift_explanation "statement.pdf" "statement_v2.pdf")
    Verified_3_3.

Definition demo_omission_record : Contradiction.t :=
  Contradiction.mk omission None
    (Some ("Reference to " +:+ dquote +:+ "A-7" +:+ dquote))
    (Some "Evidence not provided")
    ["ev-A"]
    ("Document " +:+ dquote +:+ "statement.pdf" +:+ dquote
     +:+ " references an exhibit or attachment " +:+ dquote +:+ "A-7"
     +:+ dquote +:+ " which was not found in the provided evidence set.")
    Verified_3_3.

Definition ev_statement_docx : Evidence.t :=
  demo_evidence "ev-B" "Statement.DOCX" "bbbb" t_2026 None.

(** An evidence whose OCR text is white space only. *)
Definition ev_blank : Evidence.t :=
  demo_evidence "ev-B" "notes.pdf" "bbbb" t_2026
                (Some (String (ascii_of_nat 32)
                         (String (ascii_of_nat 10)
                            (String (ascii_of_nat 9) "")))).

(** A case with two evidence items and a report on each. *)
Definition db_two_reports : DB :=
  mkDB (<["ev-A" := ev_statement]> (<["ev-B" := ev_statement_v2]> ∅))
       (<["r-A" := report_A]> (<["r-B" := report_B]> ∅))
       (<["reports_index" :=
            ReportsIndexMeta.mk "reports_index" ["r-A"; "r-B"] 2]> ∅).

Definition demo_session : SessionContext := mkSession Global "UTC" (0, 0)%Q.

(** A PDF with machine-readable text, and an analysis that returned data
    three times. *)
Definition demo_pdf_text : string :=
  "This agreement is made on 3/14/2027 between the parties named below, who agree to the terms set out in the schedule attached to it.".

Definition demo_sealed : SealedReport :=
  mkSealedReport "Analysis complete."
    (Some (mkReportData "<h1>Report</h1>"
             [mkFinding "Date" "3/14/2027" "page 1" "future date" None] [])).

Definition demo_pdf : File := mkFile "contract.pdf" "application/pdf" bytes_abc.

(* ================================================================= *)
(** * Properties *)
(* ================================================================= *)

(* ----------------------------------------------------------------- *)
(** *** The report ledger: [saveReport] *)

Lemma meta_keyed_empty : meta_keyed empty_db.
Proof.
  intros m Hm.
  change (META_STORE empty_db) with (∅ : gmap string ReportsIndexMeta.t) in Hm.
  rewrite lookup_empty in Hm. discriminate.
Qed.

Lemma saveReport_resolved io uuid now report db db' r :
  meta_keyed db →
  saveReport io uuid now report db = (db', Resolved r) →
  meta_keyed db'
  ∧ Report.id r = uuid
  ∧ Report.chapterIndex r = index_lastChapterIndex db + 1
  ∧ index_order db' = index_order db ++ [uuid]
  ∧ index_lastChapterIndex db' = index_lastChapterIndex db + 1
  ∧ REPORTS_STORE db' !! uuid = Some r.
Proof.
  intros Hk Hs.
  assert (Hkey : ReportsIndexMeta.key
                   (default default_meta (META_STORE db !! "reports_index"))
                 = "reports_index").
  { destruct (META_STORE db !! "reports_index") as [m|] eqn:E; simpl; auto. }
  unfold index_order, index_lastChapterIndex, meta_keyed.
  destruct io; simpl in Hs; try discriminate.
  injection Hs as <- <-. simpl.
  rewrite Hkey, !lookup_insert_eq. simpl.
  repeat split; auto.
  - intros m [= <-]. reflexivity.
  - destruct (META_STORE db !! "reports_index"); reflexivity.
Qed.

Lemma run_saveReports_spec calls : ∀ db db' outs,
  meta_keyed db →
  run_saveReports calls db = (db', outs) →
  Forall (fun p => is_resolved p = true) outs →
  meta_keyed db'
  ∧ index_order db' = index_order db ++ map call_uuid calls
  ∧ map Report.id (resolved_values outs) = map call_uuid calls
  ∧ map Report.chapterIndex (resolved_values outs)
    = map (fun k => index_lastChapterIndex db + Z.of_nat k)
          (seq 1 (length calls))
  ∧ index_lastChapterIndex db'
    = index_lastChapterIndex db + Z.of_nat (length calls).
Proof.
  induction calls as [|c rest IH]; intros db db' outs Hk Hrun Hall.
  - simpl in Hrun. injection Hrun as <- <-. simpl.
    rewrite app_nil_r, Z.add_0_r. auto.
  - simpl in Hrun.
    destruct (saveReport (call_io c) (call_uuid c) (call_now c)
                         (call_report c) db) as [db1 p] eqn:Es.
    destruct (run_saveReports rest db1) as [db2 ps] eqn:Er.
    injection Hrun as <- <-.
    apply Forall_cons in Hall as [Hp Hps].
    destruct p as [r|]; [|discriminate].
    destruct (saveReport_resolved _ _ _ _ _ _ _ Hk Es)
      as (Hk1 & Hid & Hch & Hord & Hlast & _).
    destruct (IH db1 db2 ps Hk1 Er Hps) as (Hk2 & Ho2 & Hi2 & Hc2 & Hl2).
    split; [exact Hk2|].
    split; [rewrite Ho2, Hord, <- app_assoc; reflexivity|].
    split; [simpl; rewrite Hid; f_equal; exact Hi2|].
    split.
    + change (resolved_values (Resolved r :: ps)) with (r :: resolved_values ps).
      cbn [map length seq]. rewrite Hch, Hc2.
      rewrite <- (seq_shift (length rest) 1), map_map.
      apply (f_equal2 cons); [lia|].
      apply map_ext. intros k. rewrite Hlast. lia.
    + rewrite Hl2, Hlast. cbn [length]. lia.
Qed.

(** C1. After [N] successful [saveReport] calls on an empty database the
    index order is the list of the [N] assigned report ids in call order
    (so of length [N], and without repetition when the UUIDs drawn are
    distinct), the reports received the chapter indices [1..N] in that
    order, and [lastChapterIndex] is [N]. *)
Theorem saveReport_sequence_index (calls : list SaveCall) db' outs :
  run_saveReports calls empty_db = (db', outs) →
  Forall (fun p => is_resolved p = true) outs →
  let N := length calls in
  let reports := resolved_values outs in
  length reports = N
  ∧ length (index_order db') = N
  ∧ index_order db' = map Report.id reports
  ∧ map Report.id reports = map call_uuid calls
  ∧ (NoDup (map call_uuid calls) → NoDup (index_order db'))
  ∧ map Report.chapterIndex reports = map Z.of_nat (seq 1 N)
  ∧ index_lastChapterIndex db' = Z.of_nat N.
Proof.
  intros Hrun Hall N reports.
  destruct (run_saveReports_spec calls empty_db db' outs
              meta_keyed_empty Hrun Hall) as (_ & Ho & Hi & Hc & Hl).
  change (index_order empty_db) with (@nil string) in Ho.
  change (index_lastChapterIndex empty_db) with 0 in Hc, Hl.
  simpl in Ho.
  assert (Hlen : length reports = N).
  { unfold reports, N.
    rewrite <- (length_map Report.id), Hi, length_map. reflexivity. }
  split; [exact Hlen|].
  split; [rewrite Ho, length_map; reflexivity|].
  split; [rewrite Ho; symmetry; exact Hi|].
  split; [exact Hi|].
  split; [intros Hnd; rewrite Ho; exact Hnd|].
  split; [exact Hc|]. exact Hl.
Qed.

Lemma saveReport_sequence_index_witness :
  let '(db', outs) := run_saveReports demo_calls empty_db in
  index_order db' = ["r-0001"; "r-0002"; "r-0003"]
  ∧ map Report.chapterIndex (resolved_values outs) = [1; 2; 3]
  ∧ index_lastChapterIndex db' = 3.
Proof.
  destruct (run_saveReports demo_calls empty_db) as [db' outs] eqn:E.
  assert (Hall : Forall (fun p => is_resolved p = true) outs).
  { vm_compute in E. injection E as <- <-. repeat constructor. }
  destruct (saveReport_sequence_index demo_calls db' outs E Hall)
    as (_ & _ & Ho & Hi & _ & Hc & Hl).
  split; [rewrite Ho, Hi; reflexivity|].
  split; [exact Hc|exact Hl].
Defined.

(* ----------------------------------------------------------------- *)
(** *** The read path: [getAllReportsIndexed] *)

Lemma Map_new_lookup_acc {A} (f : A → string) (l : list A) :
  ∀ (m : gmap string A) k x,
    (∀ k' y, m !! k' = Some y → f y = k') →
    foldl (fun m kv => <[kv.1 := kv.2]> m) m (map (fun r => (f r, r)) l) !! k
      = Some x →
    f x = k ∧ (x ∈ l ∨ m !! k = Some x).
Proof.
  induction l as [|a l IH]; intros m k x Hm Hl; simpl in Hl.
  - split; [eauto | right; exact Hl].
  - apply IH in Hl.
    + destruct Hl as [Hf [Hin | Hm']]; split; auto.
      * left. right. exact Hin.
      * simpl in Hm'. destruct (decide (f a = k)) as [Heq|Hne].
        -- rewrite Heq, lookup_insert_eq in Hm'.
           injection Hm' as Hax. subst x. left. left.
        -- rewrite lookup_insert_ne in Hm' by exact Hne. right. exact Hm'.
    + intros k' y Hy. simpl in Hy. destruct (decide (f a = k')) as [Heq|Hne].
      * rewrite Heq, lookup_insert_eq in Hy.
        injection Hy as Hay. subst y. exact Heq.
      * rewrite lookup_insert_ne in Hy by exact Hne. eauto.
Qed.

Lemma Map_new_lookup {A} (f : A → string) (l : list A) k x :
  Map_new (map (fun r => (f r, r)) l) !! k = Some x → f x = k ∧ x ∈ l.
Proof.
  intros H. apply Map_new_lookup_acc in H.
  - destruct H as [Hf [Hin | He]]; [auto|].
    rewrite lookup_empty in He. discriminate.
  - intros k' y Hy. rewrite lookup_empty in Hy. discriminate.
Qed.

Lemma omap_sublist_keys {A} (f : A → string) (m : gmap string A)
    (order : list string) :
  (∀ k x, m !! k = Some x → f x = k) →
  map f (omap (fun id => m !! id) order) `sublist_of` order.
Proof.
  intros Hm. induction order as [|k order IH]; simpl.
  - constructor.
  - destruct (m !! k) as [x|] eqn:E; simpl.
    + rewrite (Hm _ _ E). constructor. exact IH.
    + constructor. exact IH.
Qed.

Lemma ordered_reports_spec db r :
  r ∈ ordered_reports db →
  Report.id r ∈ index_order db ∧ r ∈ getAll (REPORTS_STORE db).
Proof.
  unfold ordered_reports. intros H.
  apply list_elem_of_omap in H as (k & Hk & Hl).
  apply Map_new_lookup in Hl as [<- Hin]. auto.
Qed.

Lemma ordered_reports_sublist db :
  map Report.id (ordered_reports db) `sublist_of` index_order db.
Proof.
  unfold ordered_reports. apply omap_sublist_keys.
  intros k x H. apply Map_new_lookup in H as [H _]. exact H.
Qed.

Lemma evidence_ids_foldl (reports : list Report.t) : ∀ (s : gset string) k,
  k ∈ foldl (fun s r =>
               foldl (fun s ref => s ∪ {[ref_id ref]}) s (Report.evidenceRefs r))
            s reports →
  k ∈ s ∨ ∃ r ref, r ∈ reports ∧ ref ∈ Report.evidenceRefs r ∧ ref_id ref = k.
Proof.
  assert (Hin : ∀ (refs : list EvidenceRef) (s : gset string) k,
            k ∈ foldl (fun s ref => s ∪ {[ref_id ref]}) s refs →
            k ∈ s ∨ ∃ ref, ref ∈ refs ∧ ref_id ref = k).
  { induction refs as [|a refs IH]; intros s k H; simpl in H; [auto|].
    apply IH in H as [H | (ref & Href & Hk)].
    - apply elem_of_union in H as [H|H]; [auto|].
      apply elem_of_singleton in H. right. exists a. split; [left|auto].
    - right. exists ref. split; [right; exact Href|exact Hk]. }
  induction reports as [|r reports IH]; intros s k H; simpl in H; [auto|].
  apply IH in H as [H | (r' & ref & Hr & Href & Hk)].
  - apply Hin in H as [H | (ref & Href & Hk)]; [auto|].
    right. exists r, ref. split; [left|auto].
  - right. exists r', ref. split; [right; exact Hr|auto].
Qed.

Lemma evidence_ids_flatMap (reports : list Report.t) :
  foldl (fun s r =>
           foldl (fun s ref => s ∪ {[ref_id ref]}) s (Report.evidenceRefs r))
        (∅ : gset string) reports
  = list_to_set (flat_map (fun r => map ref_id (Report.evidenceRefs r)) reports).
Proof.
  assert (Hin : ∀ (refs : list EvidenceRef) (s : gset string),
            foldl (fun s ref => s ∪ {[ref_id ref]}) s refs
            = s ∪ list_to_set (map ref_id refs)).
  { induction refs as [|a refs IH]; intros s; simpl.
    - rewrite union_empty_r_L. reflexivity.
    - rewrite IH. rewrite <- (assoc_L (∪)). reflexivity. }
  assert (Hout : ∀ (rs : list Report.t) (s : gset string),
            foldl (fun s r =>
                     foldl (fun s ref => s ∪ {[ref_id ref]}) s
                           (Report.evidenceRefs r)) s rs
            = s ∪ list_to_set
                    (flat_map (fun r => map ref_id (Report.evidenceRefs r)) rs)).
  { induction rs as [|r rs IH]; intros s; simpl.
    - rewrite union_empty_r_L. reflexivity.
    - rewrite IH, Hin, list_to_set_app_L, <- (assoc_L (∪)). reflexivity. }
  rewrite Hout, union_empty_l_L. reflexivity.
Qed.

Lemma Original_getAllReportsIndexed_eq io_ok db :
  Original.getAllReportsIndexed io_ok db = getAllReportsIndexed io_ok db.
Proof.
  unfold Original.getAllReportsIndexed, getAllReportsIndexed.
  destruct io_ok; [|reflexivity].
  rewrite evidence_ids_flatMap. reflexivity.
Qed.

(** C4. Whatever the database holds, [getAllReportsIndexed] (in both files)
    returns only stored reports whose id is in the index order, in index
    order, so a stored report missing from the index is left out, and only
    stored evidence whose id is referenced by one of the returned
    reports. *)
Theorem getAllReportsIndexed_only_indexed (db : DB) :
  ∃ reports evidence,
    getAllReportsIndexed true db = Resolved (reports, evidence)
    ∧ Original.getAllReportsIndexed true db = Resolved (reports, evidence)
    ∧ map Report.id reports `sublist_of` index_order db
    ∧ (∀ r, r ∈ reports →
            Report.id r ∈ index_order db ∧ r ∈ getAll (REPORTS_STORE db))
    ∧ (∀ r, r ∈ getAll (REPORTS_STORE db) →
            Report.id r ∉ index_order db → r ∉ reports)
    ∧ (∀ e, e ∈ evidence →
            e ∈ getAll (EVIDENCE_STORE db)
            ∧ ∃ r ref, r ∈ reports ∧ ref ∈ Report.evidenceRefs r
                       ∧ ref_id ref = Evidence.id e).
Proof.
  eexists _, _. split; [reflexivity|].
  split; [rewrite Original_getAllReportsIndexed_eq; reflexivity|].
  split; [apply ordered_reports_sublist|].
  split; [intros r; apply ordered_reports_spec|].
  split.
  - intros r _ Hno Hr. apply ordered_reports_spec in Hr as [Hr _]. auto.
  - intros e He. apply list_elem_of_filter in He as [Hid Hall].
    split; [exact Hall|].
    apply evidence_ids_foldl in Hid as [Hid|Hid]; [set_solver|exact Hid].
Qed.

(* ----------------------------------------------------------------- *)
(** *** [updateEvidence] *)

(** An update of the stored record with another digest replaces the digest
    in the store. *)
Lemma updateEvidence_digest_counterexample :
  stored_digest db_one_evidence "ev-0001" = Some "aaaa"
  ∧ stored_digest
      (updateEvidence true
         (demo_evidence "ev-0001" "statement.pdf" "bbbb" 1000 (Some "text"))
         db_one_evidence).1 "ev-0001" = Some "bbbb".
Proof. split; vm_compute; reflexivity. Qed.

(** C9, amended. [updateEvidence] overwrites the whole record stored under
    the id of the record it is given and touches nothing else (and
    nothing at all when the transaction fails); the stored digest
    afterwards is the one carried by the record passed in. It is therefore
    the digest from before exactly when the caller passes it unchanged, as
    [{ ...evidence, ocrText }] does. *)
Theorem updateEvidence_overwrites (tx_ok : bool) (db : DB)
    (evidence old : Evidence.t) :
  EVIDENCE_STORE db !! Evidence.id evidence = Some old →
  let db' := (updateEvidence tx_ok evidence db).1 in
  (tx_ok = false → db' = db)
  ∧ (tx_ok = true →
       EVIDENCE_STORE db' !! Evidence.id evidence = Some evidence
       ∧ stored_digest db' (Evidence.id evidence) = Some (Evidence.sha512 evidence)
       ∧ (∀ k, k ≠ Evidence.id evidence →
               EVIDENCE_STORE db' !! k = EVIDENCE_STORE db !! k)
       ∧ REPORTS_STORE db' = REPORTS_STORE db
       ∧ META_STORE db' = META_STORE db)
  ∧ (Evidence.sha512 evidence = Evidence.sha512 old →
       stored_digest db' (Evidence.id evidence) = Some (Evidence.sha512 old))
  ∧ (∀ text, evidence = Evidence.with_ocrText old text →
       stored_digest db' (Evidence.id old) = Some (Evidence.sha512 old)).
Proof.
  intros Hold db'. subst db'. unfold stored_digest.
  assert (Hsame : Evidence.sha512 evidence = Evidence.sha512 old →
            Evidence.sha512 <$>
              EVIDENCE_STORE (updateEvidence tx_ok evidence db).1
                !! Evidence.id evidence
            = Some (Evidence.sha512 old)).
  { intros Hs. destruct tx_ok; simpl.
    - rewrite lookup_insert_eq. simpl. rewrite Hs. reflexivity.
    - rewrite Hold. reflexivity. }
  split; [intros ->; reflexivity|].
  split.
  - intros ->. simpl. rewrite lookup_insert_eq.
    repeat split; auto.
    intros k Hk. apply lookup_insert_ne. auto.
  - split; [exact Hsame|].
    intros text Hev.
    replace (Evidence.id old) with (Evidence.id evidence)
      by (rewrite Hev; reflexivity).
    apply Hsame. rewrite Hev. reflexivity.
Qed.

Lemma updateEvidence_overwrites_witness :
  stored_digest
    (updateEvidence true
       (Evidence.with_ocrText
          (demo_evidence "ev-0001" "statement.pdf" "aaaa" 1000 None) "text")
       db_one_evidence).1 "ev-0001" = Some "aaaa".
Proof.
  refine (proj2 (proj2 (proj2
    (updateEvidence_overwrites true db_one_evidence
       (Evidence.with_ocrText
          (demo_evidence "ev-0001" "statement.pdf" "aaaa" 1000 None) "text")
       (demo_evidence "ev-0001" "statement.pdf" "aaaa" 1000 None) _))) "text" _).
  - vm_compute. reflexivity.
  - reflexivity.
Defined.

(* ----------------------------------------------------------------- *)
(** *** [calculateSHA512] *)

Example sha512_abc :
  Original.calculateSHA512 (mkFile "abc.txt" "text/plain" bytes_abc)
  = "ddaf35a193617abacc417349ae20413112e6fa4e89a97ea20a9eeee64b55d39a2192992a274fc1a836ba3c23a3feebbd454d4423643ce80e2a9ac94fa54ca49f".
Proof. vm_compute. reflexivity. Qed.

Example sha512_empty_string :
  calculateSHA512 (of_string "")
  = "cf83e1357eefb8bdf1542850d66d8007d620e4050b5715dc83f4a921d36ce9ce47d0d13c5d85f2b0ff8318d2877eec2f63b931bd47417a81a538327af927da3e".
Proof. vm_compute. reflexivity. Qed.

Lemma append_empty_r (s : string) : s +:+ "" = s.
Proof.
  induction s as [|c s IH]; [reflexivity|].
  change (String c s +:+ "") with (String c (s +:+ "")).
  rewrite IH. reflexivity.
Qed.

Lemma length_append (s t : string) :
  String.length (s +:+ t) = (String.length s + String.length t)%nat.
Proof.
  induction s as [|c s IH]; [reflexivity|].
  change (String c s +:+ t) with (String c (s +:+ t)).
  cbn [String.length]. rewrite IH. reflexivity.
Qed.

Lemma list_ascii_of_append (s t : string) :
  list_ascii_of_string (s +:+ t)
  = list_ascii_of_string s ++ list_ascii_of_string t.
Proof.
  induction s as [|c s IH]; [reflexivity|].
  change (String c s +:+ t) with (String c (s +:+ t)).
  cbn [list_ascii_of_string]. rewrite IH. reflexivity.
Qed.

Lemma concat_empty_cons (x : string) (xs : list string) :
  String.concat "" (x :: xs) = x +:+ String.concat "" xs.
Proof.
  destruct xs as [|y ys]; cbn [String.concat].
  - symmetry. apply append_empty_r.
  - reflexivity.
Qed.

Lemma byte_two_hex_digits (b : byte) :
  ∃ c1 c2, padStart 2 "0" (Number_toString 16 (Byte.to_N b)) = String c1 (String c2 "")
           ∧ is_lower_hex c1 = true ∧ is_lower_hex c2 = true.
Proof.
  destruct b;
    (eexists _, _; split; [vm_compute; reflexivity | split; reflexivity]).
Qed.

Lemma hashHex_cons b l :
  hashHex (b :: l) = padStart 2 "0" (Number_toString 16 (Byte.to_N b)) +:+ hashHex l.
Proof. unfold hashHex. cbn [map]. apply concat_empty_cons. Qed.

Lemma hashHex_length (l : list byte) :
  String.length (hashHex l) = (2 * length l)%nat.
Proof.
  induction l as [|b l IH]; [reflexivity|].
  rewrite hashHex_cons, length_append, IH.
  destruct (byte_two_hex_digits b) as (c1 & c2 & -> & _). cbn [String.length length].
  lia.
Qed.

Lemma hashHex_lower_hex (l : list byte) :
  Forall (fun c => is_lower_hex c = true) (list_ascii_of_string (hashHex l)).
Proof.
  induction l as [|b l IH]; [constructor|].
  rewrite hashHex_cons, list_ascii_of_append.
  destruct (byte_two_hex_digits b) as (c1 & c2 & -> & H1 & H2).
  cbn [list_ascii_of_string app]. repeat constructor; assumption.
Qed.

Lemma be_bytes_length n v : length (SHA512.be_bytes n v) = n.
Proof.
  unfold SHA512.be_bytes.
  rewrite length_map, length_rev, length_seq. reflexivity.
Qed.

Lemma digest_length (msg : list byte) : length (SHA512.digest msg) = 64%nat.
Proof.
  unfold SHA512.digest.
  destruct (fold_left SHA512.compress (SHA512.blocks (SHA512.pad msg)) SHA512.H0)
    as [[[[[[[h0 h1] h2] h3] h4] h5] h6] h7].
  cbn [SHA512.words flat_map].
  rewrite !length_app, !be_bytes_length. reflexivity.
Qed.

(** C8. [calculateSHA512] depends on nothing but the bytes it is given:
    files with the same bytes have the same digest whatever their names
    and types, and the result is always 128 characters long, each one of
    [0-9a-f]. The variant of [www_backup_20251115] agrees on files and
    gives a result of the same form for strings. *)
Theorem calculateSHA512_fixed_length_hex (file : File) :
  String.length (Original.calculateSHA512 file) = 128%nat
  ∧ Forall (fun c => is_lower_hex c = true)
           (list_ascii_of_string (Original.calculateSHA512 file))
  ∧ (∀ file', file_bytes file' = file_bytes file →
              Original.calculateSHA512 file' = Original.calculateSHA512 file)
  ∧ calculateSHA512 (of_File file) = Original.calculateSHA512 file
  ∧ (∀ s, String.length (calculateSHA512 (of_string s)) = 128%nat
          ∧ Forall (fun c => is_lower_hex c = true)
                   (list_ascii_of_string (calculateSHA512 (of_string s)))).
Proof.
  unfold Original.calculateSHA512, calculateSHA512.
  split; [rewrite hashHex_length, digest_length; reflexivity|].
  split; [apply hashHex_lower_hex|].
  split; [intros file' ->; reflexivity|].
  split; [reflexivity|].
  intros s.
  split; [rewrite hashHex_length, digest_length; reflexivity|].
  apply hashHex_lower_hex.
Qed.

Lemma calculateSHA512_fixed_length_hex_witness :
  Original.calculateSHA512 (mkFile "copy.bin" "application/octet-stream" bytes_abc)
  = Original.calculateSHA512 (mkFile "abc.txt" "text/plain" bytes_abc).
Proof.
  refine (proj1 (proj2 (proj2 (calculateSHA512_fixed_length_hex
            (mkFile "abc.txt" "text/plain" bytes_abc)))) _ _).
  reflexivity.
Defined.

(* ----------------------------------------------------------------- *)
(** *** The contradiction engine on concrete inputs *)

(** C2 at a failing input. Two reports, one on [statement.pdf] and one on
    [statement_v2.pdf]: when no pass reorders the reports the engine
    returns one key, verified 3/3; when the first pass swaps them it
    returns two keys for the same pair of files, one 2/3 and one at most
    1/3. The explanation text names the two files in the order of the
    pass, and the key contains the explanation. *)
Theorem runContradictionAnalysis_depends_on_shuffle :
  let run := runContradictionAnalysis ReferencePlatform.platform
               [report_A; report_B] [ev_statement; ev_statement_v2] in
  let key_AB := "cross_doc_drift-ev-A-ev-B-"
                +:+ drift_explanation "statement.pdf" "statement_v2.pdf" in
  let key_BA := "cross_doc_drift-ev-A-ev-B-"
                +:+ drift_explanation "statement_v2.pdf" "statement.pdf" in
  keys_and_tiers (run tape_steady) = [(key_AB, Verified_3_3)]
  ∧ keys_and_tiers (run tape_swap_first)
    = [(key_BA, Inconclusive_1_3); (key_AB, Consensus_2_3)]
  ∧ ¬ (∀ kt, kt ∈ keys_and_tiers (run tape_steady)
             ↔ kt ∈ keys_and_tiers (run tape_swap_first)).
Proof.
  intros run key_AB key_BA.
  assert (H1 : keys_and_tiers (run tape_steady) = [(key_AB, Verified_3_3)])
    by (vm_compute; reflexivity).
  assert (H2 : keys_and_tiers (run tape_swap_first)
               = [(key_BA, Inconclusive_1_3); (key_AB, Consensus_2_3)])
    by (vm_compute; reflexivity).
  split; [exact H1|]. split; [exact H2|].
  intros Hsame. rewrite H1, H2 in Hsame.
  destruct (Hsame (key_BA, Inconclusive_1_3)) as [_ Hback].
  specialize (Hback ltac:(left)).
  apply list_elem_of_singleton in Hback.
  vm_compute in Hback. discriminate Hback.
Qed.

(** C5 at a failing input. [statement.pdf] and [statement_v2.pdf] with
    different digests, referenced by two reports: a single pass finds one
    contradiction for the pair, and so does the engine when its passes see
    the reports in one order, but the engine returns two records for the
    pair when the first pass sees them swapped. With equal digests there
    is none. *)
Theorem cross_doc_drift_two_records_for_one_pair :
  let P := ReferencePlatform.platform in
  length (pass_drift_records_for "ev-A" "ev-B"
            (analyzeContradictionsOnce P [report_A; report_B]
                                       [ev_statement; ev_statement_v2]))
  = 1%nat
  ∧ length (drift_records_for "ev-A" "ev-B"
              (runContradictionAnalysis P [report_A; report_B]
                 [ev_statement; ev_statement_v2] tape_steady)) = 1%nat
  ∧ map Contradiction.sources
        (drift_records_for "ev-A" "ev-B"
           (runContradictionAnalysis P [report_A; report_B]
              [ev_statement; ev_statement_v2] tape_swap_first))
    = [["ev-B"; "ev-A"]; ["ev-A"; "ev-B"]]
  ∧ runContradictionAnalysis P [report_A; report_B]
      [ev_statement; ev_statement_copy] tape_swap_first = [].
Proof. repeat split; vm_compute; reflexivity. Qed.

(** A scope of one evidence item whose text refers to an exhibit that is
    not there: the engine returns an [omission] record. *)
Lemma single_evidence_scope_counterexample :
  let P := ReferencePlatform.platform in
  length (allEvidenceInScope [report_A] [ev_exhibit]) = 1%nat
  ∧ map (fun c => (Contradiction.type c, Contradiction.sources c,
                   Contradiction.verification c))
        (runContradictionAnalysis P [report_A] [ev_exhibit] [])
    = [(omission, ["ev-A"], Verified_3_3)].
Proof. split; vm_compute; reflexivity. Qed.

(** Created on 2026-01-01: a text that gives a later date in ISO form and
    in words yields no record, and a text with two later dates in slash
    form yields two records for the one evidence item. *)
Lemma metadata_mismatch_counterexample :
  let P := ReferencePlatform.platform in
  runContradictionAnalysis P [report_A] [ev_iso_date] [] = []
  ∧ map (fun c => (Contradiction.type c, Contradiction.sources c,
                   Contradiction.claimB c))
        (runContradictionAnalysis P [report_A] [ev_two_dates] [])
    = [ (metadata_mismatch, ["ev-A"], Some "Content mentions: 3/14/2027");
        (metadata_mismatch, ["ev-A"], Some "Content mentions: 3/14/2028") ].
Proof. split; vm_compute; reflexivity. Qed.

(* ----------------------------------------------------------------- *)
(** *** The reduction of [runContradictionAnalysis] *)

Lemma count_found_keys counts c k k' :
  k' ∈ map fst (count_found counts c k) ↔ k' = k ∨ k' ∈ map fst counts.
Proof.
  induction counts as [|[k0 [c0 n0]] counts IH]; simpl.
  - rewrite list_elem_of_singleton.
    split; [auto | intros [Hk|Hk]; [exact Hk | inversion Hk]].
  - destruct (String.eqb_spec k0 k) as [->|Hne]; simpl.
    + rewrite !elem_of_cons. tauto.
    + rewrite !elem_of_cons, IH. tauto.
Qed.

Lemma count_found_NoDup counts c k :
  NoDup (map fst counts) → NoDup (map fst (count_found counts c k)).
Proof.
  induction counts as [|[k0 [c0 n0]] counts IH]; simpl; intros Hnd.
  - repeat constructor. intros Hk. inversion Hk.
  - apply NoDup_cons in Hnd as [Hnot Hnd].
    destruct (String.eqb_spec k0 k) as [->|Hne]; simpl.
    + apply NoDup_cons. auto.
    + apply NoDup_cons. split; [|auto].
      rewrite count_found_keys. intros [->|Hin]; [congruence|auto].
Qed.

Lemma count_found_entry counts c k k' c' n' :
  NoDup (map fst counts) →
  (k', (c', n')) ∈ count_found counts c k →
  (k' ≠ k ∧ (k', (c', n')) ∈ counts)
  ∨ (k' = k ∧ ∃ n0, (k, (c', n0)) ∈ counts ∧ n' = S n0)
  ∨ (k' = k ∧ (k ∉ map fst counts) ∧ c' = c ∧ n' = 1%nat).
Proof.
  induction counts as [|[k0 [c0 n0]] counts IH]; simpl; intros Hnd Hin.
  - apply list_elem_of_singleton in Hin. injection Hin as -> -> ->.
    right. right. repeat split. intros Hk. inversion Hk.
  - apply NoDup_cons in Hnd as [Hnot Hnd].
    destruct (String.eqb_spec k0 k) as [->|Hne].
    + apply elem_of_cons in Hin as [Hin|Hin].
      * injection Hin as -> -> ->. right. left. split; [reflexivity|].
        exists n0. split; [left|reflexivity].
      * left. split; [|right; exact Hin].
        intros ->. apply Hnot.
        apply (list_elem_of_fmap_2 fst) in Hin. exact Hin.
    + apply elem_of_cons in Hin as [Hin|Hin].
      * injection Hin as -> -> ->. left. split; [exact Hne|left].
      * destruct (IH Hnd Hin) as [[Hk Hi] | [[Hk (m & Hi & Hn)] | (Hk & Hno & Hc & Hn)]].
        -- left. split; [exact Hk|right; exact Hi].
        -- right. left. split; [exact Hk|]. exists m. split; [right; exact Hi|exact Hn].
        -- right. right. repeat split; auto.
           rewrite elem_of_cons. intros [->|Hi]; [congruence|auto].
Qed.

Lemma occurrences_app k found1 found2 :
  occurrences k (found1 ++ found2)
  = (occurrences k found1 + occurrences k found2)%nat.
Proof. unfold occurrences. rewrite List.filter_app, length_app. reflexivity. Qed.

Lemma occurrences_zero k found :
  k ∉ map snd found → occurrences k found = 0%nat.
Proof.
  unfold occurrences. induction found as [|[c0 k0] found IH]; simpl; intros Hno.
  - reflexivity.
  - rewrite not_elem_of_cons in Hno. destruct Hno as [Hne Hno].
    destruct (String.eqb_spec k0 k) as [->|_]; [congruence|auto].
Qed.

Lemma occurrences_other k c0 k0 found :
  k0 ≠ k → occurrences k (found ++ [(c0, k0)]) = occurrences k found.
Proof.
  intros Hne. rewrite occurrences_app. unfold occurrences at 2. simpl.
  destruct (String.eqb_spec k0 k) as [->|_]; [congruence|simpl; lia].
Qed.

Lemma occurrences_same k c0 found :
  occurrences k (found ++ [(c0, k)]) = S (occurrences k found).
Proof.
  rewrite occurrences_app. unfold occurrences at 2. simpl.
  rewrite String.eqb_refl. simpl. lia.
Qed.

Lemma counted_step counts seen c k :
  counted counts seen → counted (count_found counts c k) (seen ++ [(c, k)]).
Proof.
  intros (Hnd & Hkeys & Hent).
  split; [apply count_found_NoDup; exact Hnd|].
  split.
  - intros k'. rewrite count_found_keys, map_app, elem_of_app, Hkeys.
    simpl. rewrite list_elem_of_singleton. tauto.
  - intros k' c' n' Hin.
    destruct (count_found_entry _ _ _ _ _ _ Hnd Hin)
      as [[Hk Hi] | [[-> (m & Hi & ->)] | (-> & Hno & -> & ->)]].
    + destruct (Hent _ _ _ Hi) as [Hn Hc].
      rewrite occurrences_other by congruence.
      split; [exact Hn|]. apply elem_of_app. left. exact Hc.
    + destruct (Hent _ _ _ Hi) as [Hn Hc].
      rewrite occurrences_same, <- Hn.
      split; [reflexivity|]. apply elem_of_app. left. exact Hc.
    + rewrite occurrences_same, occurrences_zero.
      * split; [reflexivity|]. apply elem_of_app. right. left.
      * rewrite <- Hkeys. exact Hno.
Qed.

Lemma counted_foldl found : ∀ counts seen,
  counted counts seen →
  counted (foldl (fun counts ck => count_found counts ck.1 ck.2) counts found)
          (seen ++ found).
Proof.
  induction found as [|[c k] found IH]; intros counts seen H; simpl.
  - rewrite app_nil_r. exact H.
  - replace (seen ++ (c, k) :: found) with ((seen ++ [(c, k)]) ++ found)
      by (rewrite <- app_assoc; reflexivity).
    apply IH. apply counted_step. exact H.
Qed.

Lemma contradictionCounts_counted found :
  counted (contradictionCounts found) found.
Proof.
  apply (counted_foldl found [] []).
  split; [constructor|]. split.
  - intros k. simpl. reflexivity.
  - intros k c n Hin. inversion Hin.
Qed.

Lemma key_of_of_raw c v :
  key_of (Contradiction.of_raw c v) = contradiction_key c.
Proof. reflexivity. Qed.

Lemma allFound_keys P n reports evidence : ∀ tape c k,
  (c, k) ∈ allFoundContradictions P n reports evidence tape →
  k = contradiction_key c.
Proof.
  induction n as [|n IH]; intros tape c k Hin; simpl in Hin.
  - inversion Hin.
  - destruct (shuffle reports tape) as [sr t1].
    destruct (shuffle evidence t1) as [se t2].
    apply elem_of_app in Hin as [Hin|Hin]; [|eauto].
    apply list_elem_of_fmap in Hin as (c0 & Heq & _).
    injection Heq as -> ->. reflexivity.
Qed.

(** Every entry of the result comes from an entry of the counting map. *)
Lemma result_entries P reports evidence tape c :
  c ∈ runContradictionAnalysis P reports evidence tape ↔
  ∃ k c0 n,
    (k, (c0, n))
      ∈ contradictionCounts (allFoundContradictions P 3 reports evidence tape)
    ∧ c = Contradiction.of_raw c0 (verification_of n).
Proof.
  unfold runContradictionAnalysis. rewrite list_elem_of_fmap. split.
  - intros ([k [c0 n]] & -> & Hin). exists k, c0, n. auto.
  - intros (k & c0 & n & Hin & ->). exists (k, (c0, n)). auto.
Qed.

Lemma result_keys P reports evidence tape :
  map key_of (runContradictionAnalysis P reports evidence tape)
  = map fst (contradictionCounts
               (allFoundContradictions P 3 reports evidence tape)).
Proof.
  unfold runContradictionAnalysis.
  pose proof (contradictionCounts_counted
                (allFoundContradictions P 3 reports evidence tape))
    as (_ & _ & Hent).
  revert Hent.
  generalize (contradictionCounts
                (allFoundContradictions P 3 reports evidence tape)) as counts.
  induction counts as [|[k [c0 n]] counts IH]; intros Hent; simpl.
  - reflexivity.
  - f_equal.
    + destruct (Hent k c0 n ltac:(left)) as [_ Hc].
      rewrite key_of_of_raw. symmetry. eapply allFound_keys. exact Hc.
    + apply IH. intros k' c' n' Hin. apply Hent. right. exact Hin.
Qed.

Lemma result_NoDup_keys P reports evidence tape :
  NoDup (map key_of (runContradictionAnalysis P reports evidence tape)).
Proof.
  rewrite result_keys.
  apply (contradictionCounts_counted
           (allFoundContradictions P 3 reports evidence tape)).
Qed.

(* ----------------------------------------------------------------- *)
(** *** [shuffle] and the evidence in scope *)

Lemma swap_Permutation {T} (a : list T) i j : swap a i j ≡ₚ a.
Proof.
  unfold swap.
  destruct (a !! i) as [x|] eqn:Ei; [|reflexivity].
  destruct (a !! j) as [y|] eqn:Ej; [|reflexivity].
  apply Permutation_insert_swap; assumption.
Qed.

Lemma shuffle_from_Permutation {T} i : ∀ (a : list T) tape,
  (shuffle_from i a tape).1 ≡ₚ a.
Proof.
  induction i as [|i IH]; intros a tape; simpl.
  - reflexivity.
  - destruct (random_below (S (S i)) tape) as [j tape'].
    rewrite IH. apply swap_Permutation.
Qed.

Lemma shuffle_Permutation {T} (a : list T) tape : (shuffle a tape).1 ≡ₚ a.
Proof. apply shuffle_from_Permutation. Qed.

Lemma allFound_passes P n reports evidence : ∀ tape,
  ∃ passes,
    length passes = n
    ∧ Forall (reordering reports evidence) passes
    ∧ allFoundContradictions P n reports evidence tape
      = flat_map (pass_found P) passes.
Proof.
  induction n as [|n IH]; intros tape; simpl.
  - exists []. repeat split. constructor.
  - destruct (shuffle reports tape) as [sr t1] eqn:Er.
    destruct (shuffle evidence t1) as [se t2] eqn:Ee.
    destruct (IH t2) as (passes & Hlen & Hall & Heq).
    exists ((sr, se) :: passes). simpl.
    split; [rewrite Hlen; reflexivity|].
    split; [|rewrite Heq; reflexivity].
    constructor; [|exact Hall].
    split; simpl.
    + change sr with (sr, t1).1. rewrite <- Er. apply shuffle_Permutation.
    + change se with (se, t2).1. rewrite <- Ee. apply shuffle_Permutation.
Qed.

Lemma Map_new_is_Some_acc {A} (f : A → string) (l : list A) :
  ∀ (m : gmap string A) k,
    is_Some (foldl (fun m kv => <[kv.1 := kv.2]> m) m
                   (map (fun r => (f r, r)) l) !! k)
    ↔ k ∈ map f l ∨ is_Some (m !! k).
Proof.
  induction l as [|a l IH]; intros m k; simpl.
  - split; [auto|]. intros [H|H]; [inversion H|exact H].
  - rewrite IH, elem_of_cons.
    destruct (decide (f a = k)) as [Heq|Hne].
    + rewrite Heq, lookup_insert_eq. split; [auto|]. intros _. right. eauto.
    + rewrite lookup_insert_ne by exact Hne.
      split; [tauto|]. intros [[Hk|Hk]|Hk]; auto. congruence.
Qed.

Lemma Map_new_is_Some {A} (f : A → string) (l : list A) k :
  is_Some (Map_new (map (fun r => (f r, r)) l) !! k) ↔ k ∈ map f l.
Proof.
  unfold Map_new. rewrite Map_new_is_Some_acc, lookup_empty.
  split; [|auto]. intros [H|[x H]]; [exact H|discriminate].
Qed.

Lemma Map_new_lookup_NoDup {A} (f : A → string) (l : list A) x :
  NoDup (map f l) → x ∈ l →
  Map_new (map (fun r => (f r, r)) l) !! f x = Some x.
Proof.
  intros Hnd Hx.
  destruct (Map_new (map (fun r => (f r, r)) l) !! f x) as [y|] eqn:E.
  - apply Map_new_lookup in E as [Hf Hy]. f_equal.
    apply list_elem_of_lookup in Hx as [i Hi].
    apply list_elem_of_lookup in Hy as [j Hj].
    assert (i = j).
    { eapply NoDup_lookup; [exact Hnd| |].
      - rewrite list_lookup_fmap, Hi. reflexivity.
      - rewrite list_lookup_fmap, Hj. simpl. rewrite Hf. reflexivity. }
    subst j. congruence.
  - assert (Hs : is_Some (Map_new (map (fun r => (f r, r)) l) !! f x)).
    { apply Map_new_is_Some. apply list_elem_of_fmap. eauto. }
    rewrite E in Hs. destruct Hs as [? Hs]. discriminate.
Qed.

Lemma scope_as_fold reports evidenceList :
  allEvidenceInScope reports evidenceList
  = foldl (scope_add (Map_new (map (fun e => (Evidence.id e, e)) evidenceList)))
          [] (all_refs reports).
Proof.
  unfold allEvidenceInScope, all_refs.
  generalize (@nil Evidence.t) as acc.
  induction reports as [|r reports IH]; intros acc; simpl.
  - reflexivity.
  - rewrite foldl_app. apply IH.
Qed.

Lemma existsb_id_elem (scope : list Evidence.t) k :
  existsb (fun e => String.eqb (Evidence.id e) k) scope = true
  ↔ k ∈ map Evidence.id scope.
Proof.
  rewrite existsb_exists, list_elem_of_fmap. split.
  - intros (e & He & Hk). apply String.eqb_eq in Hk.
    exists e. split; [auto|]. apply list_elem_of_In. exact He.
  - intros (e & -> & He). exists e. split.
    + apply list_elem_of_In. exact He.
    + apply String.eqb_refl.
Qed.

Lemma scope_add_spec M scope ref :
  (∀ k e, M !! k = Some e → Evidence.id e = k) →
  scope_ok M scope →
  scope_ok M (scope_add M scope ref)
  ∧ ∀ e, e ∈ scope_add M scope ref
         ↔ e ∈ scope ∨ M !! ref_id ref = Some e.
Proof.
  intros HM [Hnd Hin]. unfold scope_add.
  destruct (M !! ref_id ref) as [ev|] eqn:E.
  - destruct (existsb (fun e => String.eqb (Evidence.id e) (Evidence.id ev)) scope)
      eqn:Ex.
    + split; [split; assumption|].
      intros e. split; [auto|]. intros [He|He]; [exact He|].
      injection He as ->.
      apply existsb_id_elem in Ex.
      apply list_elem_of_fmap in Ex as (e' & Hid & He').
      pose proof (Hin _ He') as H1. rewrite <- Hid in H1.
      rewrite (HM _ _ E) in H1. rewrite E in H1. injection H1 as ->. exact He'.
    + assert (Hno : Evidence.id ev ∉ map Evidence.id scope).
      { intros Hc. apply existsb_id_elem in Hc. congruence. }
      split.
      * split.
        -- rewrite map_app. apply NoDup_app. split; [exact Hnd|].
           split; [|repeat constructor; intros Hc; inversion Hc].
           intros k Hk Hk'. apply list_elem_of_singleton in Hk'. congruence.
        -- intros e He. apply elem_of_app in He as [He|He]; [auto|].
           apply list_elem_of_singleton in He. subst e.
           rewrite (HM _ _ E). exact E.
      * intros e. rewrite elem_of_app, list_elem_of_singleton.
        split; intros [He|He]; auto; right; congruence.
  - split; [split; assumption|].
    intros e. split; [auto|]. intros [He|He]; [exact He|discriminate].
Qed.

Lemma scope_fold_spec M refs : ∀ scope,
  (∀ k e, M !! k = Some e → Evidence.id e = k) →
  scope_ok M scope →
  scope_ok M (foldl (scope_add M) scope refs)
  ∧ ∀ e, e ∈ foldl (scope_add M) scope refs
         ↔ e ∈ scope ∨ ∃ ref, ref ∈ refs ∧ M !! ref_id ref = Some e.
Proof.
  induction refs as [|ref refs IH]; intros scope HM Hok; simpl.
  - split; [exact Hok|]. intros e. split; [auto|].
    intros [He|(ref & Href & _)]; [exact He|inversion Href].
  - destruct (scope_add_spec M scope ref HM Hok) as [Hok1 Hin1].
    destruct (IH _ HM Hok1) as [Hok2 Hin2].
    split; [exact Hok2|].
    intros e. rewrite Hin2, Hin1. split.
    + intros [[He|He]|(r & Hr & He)]; [auto| |].
      * right. exists ref. split; [left|exact He].
      * right. exists r. split; [right; exact Hr|exact He].
    + intros [He|(r & Hr & He)]; [auto|].
      apply elem_of_cons in Hr as [->|Hr]; [auto|].
      right. exists r. auto.
Qed.

Lemma scope_spec reports evidenceList :
  let M := Map_new (map (fun e => (Evidence.id e, e)) evidenceList) in
  NoDup (map Evidence.id (allEvidenceInScope reports evidenceList))
  ∧ ∀ e, e ∈ allEvidenceInScope reports evidenceList
         ↔ ∃ ref, ref ∈ all_refs reports ∧ M !! ref_id ref = Some e.
Proof.
  intros M. rewrite scope_as_fold. fold M.
  assert (HM : ∀ k e, M !! k = Some e → Evidence.id e = k).
  { intros k e H. apply Map_new_lookup in H as [H _]. exact H. }
  destruct (scope_fold_spec M (all_refs reports) [] HM) as [[Hnd _] Hin].
  { split; [constructor|]. intros e He. inversion He. }
  split; [exact Hnd|].
  intros e. rewrite Hin. split; [|auto].
  intros [He|He]; [inversion He|exact He].
Qed.

Lemma scope_in_evidence reports evidenceList e :
  e ∈ allEvidenceInScope reports evidenceList → e ∈ evidenceList.
Proof.
  intros He. apply scope_spec in He as (ref & _ & He).
  apply Map_new_lookup in He as [_ He]. exact He.
Qed.

(** The ids in scope: the referenced ids that the evidence list has. *)
Lemma scope_ids reports evidenceList k :
  k ∈ map Evidence.id (allEvidenceInScope reports evidenceList)
  ↔ k ∈ map ref_id (all_refs reports) ∧ k ∈ map Evidence.id evidenceList.
Proof.
  rewrite !list_elem_of_fmap. split.
  - intros (e & -> & He).
    pose proof (scope_in_evidence _ _ _ He) as Hev.
    apply scope_spec in He as (ref & Href & He).
    apply Map_new_lookup in He as [Hid _].
    split; [exists ref; auto|].
    exists e. auto.
  - intros [(ref & -> & Href) Hk].
    apply list_elem_of_fmap in Hk.
    apply Map_new_is_Some in Hk as [e He].
    exists e. split.
    + apply Map_new_lookup in He as [Hid _]. auto.
    + apply scope_spec. exists ref. auto.
Qed.

Lemma all_refs_Permutation reports reports' :
  reports' ≡ₚ reports → all_refs reports' ≡ₚ all_refs reports.
Proof.
  unfold all_refs. intros H. induction H; simpl.
  - reflexivity.
  - apply Permutation_app_head. exact IHPermutation.
  - rewrite !app_assoc. apply Permutation_app_tail. apply Permutation_app_comm.
  - etransitivity; eassumption.
Qed.

Lemma scope_ids_Permutation reports evidence pass :
  reordering reports evidence pass →
  map Evidence.id (allEvidenceInScope pass.1 pass.2)
  ≡ₚ map Evidence.id (allEvidenceInScope reports evidence).
Proof.
  intros [Hr He].
  apply NoDup_Permutation; [apply scope_spec|apply scope_spec|].
  intros k. rewrite !scope_ids.
  rewrite (all_refs_Permutation _ _ Hr), He. reflexivity.
Qed.

Lemma scope_length_Permutation reports evidence pass :
  reordering reports evidence pass →
  length (allEvidenceInScope pass.1 pass.2)
  = length (allEvidenceInScope reports evidence).
Proof.
  intros H. apply scope_ids_Permutation in H.
  apply Permutation_length in H. rewrite !length_map in H. exact H.
Qed.

(** With one record for each id in the evidence list, the scope is the
    same set of records in every order of the inputs. *)
Lemma scope_elem_NoDup reports evidenceList e :
  NoDup (map Evidence.id evidenceList) →
  e ∈ allEvidenceInScope reports evidenceList
  ↔ e ∈ evidenceList ∧ Evidence.id e ∈ map ref_id (all_refs reports).
Proof.
  intros Hnd. split.
  - intros He. split; [eapply scope_in_evidence; exact He|].
    apply (list_elem_of_fmap_2 Evidence.id) in He.
    apply scope_ids in He as [He _]. exact He.
  - intros [He Hid]. apply list_elem_of_fmap in Hid as (ref & Hid & Href).
    apply scope_spec. exists ref. split; [exact Href|].
    rewrite <- Hid. apply Map_new_lookup_NoDup; assumption.
Qed.

Lemma scope_elem_Permutation reports evidence pass e :
  NoDup (map Evidence.id evidence) →
  reordering reports evidence pass →
  e ∈ allEvidenceInScope pass.1 pass.2
  ↔ e ∈ allEvidenceInScope reports evidence.
Proof.
  intros Hnd [Hr He].
  rewrite !scope_elem_NoDup; [|exact Hnd|rewrite He; exact Hnd].
  rewrite He, (all_refs_Permutation _ _ Hr). reflexivity.
Qed.

(* ----------------------------------------------------------------- *)
(** *** One pass of the detectors *)

Lemma drift_rule_spec evA evB c :
  c ∈ drift_rule evA evB →
  RawContradiction.type c = cross_doc_drift
  ∧ RawContradiction.sources c = [Evidence.id evA; Evidence.id evB]
  ∧ Evidence.sha512 evA ≠ Evidence.sha512 evB.
Proof.
  unfold drift_rule.
  destruct (_ && _) eqn:E; intros Hc; [|inversion Hc].
  apply list_elem_of_singleton in Hc. subst c. simpl.
  repeat split.
  apply andb_true_iff in E as [_ E].
  apply negb_true_iff, String.eqb_neq in E. exact E.
Qed.

Lemma drift_pairs_spec scope c :
  c ∈ drift_pairs scope →
  RawContradiction.type c = cross_doc_drift
  ∧ ∃ evA evB, evA ∈ scope ∧ evB ∈ scope
      ∧ RawContradiction.sources c = [Evidence.id evA; Evidence.id evB]
      ∧ Evidence.sha512 evA ≠ Evidence.sha512 evB.
Proof.
  induction scope as [|evA later IH]; simpl; intros Hc.
  - inversion Hc.
  - apply elem_of_app in Hc as [Hc|Hc].
    + apply list_elem_of_In, in_flat_map in Hc as (evB & HB & Hc).
      apply list_elem_of_In in HB, Hc.
      apply drift_rule_spec in Hc as (Ht & Hs & Hd).
      split; [exact Ht|]. exists evA, evB.
      split; [left|]. split; [right; exact HB|auto].
    + destruct (IH Hc) as (Ht & a & b & Ha & Hb & Hs).
      split; [exact Ht|]. exists a, b.
      split; [right; exact Ha|]. split; [right; exact Hb|exact Hs].
Qed.

Lemma drift_pairs_short scope :
  (length scope < 2)%nat → drift_pairs scope = [].
Proof.
  destruct scope as [|a [|b scope]]; simpl; [reflexivity|reflexivity|lia].
Qed.

Lemma metadata_mismatches_spec P evidence c :
  c ∈ metadata_mismatches P evidence ↔
  ∃ dateStr,
    dateStr ∈ String_match dateRegex (default "" (Evidence.ocrText evidence))
    ∧ Date_gt (Date_parse P dateStr) (Evidence.createdAt evidence) = true
    ∧ c = metadata_record P evidence dateStr.
Proof.
  unfold metadata_mismatches.
  rewrite list_elem_of_In, in_flat_map. split.
  - intros (d & Hd & Hc). exists d. apply list_elem_of_In in Hd.
    unfold metadata_rule in Hc.
    destruct (Date_gt _ _) eqn:E; [|inversion Hc].
    destruct Hc as [<-|[]]. auto.
  - intros (d & Hd & Hgt & ->). exists d. apply list_elem_of_In in Hd.
    split; [exact Hd|]. unfold metadata_rule. rewrite Hgt. left. reflexivity.
Qed.

Lemma omissions_spec scope evidence c :
  c ∈ omissions scope evidence →
  RawContradiction.type c = omission
  ∧ RawContradiction.sources c = [Evidence.id evidence].
Proof.
  unfold omissions. rewrite list_elem_of_In, in_flat_map.
  intros (m & _ & Hc). unfold omission_rule in Hc.
  destruct (existsb _ _); [inversion Hc|].
  destruct Hc as [<-|[]]. split; reflexivity.
Qed.

Lemma analyzeContradictionsOnce_spec P reports evidenceList c :
  c ∈ analyzeContradictionsOnce P reports evidenceList ↔
  let scope := allEvidenceInScope reports evidenceList in
  c ∈ drift_pairs scope
  ∨ ∃ e, e ∈ scope ∧ has_text e = true
         ∧ (c ∈ metadata_mismatches P e ∨ c ∈ omissions scope e).
Proof.
  unfold analyzeContradictionsOnce. cbv zeta.
  rewrite elem_of_app. apply or_iff_compat_l.
  rewrite list_elem_of_In, in_flat_map. split.
  - intros (e & He & Hc). apply filter_In in He as [He Ht].
    exists e. rewrite <- !list_elem_of_In, elem_of_app in *. auto.
  - intros (e & He & Ht & Hc). exists e. split.
    + apply filter_In. rewrite <- list_elem_of_In. auto.
    + rewrite <- list_elem_of_In, elem_of_app. exact Hc.
Qed.

(** Each record of a pass cites evidence in scope, by type. *)
Lemma analyzeContradictionsOnce_cases P reports evidenceList c :
  c ∈ analyzeContradictionsOnce P reports evidenceList →
  let scope := allEvidenceInScope reports evidenceList in
  (RawContradiction.type c = cross_doc_drift
   ∧ ∃ evA evB, evA ∈ scope ∧ evB ∈ scope
       ∧ RawContradiction.sources c = [Evidence.id evA; Evidence.id evB]
       ∧ Evidence.sha512 evA ≠ Evidence.sha512 evB)
  ∨ (∃ e dateStr, e ∈ scope ∧ has_text e = true
       ∧ dateStr ∈ String_match dateRegex (default "" (Evidence.ocrText e))
       ∧ Date_gt (Date_parse P dateStr) (Evidence.createdAt e) = true
       ∧ c = metadata_record P e dateStr)
  ∨ (RawContradiction.type c = omission
     ∧ ∃ e, e ∈ scope ∧ has_text e = true
            ∧ RawContradiction.sources c = [Evidence.id e]).
Proof.
  intros Hc scope. apply analyzeContradictionsOnce_spec in Hc.
  destruct Hc as [Hc|(e & He & Ht & [Hc|Hc])].
  - left. apply drift_pairs_spec. exact Hc.
  - right. left. apply metadata_mismatches_spec in Hc as (d & Hd & Hgt & ->).
    exists e, d. auto.
  - right. right. apply omissions_spec in Hc as [Hty Hs].
    split; [exact Hty|]. exists e. auto.
Qed.

(** An entry of the result is a record of one of the passes, with a tier. *)
Lemma result_from_pass P reports evidence tape c :
  c ∈ runContradictionAnalysis P reports evidence tape →
  ∃ pass c0 n,
    reordering reports evidence pass
    ∧ c0 ∈ analyzeContradictionsOnce P pass.1 pass.2
    ∧ c = Contradiction.of_raw c0 (verification_of n)
    ∧ n = occurrences (contradiction_key c0)
                      (allFoundContradictions P 3 reports evidence tape).
Proof.
  intros Hc. apply result_entries in Hc as (k & c0 & n & Hin & ->).
  pose proof (contradictionCounts_counted
                (allFoundContradictions P 3 reports evidence tape))
    as (_ & _ & Hent).
  destruct (Hent _ _ _ Hin) as [Hn Hc0].
  pose proof (allFound_keys _ _ _ _ _ _ _ Hc0) as Hk. subst k.
  destruct (allFound_passes P 3 reports evidence tape)
    as (passes & _ & Hall & Heq).
  rewrite Heq in Hc0.
  apply list_elem_of_In, in_flat_map in Hc0 as (pass & Hp & Hc0).
  apply list_elem_of_In in Hp. apply list_elem_of_In in Hc0.
  unfold pass_found in Hc0.
  apply list_elem_of_fmap in Hc0 as (c1 & Heq1 & Hc1).
  injection Heq1 as <-.
  exists pass, c0, n. split; [|auto].
  rewrite Forall_forall in Hall. apply Hall. exact Hp.
Qed.

(** C6, amended. When fewer than two evidence items are in scope the
    engine returns no [cross_doc_drift] record, whatever the shuffles, and
    every record it does return cites the one item in scope; when nothing
    is in scope it returns the empty list. The engine is a total function:
    it raises no error. *)
Theorem small_scope_no_drift (P : Platform) (reports : list Report.t)
    (evidence : list Evidence.t) (tape : Tape) :
  (length (allEvidenceInScope reports evidence) < 2)%nat →
  let result := runContradictionAnalysis P reports evidence tape in
  (∀ c, c ∈ result →
        Contradiction.type c ≠ cross_doc_drift
        ∧ ∃ k, k ∈ map Evidence.id (allEvidenceInScope reports evidence)
               ∧ Contradiction.sources c = [k])
  ∧ (allEvidenceInScope reports evidence = [] → result = []).
Proof.
  intros Hlen result.
  assert (Hrec : ∀ c, c ∈ result →
            Contradiction.type c ≠ cross_doc_drift
            ∧ ∃ k, k ∈ map Evidence.id (allEvidenceInScope reports evidence)
                   ∧ Contradiction.sources c = [k]).
  { intros c Hc.
    apply result_from_pass in Hc as (pass & c0 & n & Hp & Hc0 & -> & _).
    pose proof (scope_length_Permutation _ _ _ Hp) as Hl.
    pose proof (scope_ids_Permutation _ _ _ Hp) as Hids.
    apply analyzeContradictionsOnce_spec in Hc0. cbv zeta in Hc0.
    rewrite drift_pairs_short in Hc0 by lia.
    destruct Hc0 as [Hc0|(e & He & _ & Hc0)]; [inversion Hc0|].
    assert (Hk : Evidence.id e
                 ∈ map Evidence.id (allEvidenceInScope reports evidence)).
    { rewrite <- Hids. apply (list_elem_of_fmap_2 Evidence.id). exact He. }
    destruct Hc0 as [Hc0|Hc0].
    - apply metadata_mismatches_spec in Hc0 as (d & _ & _ & ->). simpl.
      split; [discriminate|]. exists (Evidence.id e). auto.
    - apply omissions_spec in Hc0 as [Hty Hs]. simpl.
      split; [rewrite Hty; discriminate|]. exists (Evidence.id e). auto. }
  split; [exact Hrec|].
  intros Hnil.
  destruct result as [|c rest] eqn:E; [reflexivity|].
  destruct (Hrec c ltac:(left)) as [_ (k & Hk & _)].
  rewrite Hnil in Hk. inversion Hk.
Qed.

Lemma small_scope_no_drift_witness :
  Forall (fun c => Contradiction.type c ≠ cross_doc_drift)
         (runContradictionAnalysis ReferencePlatform.platform
            [report_A] [ev_exhibit] [])
  ∧ runContradictionAnalysis ReferencePlatform.platform
      [report_A] [ev_statement_v2] tape_steady = [].
Proof.
  split.
  - apply Forall_forall. intros c Hc.
    refine (proj1 (proj1 (small_scope_no_drift ReferencePlatform.platform
                            [report_A] [ev_exhibit] [] _) c Hc)).
    vm_compute. lia.
  - refine (proj2 (small_scope_no_drift ReferencePlatform.platform
                     [report_A] [ev_statement_v2] tape_steady _) _).
    + vm_compute. lia.
    + vm_compute. reflexivity.
Defined.

(* ----------------------------------------------------------------- *)
(** *** Keys of [metadata_mismatch] records *)

Lemma NoDup_map_inj {A B} (f : A → B) (l : list A) x y :
  NoDup (map f l) → x ∈ l → y ∈ l → f x = f y → x = y.
Proof.
  intros Hnd Hx Hy Hf.
  apply list_elem_of_lookup in Hx as [i Hi].
  apply list_elem_of_lookup in Hy as [j Hj].
  assert (i = j).
  { eapply NoDup_lookup; [exact Hnd| |].
    - rewrite list_lookup_fmap, Hi. reflexivity.
    - rewrite list_lookup_fmap, Hj. simpl. rewrite Hf. reflexivity. }
  subst j. congruence.
Qed.

Lemma append_eq_same_length (s1 s2 t1 t2 : string) :
  s1 +:+ t1 = s2 +:+ t2 → String.length s1 = String.length s2 →
  s1 = s2 ∧ t1 = t2.
Proof.
  revert s2. induction s1 as [|c s1 IH]; intros [|d s2] Heq Hlen;
    try discriminate Hlen.
  - split; [reflexivity|exact Heq].
  - change (String c (s1 +:+ t1) = String d (s2 +:+ t2)) in Heq.
    injection Heq as -> Heq. injection Hlen as Hlen.
    destruct (IH _ Heq Hlen) as [-> ->]. split; reflexivity.
Qed.

(** The first character of a key is that of the type. *)
Lemma key_first_char c :
  String.get 0 (contradiction_key c)
  = String.get 0 (type_string (RawContradiction.type c)).
Proof. unfold contradiction_key. destruct (RawContradiction.type c); reflexivity. Qed.

Lemma key_determines_type c1 c2 :
  contradiction_key c1 = contradiction_key c2 →
  RawContradiction.type c1 = RawContradiction.type c2.
Proof.
  intros H. apply (f_equal (String.get 0)) in H.
  rewrite !key_first_char in H.
  destruct (RawContradiction.type c1), (RawContradiction.type c2);
    (reflexivity || discriminate H).
Qed.

Lemma metadata_key P e d :
  contradiction_key (metadata_record P e d)
  = "metadata_mismatch-"
    +:+ (Evidence.id e
         +:+ ("-" +:+ RawContradiction.explanation (metadata_record P e d))).
Proof. reflexivity. Qed.

(** With ids of one length, the key of a [metadata_mismatch] record
    determines the evidence id and the explanation. *)
Lemma metadata_key_inj P e d e0 d0 :
  String.length (Evidence.id e0) = String.length (Evidence.id e) →
  contradiction_key (metadata_record P e0 d0)
  = contradiction_key (metadata_record P e d) →
  Evidence.id e0 = Evidence.id e
  ∧ RawContradiction.explanation (metadata_record P e0 d0)
    = RawContradiction.explanation (metadata_record P e d).
Proof.
  intros Hlen Hk. rewrite !metadata_key in Hk.
  apply (inj (String.append "metadata_mismatch-")) in Hk.
  destruct (append_eq_same_length _ _ _ _ Hk Hlen) as [Hid Hrest].
  split; [exact Hid|].
  apply (inj (String.append "-")) in Hrest. exact Hrest.
Qed.

Lemma occurrences_flat_map P k passes :
  (∀ pass, pass ∈ passes → ∃ c, (c, k) ∈ pass_found P pass) →
  (length passes ≤ occurrences k (flat_map (pass_found P) passes))%nat.
Proof.
  induction passes as [|pass passes IH]; intros H; simpl; [lia|].
  rewrite occurrences_app.
  assert (1 ≤ occurrences k (pass_found P pass))%nat.
  { destruct (H pass ltac:(left)) as [c Hc].
    destruct (occurrences k (pass_found P pass)) eqn:E; [|lia].
    exfalso. unfold occurrences in E. apply length_zero_iff_nil in E.
    apply list_elem_of_In in Hc.
    assert (Hin : In (c, k) (List.filter (fun ck => String.eqb ck.2 k)
                                         (pass_found P pass))).
    { apply filter_In. split; [exact Hc|apply String.eqb_refl]. }
    rewrite E in Hin. exact Hin. }
  assert (length passes ≤ occurrences k (flat_map (pass_found P) passes))%nat.
  { apply IH. intros p Hp. apply H. right. exact Hp. }
  lia.
Qed.

Lemma verification_of_three n : (3 ≤ n)%nat → verification_of n = Verified_3_3.
Proof.
  intros H. unfold verification_of.
  destruct (Nat.leb_spec 3 n); [reflexivity|lia].
Qed.

Lemma has_text_spec e text :
  Evidence.ocrText e = Some text → String.length (trim text) ≠ 0%nat →
  has_text e = true.
Proof.
  intros Ht Hl. unfold has_text. rewrite Ht.
  destruct (Nat.eqb_spec (String.length (trim text)) 0); [contradiction|reflexivity].
Qed.

(** The [metadata_mismatch] records on an evidence item in scope with
    extracted text that is not blank, in terms of the strings that
    [dateRegex] matches in the text. *)
Lemma metadata_mismatch_for_matches (P : Platform)
    (reports : list Report.t) (evidence : list Evidence.t) (tape : Tape)
    (e : Evidence.t) (text : string) :
  NoDup (map Evidence.id evidence) →
  ids_same_length evidence →
  e ∈ evidence →
  Evidence.id e ∈ map ref_id (all_refs reports) →
  Evidence.ocrText e = Some text →
  String.length (trim text) ≠ 0%nat →
  let result := runContradictionAnalysis P reports evidence tape in
  let T := Evidence.createdAt e in
  (∀ dateStr,
     dateStr ∈ String_match dateRegex text →
     Date_gt (Date_parse P dateStr) T = true →
     ∃ c, c ∈ result ∧ cites_metadata (Evidence.id e) c
          ∧ Contradiction.explanation c
            = metadata_explanation P (Date_parse P dateStr) T
          ∧ Contradiction.verification c = Verified_3_3)
  ∧ (∀ c, c ∈ result → cites_metadata (Evidence.id e) c →
          ∃ dateStr,
            dateStr ∈ String_match dateRegex text
            ∧ Date_gt (Date_parse P dateStr) T = true
            ∧ Contradiction.explanation c
              = metadata_explanation P (Date_parse P dateStr) T)
  ∧ (∀ c1 c2, c1 ∈ result → c2 ∈ result →
              cites_metadata (Evidence.id e) c1 →
              cites_metadata (Evidence.id e) c2 →
              Contradiction.explanation c1 = Contradiction.explanation c2 →
              c1 = c2)
  ∧ ((∀ dateStr, dateStr ∈ String_match dateRegex text →
                 Date_gt (Date_parse P dateStr) T = false) →
     ∀ c, c ∈ result → ¬ cites_metadata (Evidence.id e) c).
Proof.
  intros Hnd Hlen He Href Htext Hblank result T.
  assert (Hscope : ∀ pass, reordering reports evidence pass →
            e ∈ allEvidenceInScope pass.1 pass.2).
  { intros pass Hp. apply (scope_elem_Permutation _ _ _ _ Hnd Hp).
    apply scope_elem_NoDup; auto. }
  assert (Hback : ∀ c, c ∈ result → cites_metadata (Evidence.id e) c →
            ∃ dateStr,
              dateStr ∈ String_match dateRegex text
              ∧ Date_gt (Date_parse P dateStr) T = true
              ∧ Contradiction.explanation c
                = metadata_explanation P (Date_parse P dateStr) T).
  { intros c Hc [Hty Hsrc].
    apply result_from_pass in Hc as (pass & c0 & n & Hp & Hc0 & -> & _).
    simpl in Hty, Hsrc.
    apply analyzeContradictionsOnce_cases in Hc0.
    destruct Hc0 as [[Hty0 _] | [(e0 & d & He0 & _ & Hd & Hgt & ->) | [Hty0 _]]];
      [congruence| |congruence].
    simpl in Hsrc. injection Hsrc as Hid.
    assert (e0 = e) as ->.
    { apply (NoDup_map_inj Evidence.id evidence); auto.
      destruct Hp as [_ Hpe]. rewrite <- Hpe.
      eapply scope_in_evidence. exact He0. }
    rewrite Htext in Hd. exists d. auto. }
  split; [|split; [exact Hback|split]].
  - intros d Hd Hgt.
    set (c := metadata_record P e d).
    destruct (allFound_passes P 3 reports evidence tape)
      as (passes & Hn & Hall & Heq).
    rewrite Forall_forall in Hall.
    assert (Hin : ∀ pass, pass ∈ passes →
              (c, contradiction_key c) ∈ pass_found P pass).
    { intros pass Hp. unfold pass_found.
      apply (list_elem_of_fmap_2 (fun c => (c, contradiction_key c))).
      apply analyzeContradictionsOnce_spec. right. exists e.
      split; [apply Hscope, Hall, Hp|].
      split; [eapply has_text_spec; eassumption|].
      left. apply metadata_mismatches_spec. exists d.
      rewrite Htext. auto. }
    pose proof (contradictionCounts_counted
                  (allFoundContradictions P 3 reports evidence tape))
      as (_ & Hkeys & Hent).
    assert (Hk : contradiction_key c
                 ∈ map fst (contradictionCounts
                              (allFoundContradictions P 3 reports evidence tape))).
    { apply Hkeys. rewrite Heq. apply list_elem_of_fmap.
      exists (c, contradiction_key c). split; [reflexivity|].
      destruct passes as [|pass passes]; [discriminate Hn|].
      simpl. apply elem_of_app. left. apply Hin. left. }
    apply list_elem_of_fmap in Hk as ([k [c0 n]] & Hk & Hentry).
    simpl in Hk. subst k.
    destruct (Hent _ _ _ Hentry) as [Hcount Hc0].
    pose proof (allFound_keys _ _ _ _ _ _ _ Hc0) as Hkey0.
    assert (Hres : Contradiction.of_raw c0 (verification_of n) ∈ result).
    { apply result_entries. eauto. }
    assert (Hthree : (3 ≤ n)%nat).
    { rewrite Hcount, Heq, <- Hn.
      apply occurrences_flat_map. intros pass Hp. eauto. }
    exists (Contradiction.of_raw c0 (verification_of n)).
    split; [exact Hres|].
    (* the counted record is a record of a pass with the same key *)
    rewrite Heq in Hc0.
    apply list_elem_of_In, in_flat_map in Hc0 as (pass & Hp & Hc0).
    apply list_elem_of_In in Hp. apply list_elem_of_In in Hc0.
    unfold pass_found in Hc0.
    apply list_elem_of_fmap in Hc0 as (c1 & Heq1 & Hc1).
    injection Heq1 as <- _.
    pose proof (key_determines_type _ _ Hkey0) as Hty.
    apply analyzeContradictionsOnce_cases in Hc1.
    destruct Hc1 as [[Hty0 _] | [(e0 & d0 & He0 & _ & _ & _ & ->) | [Hty0 _]]];
      [rewrite Hty0 in Hty; discriminate Hty|
      |rewrite Hty0 in Hty; discriminate Hty].
    assert (He0' : e0 ∈ evidence).
    { destruct (Hall _ Hp) as [_ Hpe]. rewrite <- Hpe.
      eapply scope_in_evidence. exact He0. }
    destruct (metadata_key_inj P e d e0 d0 (Hlen _ _ He0' He) (eq_sym Hkey0))
      as [Hid Hexp].
    split; [split; [reflexivity|simpl; rewrite Hid; reflexivity]|].
    split; [exact Hexp|].
    simpl. apply verification_of_three. exact Hthree.
  - intros c1 c2 H1 H2 [Ht1 Hs1] [Ht2 Hs2] Hexp.
    pose proof (result_NoDup_keys P reports evidence tape) as Hnodup.
    apply (NoDup_map_inj key_of result); auto.
    unfold key_of. rewrite Ht1, Ht2, Hs1, Hs2, Hexp. reflexivity.
  - intros Hnone c Hc Hcites.
    destruct (Hback c Hc Hcites) as (d & Hd & Hgt & _).
    rewrite (Hnone d Hd) in Hgt. discriminate Hgt.
Qed.

(* ----------------------------------------------------------------- *)
(** *** The matcher finds only what the pattern describes *)

Lemma repeat_greedy_sound p : ∀ inp min max bef caps k res,
  RegExp.repeat_greedy p min max bef inp caps k = Some res →
  ∃ w after,
    inp = w ++ after
    ∧ Forall (fun c => p c = true) w
    ∧ (min ≤ length w)%nat
    ∧ match max with Some n => (length w ≤ n)%nat | None => True end
    ∧ k (RegExp.mkState (rev w ++ bef) after caps) = Some res.
Proof.
  assert (Hstop : ∀ inp min max bef caps
                    (k : RegExp.state → option RegExp.state) res,
            match min with
            | O => k (RegExp.mkState bef inp caps)
            | S _ => None
            end = Some res →
            ∃ w after,
              inp = w ++ after
              ∧ Forall (fun c => p c = true) w
              ∧ (min ≤ length w)%nat
              ∧ match max with Some n => (length w ≤ n)%nat | None => True end
              ∧ k (RegExp.mkState (rev w ++ bef) after caps) = Some res).
  { intros inp min max bef caps k res H.
    destruct min; [|discriminate].
    exists [], inp. simpl. repeat split; auto.
    destruct max; [simpl; lia|exact I]. }
  induction inp as [|c inp IH]; intros min max bef caps k res H; simpl in H.
  - apply Hstop. exact H.
  - destruct (p c && match max with Some O => false | _ => true end) eqn:E;
      [|apply Hstop; exact H].
    destruct (RegExp.repeat_greedy p (Nat.pred min) (Nat.pred <$> max)
                (c :: bef) inp caps k) as [st|] eqn:Er;
      [|apply Hstop; exact H].
    injection H as ->.
    apply andb_true_iff in E as [Hp Hmax].
    destruct (IH _ _ _ _ _ _ Er) as (w & after & -> & Hall & Hmin & Hmx & Hk).
    exists (c :: w), after. simpl.
    split; [reflexivity|]. split; [constructor; assumption|].
    split; [lia|].
    split.
    + destruct max as [[|n]|]; simpl in *; [discriminate|lia|exact I].
    + rewrite <- app_assoc. exact Hk.
Qed.

Lemma matcher_sound r : ∀ st k res,
  RegExp.matcher r st k = Some res →
  ∃ w after caps,
    RegExp.rest st = w ++ after
    ∧ RegExp.matches r (RegExp.before st) w after
    ∧ k (RegExp.mkState (rev w ++ RegExp.before st) after caps) = Some res.
Proof.
  induction r as [|p|p min max|r1 IH1 r2 IH2|r1 IH1 r2 IH2| | |r IH];
    intros [bef inp caps] k res H; simpl in *.
  - exists [], inp, caps. auto.
  - destruct inp as [|c inp]; [discriminate|].
    destruct (p c) eqn:Ep; [|discriminate].
    exists [c], inp, caps. simpl. split; [reflexivity|]. split; [eauto|exact H].
  - apply repeat_greedy_sound in H as (w & after & -> & Hall & Hmin & Hmax & Hk).
    exists w, after, caps. auto.
  - apply IH1 in H as (w1 & after1 & caps1 & Hr1 & Hm1 & H).
    apply IH2 in H as (w2 & after & caps2 & Hr2 & Hm2 & H).
    simpl in *. subst inp after1.
    exists (w1 ++ w2), after, caps2.
    split; [rewrite app_assoc; reflexivity|].
    split; [exists w1, w2; auto|].
    rewrite rev_app_distr, <- app_assoc. exact H.
  - destruct (RegExp.matcher r1 (RegExp.mkState bef inp caps) k) as [st|] eqn:E1.
    + injection H as ->.
      apply IH1 in E1 as (w & after & caps1 & Hr & Hm & Hk).
      exists w, after, caps1. auto.
    + apply IH2 in H as (w & after & caps1 & Hr & Hm & Hk).
      exists w, after, caps1. auto.
  - destruct (xorb (RegExp.word_at bef) (RegExp.word_at inp)) eqn:E; [|discriminate].
    exists [], inp, caps. auto.
  - destruct inp as [|c inp]; [|discriminate].
    exists [], [], caps. auto.
  - apply IH in H as (w & after & caps1 & Hr & Hm & Hk). simpl in *.
    eexists w, after, _. split; [exact Hr|]. split; [exact Hm|exact Hk].
Qed.

Lemma consumed_app b0 w :
  RegExp.consumed b0 (rev w ++ b0) = string_of_list_ascii w.
Proof.
  unfold RegExp.consumed.
  rewrite length_app, Nat.add_sub.
  rewrite firstn_app, Nat.sub_diag, firstn_all. simpl.
  rewrite app_nil_r, rev_involutive. reflexivity.
Qed.

Lemma search_sound r : ∀ inp bef b0 st,
  RegExp.search r bef inp = Some (b0, st) →
  ∃ skipped w,
    inp = skipped ++ w ++ RegExp.rest st
    ∧ b0 = rev skipped ++ bef
    ∧ RegExp.before st = rev w ++ b0
    ∧ RegExp.matches r b0 w (RegExp.rest st).
Proof.
  induction inp as [|c inp IH]; intros bef b0 st H; simpl in H.
  - destruct (RegExp.matcher r (RegExp.mkState bef [] []) Some) as [st'|] eqn:E;
      [|discriminate].
    injection H as <- <-.
    apply matcher_sound in E as (w & after & caps & Hr & Hm & Hk).
    simpl in *. injection Hk as <-. simpl.
    exists [], w. auto.
  - destruct (RegExp.matcher r (RegExp.mkState bef (c :: inp) []) Some)
      as [st'|] eqn:E.
    + injection H as <- <-.
      apply matcher_sound in E as (w & after & caps & Hr & Hm & Hk).
      simpl in *. injection Hk as <-. simpl.
      exists [], w. auto.
    + apply IH in H as (skipped & w & Hinp & Hb0 & Hbef & Hm).
      exists (c :: skipped), w. simpl.
      split; [rewrite Hinp; reflexivity|].
      split; [rewrite Hb0, <- app_assoc; reflexivity|auto].
Qed.

(** Each result of the iteration is a stretch of the text that the
    pattern matches in its context. *)
Lemma match_loop_sound r : ∀ fuel bef inp m,
  m ∈ RegExp.match_loop fuel r bef inp →
  ∃ pre w after,
    rev bef ++ inp = pre ++ w ++ after
    ∧ RegExp.matches r (rev pre) w after
    ∧ RegExp.matched m = string_of_list_ascii w.
Proof.
  induction fuel as [|fuel IH]; intros bef inp m Hm; simpl in Hm.
  - inversion Hm.
  - destruct (RegExp.search r bef inp) as [[b0 st]|] eqn:Es; [|inversion Hm].
    apply search_sound in Es as (skipped & w & Hinp & Hb0 & Hbef & Hmat).
    assert (Hsame : rev (RegExp.before st) ++ RegExp.rest st = rev bef ++ inp).
    { rewrite Hbef, Hb0, Hinp, !rev_app_distr, !rev_involutive, <- !app_assoc.
      reflexivity. }
    apply elem_of_cons in Hm as [->|Hm].
    + exists (rev bef ++ skipped), w, (RegExp.rest st).
      split; [rewrite Hinp, <- app_assoc; reflexivity|].
      split.
      * rewrite rev_app_distr, rev_involutive, <- Hb0. exact Hmat.
      * unfold RegExp.result_of. simpl. rewrite Hbef. apply consumed_app.
    + destruct (length (RegExp.before st) =? length b0)%nat.
      * destruct (RegExp.rest st) as [|c rest'] eqn:Er; [inversion Hm|].
        apply IH in Hm as (pre & w' & after & Heq & Hm').
        exists pre, w', after. split; [|exact Hm'].
        rewrite <- Hsame, <- Heq. simpl. rewrite <- app_assoc. reflexivity.
      * apply IH in Hm as (pre & w' & after & Heq & Hm').
        exists pre, w', after. split; [|exact Hm'].
        rewrite <- Hsame. exact Heq.
Qed.

Lemma String_match_sound r text d :
  d ∈ String_match r text →
  ∃ pre w after,
    list_ascii_of_string text = pre ++ w ++ after
    ∧ RegExp.matches r (rev pre) w after
    ∧ d = string_of_list_ascii w.
Proof.
  unfold String_match. intros Hd.
  apply list_elem_of_fmap in Hd as (m & -> & Hm).
  apply match_loop_sound in Hm as (pre & w & after & Heq & Hmat & Hw).
  exists pre, w, after. auto.
Qed.

Lemma prefix_app (w after : list ascii) :
  String.prefix (string_of_list_ascii w) (string_of_list_ascii (w ++ after))
  = true.
Proof.
  induction w as [|c w IH]; simpl.
  - destruct (string_of_list_ascii after); reflexivity.
  - destruct (ascii_dec c c) as [_|Hne]; [exact IH|contradiction].
Qed.

Lemma includes_prefix (s t : string) :
  String.prefix t s = true → includes s t = true.
Proof. intros H. destruct s; cbn [includes]; rewrite H; reflexivity. Qed.

Lemma includes_app (pre w after : list ascii) :
  includes (string_of_list_ascii (pre ++ w ++ after)) (string_of_list_ascii w)
  = true.
Proof.
  induction pre as [|c pre IH].
  - cbn [app]. apply includes_prefix, prefix_app.
  - cbn [app string_of_list_ascii includes]. rewrite IH. apply orb_true_r.
Qed.

(* ----------------------------------------------------------------- *)
(** *** What [dateRegex] matches *)

Lemma in_range_Z lo hi c :
  in_range lo hi c = true →
  Z.of_N (code lo) ≤ Z.of_N (code c) ≤ Z.of_N (code hi).
Proof.
  unfold in_range. intros H. apply andb_true_iff in H as [H1 H2].
  apply N.leb_le in H1, H2. lia.
Qed.

Lemma is_digit_Z c :
  is_digit c = true ↔ 48 ≤ Z.of_N (code c) ≤ 57.
Proof.
  unfold is_digit, in_range.
  change (code "0") with 48%N. change (code "9") with 57%N.
  rewrite andb_true_iff, !N.leb_le. lia.
Qed.

Lemma decimal_value_1 c :
  is_digit c = true → decimal_value [c] = Some (Z.of_N (code c) - 48).
Proof.
  intros H. unfold decimal_value. cbn [forallb fold_left].
  rewrite H. cbn [andb]. f_equal.
Qed.

Lemma decimal_value_2 c1 c2 :
  is_digit c1 = true → is_digit c2 = true →
  decimal_value [c1; c2]
  = Some ((Z.of_N (code c1) - 48) * 10 + (Z.of_N (code c2) - 48)).
Proof.
  intros H1 H2. unfold decimal_value. cbn [forallb fold_left].
  rewrite H1, H2. cbn [andb]. f_equal.
Qed.

Lemma optional_zero (a : list ascii) :
  Forall (fun c => Ascii.eqb "0" c = true) a → (length a ≤ 1)%nat →
  a = [] ∨ a = ["0"%char].
Proof.
  intros Hall Hlen. destruct a as [|c [|c' a]]; [auto| |simpl in Hlen; lia].
  right. apply Forall_cons in Hall as [Hc _].
  apply Ascii.eqb_eq in Hc. subst c. reflexivity.
Qed.

(** [0?[1-9]] *)
Lemma small_number_value b w a :
  RegExp.matches
    (RegExp.Seq (RegExp.Repeat (Ascii.eqb "0") 0 (Some 1%nat))
                (RegExp.Char (in_range "1" "9"))) b w a →
  (length w ≤ 2)%nat ∧ ∃ v, decimal_value w = Some v ∧ 1 ≤ v ≤ 9.
Proof.
  cbn [RegExp.matches].
  intros (z & u & -> & (Hz & _ & Hlen) & (c & -> & Hc)).
  pose proof (in_range_Z _ _ _ Hc) as Hr.
  change (Z.of_N (code "1")) with 49 in Hr.
  change (Z.of_N (code "9")) with 57 in Hr.
  assert (Hd : is_digit c = true) by (apply is_digit_Z; lia).
  destruct (optional_zero z Hz Hlen) as [->| ->]; simpl app.
  - split; [simpl; lia|]. eexists. split; [apply decimal_value_1, Hd|lia].
  - split; [simpl; lia|]. eexists.
    split; [apply decimal_value_2; [reflexivity|exact Hd]|].
    change (Z.of_N (code "0")) with 48. lia.
Qed.

Lemma two_chars_value b w a (c1lo c1hi c2lo c2hi : ascii) :
  RegExp.matches
    (RegExp.Seq (RegExp.Char (in_range c1lo c1hi))
                (RegExp.Char (in_range c2lo c2hi))) b w a →
  ∃ c1 c2, w = [c1; c2]
           ∧ Z.of_N (code c1lo) ≤ Z.of_N (code c1) ≤ Z.of_N (code c1hi)
           ∧ Z.of_N (code c2lo) ≤ Z.of_N (code c2) ≤ Z.of_N (code c2hi).
Proof.
  cbn [RegExp.matches].
  intros (u & v & -> & (c1 & -> & H1) & (c2 & -> & H2)).
  exists c1, c2. split; [reflexivity|]. split; apply in_range_Z; assumption.
Qed.

Lemma lit_then_char_value b w a (l c2lo c2hi : ascii) :
  RegExp.matches
    (RegExp.Seq (RegExp.lit l) (RegExp.Char (in_range c2lo c2hi))) b w a →
  ∃ c2, w = [l; c2]
        ∧ Z.of_N (code c2lo) ≤ Z.of_N (code c2) ≤ Z.of_N (code c2hi).
Proof.
  cbn [RegExp.matches RegExp.lit].
  intros (u & v & -> & (c1 & -> & H1) & (c2 & -> & H2)).
  apply Ascii.eqb_eq in H1. subst c1.
  exists c2. split; [reflexivity|]. apply in_range_Z. exact H2.
Qed.

Lemma two_digit_value c1 c2 lo hi :
  48 ≤ Z.of_N (code c1) ≤ 57 → 48 ≤ Z.of_N (code c2) ≤ 57 →
  lo ≤ (Z.of_N (code c1) - 48) * 10 + (Z.of_N (code c2) - 48) ≤ hi →
  (length [c1; c2] ≤ 2)%nat
  ∧ ∃ v, decimal_value [c1; c2] = Some v ∧ lo ≤ v ≤ hi.
Proof.
  intros H1 H2 Hv. split; [simpl; lia|]. eexists.
  split; [apply decimal_value_2; apply is_digit_Z; assumption|exact Hv].
Qed.

(** Every text that [dateRegex] matches is a date in slash form. *)
Lemma dateRegex_slash_date b w a :
  RegExp.matches dateRegex b w a → slash_date (string_of_list_ascii w).
Proof.
  unfold dateRegex, RegExp.sequence.
  cbn [fold_right]. cbn [RegExp.matches]. fold (RegExp.lit "/").
  intros (w1 & r1 & -> & [-> _]
          & wm & r2 & -> & Hmonth
          & s1 & r3 & -> & (c1 & -> & Hs1)
          & wd & r4 & -> & Hday
          & s2 & r5 & -> & (c2 & -> & Hs2)
          & wy & r6 & -> & (Hy & Hy4 & Hy4')
          & w2 & r7 & -> & [-> _] & ->).
  apply Ascii.eqb_eq in Hs1, Hs2. subst c1 c2.
  assert (Hm : (length wm ≤ 2)%nat
               ∧ ∃ v, decimal_value wm = Some v ∧ 1 ≤ v ≤ 12).
  { destruct Hmonth as [H|H].
    - apply (small_number_value [] _ []) in H as [Hl (v & Hv & Hr)].
      split; [exact Hl|]. exists v. split; [exact Hv|lia].
    - apply (lit_then_char_value [] _ []) in H as (c & -> & Hr).
      change (Z.of_N (code "0")) with 48 in Hr.
      change (Z.of_N (code "2")) with 50 in Hr.
      apply two_digit_value; change (Z.of_N (code "1")) with 49; lia. }
  assert (Hd : (length wd ≤ 2)%nat
               ∧ ∃ v, decimal_value wd = Some v ∧ 1 ≤ v ≤ 31).
  { destruct Hday as [H|[H|H]].
    - apply (small_number_value [] _ []) in H as [Hl (v & Hv & Hr)].
      split; [exact Hl|]. exists v. split; [exact Hv|lia].
    - apply (two_chars_value [] _ []) in H as (d1 & d2 & -> & Hr1 & Hr2).
      change (Z.of_N (code "1")) with 49 in Hr1.
      change (Z.of_N (code "2")) with 50 in Hr1.
      change (Z.of_N (code "0")) with 48 in Hr2.
      change (Z.of_N (code "9")) with 57 in Hr2.
      apply two_digit_value; lia.
    - apply (lit_then_char_value [] _ []) in H as (c & -> & Hr).
      change (Z.of_N (code "0")) with 48 in Hr.
      change (Z.of_N (code "1")) with 49 in Hr.
      apply two_digit_value; change (Z.of_N (code "3")) with 51; lia. }
  destruct Hm as [Hml Hmv]. destruct Hd as [Hdl Hdv].
  exists wm, wd, wy.
  rewrite list_ascii_of_string_of_list_ascii.
  split; [simpl; rewrite app_nil_r; reflexivity|].
  repeat split; auto. lia.
Qed.

Lemma has_text_Some e :
  has_text e = true → ∃ text, Evidence.ocrText e = Some text.
Proof.
  unfold has_text. destruct (Evidence.ocrText e) as [t|]; [eauto|discriminate].
Qed.

(** C10. A [metadata_mismatch] record in the result always comes from a
    stretch of the cited evidence's text that is a date in the numeric
    slash form month/day/four-digit-year and that the platform reads as a
    time after the creation time; a date mentioned in any other way yields
    no such record. *)
Theorem metadata_mismatch_only_slash_dates (P : Platform)
    (reports : list Report.t) (evidence : list Evidence.t) (tape : Tape)
    (c : Contradiction.t) :
  c ∈ runContradictionAnalysis P reports evidence tape →
  Contradiction.type c = metadata_mismatch →
  ∃ e text dateStr,
    e ∈ evidence
    ∧ Contradiction.sources c = [Evidence.id e]
    ∧ Evidence.ocrText e = Some text
    ∧ dateStr ∈ String_match dateRegex text
    ∧ includes text dateStr = true
    ∧ slash_date dateStr
    ∧ Date_gt (Date_parse P dateStr) (Evidence.createdAt e) = true.
Proof.
  intros Hc Hty.
  apply result_from_pass in Hc as (pass & c0 & n & Hp & Hc0 & -> & _).
  simpl in Hty.
  apply analyzeContradictionsOnce_cases in Hc0.
  destruct Hc0 as [[Hty0 _] | [(e & d & He & Ht & Hd & Hgt & ->) | [Hty0 _]]];
    [congruence| |congruence].
  destruct (has_text_Some e Ht) as [text Htext].
  rewrite Htext in Hd. simpl in Hd.
  exists e, text, d.
  split.
  { destruct Hp as [_ Hpe]. rewrite <- Hpe.
    eapply scope_in_evidence. exact He. }
  split; [reflexivity|]. split; [exact Htext|]. split; [exact Hd|].
  pose proof Hd as Hd'.
  apply String_match_sound in Hd' as (pre & w & after & Heq & Hm & ->).
  split.
  - rewrite <- (string_of_list_ascii_of_string text), Heq.
    apply includes_app.
  - split; [|exact Hgt]. eapply dateRegex_slash_date. exact Hm.
Qed.

Lemma metadata_mismatch_only_slash_dates_witness :
  ∃ e text dateStr,
    e ∈ [ev_two_dates]
    ∧ Contradiction.sources demo_mismatch_record = [Evidence.id e]
    ∧ Evidence.ocrText e = Some text
    ∧ dateStr ∈ String_match dateRegex text
    ∧ includes text dateStr = true
    ∧ slash_date dateStr
    ∧ Date_gt (ReferencePlatform.parse dateStr) (Evidence.createdAt e) = true.
Proof.
  refine (metadata_mismatch_only_slash_dates ReferencePlatform.platform
            [report_A] [ev_two_dates] [] demo_mismatch_record _ _).
  - vm_compute. left.
  - reflexivity.
Defined.

(** Dates in other forms are not seen by [dateRegex]. *)
Example other_date_forms_not_matched :
  String_match dateRegex "2027-03-14" = []
  ∧ String_match dateRegex "14 March 2027" = []
  ∧ String_match dateRegex "14.03.2027" = []
  ∧ String_match dateRegex "March 14, 2027" = []
  ∧ String_match dateRegex "3/14/2027" = ["3/14/2027"].
Proof. repeat split; vm_compute; reflexivity. Qed.

(* ----------------------------------------------------------------- *)
(** *** Keys and the fields they are built from *)

Lemma append_assoc (s t u : string) : (s +:+ t) +:+ u = s +:+ (t +:+ u).
Proof.
  induction s as [|c s IH]; [reflexivity|].
  change (String c ((s +:+ t) +:+ u) = String c (s +:+ (t +:+ u))).
  rewrite IH. reflexivity.
Qed.

Lemma key_from_fields c1 c2 :
  key_fields c1 = key_fields c2 → contradiction_key c1 = contradiction_key c2.
Proof.
  unfold key_fields, contradiction_key. intros [= -> -> ->]. reflexivity.
Qed.

Lemma single_source_key c id :
  RawContradiction.sources c = [id] →
  contradiction_key c
  = (type_string (RawContradiction.type c) +:+ "-")
    +:+ (id +:+ ("-" +:+ RawContradiction.explanation c)).
Proof.
  intros Hs. unfold contradiction_key. rewrite Hs.
  change (join "-" (Array_sort [id])) with id.
  rewrite !append_assoc. reflexivity.
Qed.

Lemma Array_sort_two a b :
  Array_sort [a; b] = [a; b] ∨ Array_sort [a; b] = [b; a].
Proof.
  unfold Array_sort. simpl. destruct (String.leb a b); auto.
Qed.

Lemma two_sources_key c a b :
  RawContradiction.sources c = [a; b] →
  ∃ x y,
    Array_sort (RawContradiction.sources c) = [x; y]
    ∧ ((x = a ∧ y = b) ∨ (x = b ∧ y = a))
    ∧ contradiction_key c
      = (type_string (RawContradiction.type c) +:+ "-")
        +:+ (x +:+ ("-" +:+ (y +:+ ("-" +:+ RawContradiction.explanation c)))).
Proof.
  intros Hs. unfold contradiction_key. rewrite Hs.
  destruct (Array_sort_two a b) as [-> | ->].
  - exists a, b. split; [reflexivity|]. split; [auto|].
    change (join "-" [a; b]) with (a +:+ ("-" +:+ b)).
    rewrite !append_assoc. reflexivity.
  - exists b, a. split; [reflexivity|]. split; [auto|].
    change (join "-" [b; a]) with (b +:+ ("-" +:+ a)).
    rewrite !append_assoc. reflexivity.
Qed.

(** What the key needs to know of a record of a pass: one cited id, or
    two for a drift. *)
Lemma pass_record_sources P reports evidenceList c :
  c ∈ analyzeContradictionsOnce P reports evidenceList →
  (RawContradiction.type c = cross_doc_drift
   ∧ ∃ evA evB, evA ∈ evidenceList ∧ evB ∈ evidenceList
       ∧ RawContradiction.sources c = [Evidence.id evA; Evidence.id evB])
  ∨ (RawContradiction.type c ≠ cross_doc_drift
     ∧ ∃ e, e ∈ evidenceList ∧ RawContradiction.sources c = [Evidence.id e]).
Proof.
  intros Hc. apply analyzeContradictionsOnce_cases in Hc.
  destruct Hc as [[Hty (a & b & Ha & Hb & Hs & _)]
                 | [(e & d & He & _ & _ & _ & ->) | [Hty (e & He & _ & Hs)]]].
  - left. split; [exact Hty|]. exists a, b.
    split; [eapply scope_in_evidence; exact Ha|].
    split; [eapply scope_in_evidence; exact Hb|exact Hs].
  - right. split; [discriminate|]. exists e.
    split; [eapply scope_in_evidence; exact He|reflexivity].
  - right. split; [rewrite Hty; discriminate|]. exists e.
    split; [eapply scope_in_evidence; exact He|exact Hs].
Qed.

(** With ids of one length, records of passes with the same key have the
    same type, sorted sources and explanation. *)
Lemma pass_records_key_inj P reports evidence pass1 pass2 c1 c2 :
  ids_same_length evidence →
  reordering reports evidence pass1 →
  reordering reports evidence pass2 →
  c1 ∈ analyzeContradictionsOnce P pass1.1 pass1.2 →
  c2 ∈ analyzeContradictionsOnce P pass2.1 pass2.2 →
  contradiction_key c1 = contradiction_key c2 →
  key_fields c1 = key_fields c2.
Proof.
  intros Hlen [_ Hp1] [_ Hp2] H1 H2 Hk.
  pose proof (key_determines_type _ _ Hk) as Hty.
  apply pass_record_sources in H1, H2.
  unfold key_fields.
  destruct H1 as [[Ht1 (a1 & b1 & Ha1 & Hb1 & Hs1)] | [Ht1 (e1 & He1 & Hs1)]];
    destruct H2 as [[Ht2 (a2 & b2 & Ha2 & Hb2 & Hs2)] | [Ht2 (e2 & He2 & Hs2)]];
    try congruence.
  - rewrite Hp1 in Ha1, Hb1. rewrite Hp2 in Ha2, Hb2.
    destruct (two_sources_key _ _ _ Hs1) as (x1 & y1 & Hsort1 & Hxy1 & Hk1).
    destruct (two_sources_key _ _ _ Hs2) as (x2 & y2 & Hsort2 & Hxy2 & Hk2).
    rewrite Hk1, Hk2, Hty in Hk.
    apply (inj (String.append _)) in Hk.
    assert (Hx : String.length x1 = String.length x2).
    { destruct Hxy1 as [[-> _]|[-> _]], Hxy2 as [[-> _]|[-> _]];
        apply Hlen; assumption. }
    assert (Hy : String.length y1 = String.length y2).
    { destruct Hxy1 as [[_ ->]|[_ ->]], Hxy2 as [[_ ->]|[_ ->]];
        apply Hlen; assumption. }
    destruct (append_eq_same_length _ _ _ _ Hk Hx) as [-> Hk'].
    apply (inj (String.append "-")) in Hk'.
    destruct (append_eq_same_length _ _ _ _ Hk' Hy) as [-> Hk''].
    apply (inj (String.append "-")) in Hk''.
    rewrite Hsort1, Hsort2, Hty, Hk''. reflexivity.
  - rewrite Hp1 in He1. rewrite Hp2 in He2.
    rewrite (single_source_key _ _ Hs1), (single_source_key _ _ Hs2), Hty in Hk.
    apply (inj (String.append _)) in Hk.
    destruct (append_eq_same_length _ _ _ _ Hk (Hlen _ _ He1 He2)) as [Hid Hk'].
    apply (inj (String.append "-")) in Hk'.
    rewrite Hs1, Hs2, Hty, Hid, Hk'. reflexivity.
Qed.

Lemma found_from_pass P reports evidence tape c k :
  (c, k) ∈ allFoundContradictions P 3 reports evidence tape →
  ∃ pass, reordering reports evidence pass
          ∧ c ∈ analyzeContradictionsOnce P pass.1 pass.2.
Proof.
  intros Hc.
  destruct (allFound_passes P 3 reports evidence tape)
    as (passes & _ & Hall & Heq).
  rewrite Heq in Hc.
  apply list_elem_of_In, in_flat_map in Hc as (pass & Hp & Hc).
  apply list_elem_of_In in Hp. apply list_elem_of_In in Hc.
  unfold pass_found in Hc.
  apply list_elem_of_fmap in Hc as (c1 & Heq1 & Hc1).
  injection Heq1 as <- _.
  exists pass. split; [|exact Hc1].
  rewrite Forall_forall in Hall. apply Hall. exact Hp.
Qed.

Lemma key_of_from_fields r1 r2 :
  key_fields_of r1 = key_fields_of r2 → key_of r1 = key_of r2.
Proof.
  unfold key_fields_of, key_of. intros [= -> -> ->]. reflexivity.
Qed.

(** C3. Whatever the input and the shuffles, the result holds one record
    for each key that the three passes pushed, and no other; the record's
    tier is [verification_of] applied to the number of times its key was
    pushed, which is 'Verified (3/3)' for 3, 'Consensus (2/3)' for 2 and
    'Inconclusive (≤1/3)' for 1 and for 0. The key is a string built from
    the type, the sorted sources and the explanation; when the evidence
    ids have one length it stands for these three fields exactly, so that
    every finding of a pass has one and only one record with its type,
    sorted sources and explanation. *)
Theorem runContradictionAnalysis_one_record_per_key (P : Platform)
    (reports : list Report.t) (evidence : list Evidence.t) (tape : Tape) :
  let found := allFoundContradictions P 3 reports evidence tape in
  let result := runContradictionAnalysis P reports evidence tape in
  NoDup (map key_of result)
  ∧ (∀ k, k ∈ map key_of result ↔ k ∈ map snd found)
  ∧ (∀ c, c ∈ result →
          Contradiction.verification c
          = verification_of (occurrences (key_of c) found))
  ∧ verification_of 3 = Verified_3_3
  ∧ verification_of 2 = Consensus_2_3
  ∧ verification_of 1 = Inconclusive_1_3
  ∧ verification_of 0 = Inconclusive_1_3
  ∧ (ids_same_length evidence →
     ∀ c k, (c, k) ∈ found →
       ∃ r, r ∈ result
            ∧ key_fields_of r = key_fields c
            ∧ ∀ r', r' ∈ result → key_fields_of r' = key_fields c → r' = r).
Proof.
  intros found result.
  pose proof (contradictionCounts_counted found) as (Hnd & Hkeys & Hent).
  pose proof (result_NoDup_keys P reports evidence tape) as Hnodup.
  fold result in Hnodup.
  split; [exact Hnodup|].
  split; [unfold result; rewrite result_keys; exact Hkeys|].
  split.
  { intros c Hc. apply result_entries in Hc as (k & c0 & n & Hin & ->).
    fold found in Hin. destruct (Hent _ _ _ Hin) as [-> Hc0].
    rewrite key_of_of_raw.
    rewrite <- (allFound_keys P 3 reports evidence tape c0 k Hc0).
    reflexivity. }
  do 4 (split; [reflexivity|]).
  intros Hlen c k Hck.
  assert (Hk : k ∈ map fst (contradictionCounts found)).
  { apply Hkeys. apply list_elem_of_fmap. exists (c, k). auto. }
  apply list_elem_of_fmap in Hk as ([k0 [c0 n]] & Hk0 & Hentry).
  simpl in Hk0. subst k0.
  destruct (Hent _ _ _ Hentry) as [_ Hc0].
  pose proof (allFound_keys _ _ _ _ _ _ _ Hc0) as Hkey0.
  pose proof (allFound_keys _ _ _ _ _ _ _ Hck) as Hkey.
  destruct (found_from_pass _ _ _ _ _ _ Hc0) as (pass0 & Hp0 & Hin0).
  destruct (found_from_pass _ _ _ _ _ _ Hck) as (pass & Hp & Hin).
  assert (Hfields : key_fields c0 = key_fields c).
  { apply (pass_records_key_inj P reports evidence pass0 pass c0 c
             Hlen Hp0 Hp Hin0 Hin).
    rewrite <- Hkey0, <- Hkey. reflexivity. }
  exists (Contradiction.of_raw c0 (verification_of n)).
  split; [apply result_entries; eauto|].
  split; [exact Hfields|].
  intros r' Hr' Hf'.
  apply (NoDup_map_inj key_of result); auto.
  - apply result_entries. eauto.
  - apply key_of_from_fields. rewrite Hf'. symmetry. exact Hfields.
Qed.

Lemma runContradictionAnalysis_one_record_per_key_witness :
  ∃ r, r ∈ runContradictionAnalysis ReferencePlatform.platform
             [report_A] [ev_two_dates] []
       ∧ key_fields_of r
         = key_fields (metadata_record ReferencePlatform.platform
                                       ev_two_dates "3/14/2027")
       ∧ ∀ r', r' ∈ runContradictionAnalysis ReferencePlatform.platform
                      [report_A] [ev_two_dates] [] →
               key_fields_of r'
               = key_fields (metadata_record ReferencePlatform.platform
                                             ev_two_dates "3/14/2027") →
               r' = r.
Proof.
  refine (proj2 (proj2 (proj2 (proj2 (proj2 (proj2 (proj2
    (runContradictionAnalysis_one_record_per_key ReferencePlatform.platform
       [report_A] [ev_two_dates] []))))))) _
    (metadata_record ReferencePlatform.platform ev_two_dates "3/14/2027")
    (contradiction_key
       (metadata_record ReferencePlatform.platform ev_two_dates "3/14/2027"))
    _).
  - intros e1 e2 H1 H2.
    apply list_elem_of_singleton in H1, H2. subst e1 e2. reflexivity.
  - vm_compute. left.
Defined.

(* ----------------------------------------------------------------- *)
(** *** The bounded loops stop before their bound *)

Lemma search_shrinks r bef inp b0 st :
  RegExp.search r bef inp = Some (b0, st) →
  ∃ w, RegExp.matches r b0 w (RegExp.rest st)
       ∧ (length (RegExp.rest st) + length w ≤ length inp)%nat
       ∧ length (RegExp.before st) = (length w + length b0)%nat.
Proof.
  intros H. apply search_sound in H as (skipped & w & -> & _ & Hbef & Hm).
  exists w. split; [exact Hm|].
  rewrite !length_app, Hbef, length_app, length_rev. lia.
Qed.

(** [String.prototype.match] with a global pattern: more iterations than
    the text has characters are never used. *)
Lemma match_loop_fuel r : ∀ fuel1 fuel2 bef inp,
  (length inp < fuel1)%nat → (length inp < fuel2)%nat →
  RegExp.match_loop fuel1 r bef inp = RegExp.match_loop fuel2 r bef inp.
Proof.
  induction fuel1 as [|fuel1 IH]; intros [|fuel2] bef inp H1 H2; try lia.
  simpl.
  destruct (RegExp.search r bef inp) as [[b0 st]|] eqn:Es; [|reflexivity].
  apply search_shrinks in Es as (w & _ & Hle & Hbef).
  f_equal.
  destruct (Nat.eqb_spec (length (RegExp.before st)) (length b0)) as [Heq|Hne].
  - destruct (RegExp.rest st) as [|c rest'] eqn:Er; [reflexivity|].
    simpl in Hle. apply IH; lia.
  - apply IH; lia.
Qed.

(** The [exec] loop on a pattern that matches no empty text ends within
    as many iterations as the text has characters. *)
Lemma exec_loop_fuel r :
  never_empty r →
  ∀ fuel1 fuel2 bef inp,
    (length inp < fuel1)%nat → (length inp < fuel2)%nat →
    RegExp.exec_loop fuel1 r bef inp = RegExp.exec_loop fuel2 r bef inp.
Proof.
  intros Hne.
  induction fuel1 as [|fuel1 IH]; intros [|fuel2] bef inp H1 H2; try lia.
  simpl.
  destruct (RegExp.search r bef inp) as [[b0 st]|] eqn:Es; [|reflexivity].
  apply search_shrinks in Es as (w & Hm & Hle & _).
  assert (length w ≠ 0)%nat.
  { destruct w; [|discriminate]. exfalso. exact (Hne _ _ Hm). }
  f_equal. apply IH; lia.
Qed.

Lemma omissionRegex_never_empty : never_empty omissionRegex.
Proof.
  intros b a. unfold omissionRegex, RegExp.sequence.
  cbn [fold_right]. cbn [RegExp.matches].
  intros (w1 & r1 & Hw & _ & w2 & r2 & -> & (_ & Hmin & _) & _).
  symmetry in Hw. apply app_eq_nil in Hw as [_ Hw].
  apply app_eq_nil in Hw as [-> _]. simpl in Hmin. lia.
Qed.

Lemma dateRegex_never_empty : never_empty dateRegex.
Proof.
  intros b a H. apply dateRegex_slash_date in H.
  destruct H as (m & d & y & H & _). simpl in H.
  destruct m; discriminate H.
Qed.

Lemma length_list_ascii_of_string s :
  length (list_ascii_of_string s) = String.length s.
Proof. induction s as [|c s IH]; simpl; [reflexivity|]. rewrite IH. reflexivity. Qed.

(* ----------------------------------------------------------------- *)
(** *** The matcher finds what the pattern describes *)

Lemma repeat_greedy_complete p : ∀ w a min max bef caps
    (k : RegExp.state → option RegExp.state),
  Forall (fun c => p c = true) w →
  (min ≤ length w)%nat →
  match max with Some n => (length w ≤ n)%nat | None => True end →
  k (RegExp.mkState (rev w ++ bef) a caps) ≠ None →
  RegExp.repeat_greedy p min max bef (w ++ a) caps k ≠ None.
Proof.
  induction w as [|c w IH]; intros a min max bef caps k Hall Hmin Hmax Hk.
  - simpl in Hmin, Hk. assert (min = 0%nat) as -> by lia.
    destruct a as [|c a]; simpl; [exact Hk|].
    destruct (p c && match max with Some O => false | _ => true end);
      [|exact Hk].
    destruct (RegExp.repeat_greedy p 0 (Nat.pred <$> max) (c :: bef) a caps k);
      [discriminate|exact Hk].
  - apply Forall_cons in Hall as [Hc Hall]. simpl. rewrite Hc.
    assert (Hm : match max with Some O => false | _ => true end = true).
    { destruct max as [[|n]|]; simpl in Hmax; [lia|reflexivity|reflexivity]. }
    rewrite Hm. simpl.
    assert (Hrec : RegExp.repeat_greedy p (Nat.pred min) (Nat.pred <$> max)
                     (c :: bef) (w ++ a) caps k ≠ None).
    { apply IH.
      - exact Hall.
      - simpl in Hmin. lia.
      - destruct max as [n|]; simpl in *; [lia|exact I].
      - simpl in Hk. rewrite <- app_assoc in Hk. exact Hk. }
    destruct (RegExp.repeat_greedy p (Nat.pred min) (Nat.pred <$> max)
                (c :: bef) (w ++ a) caps k); [discriminate|contradiction].
Qed.

(** Where the pattern matches a stretch [w] and the continuation accepts
    the position after it, the matcher succeeds (on [w] or on a stretch it
    tries earlier). *)
Lemma matcher_complete r : ∀ b w a caps (k : RegExp.state → option RegExp.state),
  RegExp.matches r b w a →
  (∀ caps', k (RegExp.mkState (rev w ++ b) a caps') ≠ None) →
  RegExp.matcher r (RegExp.mkState b (w ++ a) caps) k ≠ None.
Proof.
  induction r as [|p|p min max|r1 IH1 r2 IH2|r1 IH1 r2 IH2| | |r IH];
    intros b w a caps k Hm Hk; simpl in Hm |- *.
  - subst w. apply Hk.
  - destruct Hm as (c & -> & Hc). simpl. rewrite Hc. apply Hk.
  - destruct Hm as (Hall & Hmin & Hmax).
    apply repeat_greedy_complete; auto.
  - destruct Hm as (w1 & w2 & -> & Hm1 & Hm2).
    rewrite <- app_assoc. apply IH1; [exact Hm1|].
    intros caps'. apply IH2; [exact Hm2|].
    intros caps''. rewrite app_assoc, <- rev_app_distr. apply Hk.
  - destruct (RegExp.matcher r1 (RegExp.mkState b (w ++ a) caps) k) eqn:E;
      [discriminate|].
    destruct Hm as [Hm|Hm].
    + exfalso. revert E. apply IH1; assumption.
    + apply IH2; assumption.
  - destruct Hm as [-> Hx]. simpl. rewrite Hx. apply Hk.
  - destruct Hm as [-> ->]. simpl. apply Hk.
  - apply IH; [exact Hm|]. intros caps'. simpl. apply Hk.
Qed.

(** The search stops at the first position where the matcher succeeds. *)
Lemma search_complete r : ∀ skipped bef rest0,
  RegExp.matcher r (RegExp.mkState (rev skipped ++ bef) rest0 []) Some ≠ None →
  ∃ b0 st, RegExp.search r bef (skipped ++ rest0) = Some (b0, st)
           ∧ (length b0 ≤ length skipped + length bef)%nat.
Proof.
  induction skipped as [|c skipped IH]; intros bef rest0 H.
  - simpl in H. simpl app.
    destruct (RegExp.matcher r (RegExp.mkState bef rest0 []) Some) as [st|] eqn:E;
      [|contradiction].
    exists bef, st. split; [|simpl; lia].
    destruct rest0; simpl; rewrite E; reflexivity.
  - simpl app. cbn [RegExp.search].
    destruct (RegExp.matcher r (RegExp.mkState bef (c :: skipped ++ rest0) []) Some)
      as [st|] eqn:E.
    + exists bef, st. split; [reflexivity|simpl; lia].
    + destruct (IH (c :: bef) rest0) as (b0 & st & Hs & Hl).
      { simpl in H. rewrite <- app_assoc in H. exact H. }
      exists b0, st. split; [exact Hs|]. simpl in Hl |- *. lia.
Qed.
(* ----------------------------------------------------------------- *)
(** *** [dateRegex] matches every date in slash form *)

Lemma in_range_of_Z lo hi c :
  Z.of_N (code lo) ≤ Z.of_N (code c) ≤ Z.of_N (code hi) →
  in_range lo hi c = true.
Proof.
  intros H. unfold in_range. apply andb_true_iff. rewrite !N.leb_le. lia.
Qed.

Lemma code_inj c (n : N) : (n < 256)%N → Z.of_N (code c) = Z.of_N n → c = ascii_of_N n.
Proof.
  intros _ H. apply N2Z.inj in H. unfold code in H.
  rewrite <- H. symmetry. apply ascii_N_embedding.
Qed.

Lemma is_digit_is_word c : is_digit c = true → is_word c = true.
Proof.
  intros H. unfold is_word. rewrite H, orb_true_r. reflexivity.
Qed.

Lemma decimal_value_digits m v :
  decimal_value m = Some v →
  m ≠ [] ∧ Forall (fun c => is_digit c = true) m.
Proof.
  unfold decimal_value. destruct m as [|c m]; [discriminate|].
  destruct (forallb is_digit (c :: m)) eqn:E; [|discriminate].
  intros _. split; [discriminate|].
  apply Forall_forall. intros x Hx.
  rewrite forallb_forall in E. apply E. apply list_elem_of_In. exact Hx.
Qed.

Lemma decimal_value_small m v :
  (length m ≤ 2)%nat → decimal_value m = Some v →
  (∃ c, m = [c] ∧ 48 ≤ Z.of_N (code c) ≤ 57 ∧ v = Z.of_N (code c) - 48)
  ∨ (∃ c1 c2, m = [c1; c2]
              ∧ 48 ≤ Z.of_N (code c1) ≤ 57 ∧ 48 ≤ Z.of_N (code c2) ≤ 57
              ∧ v = (Z.of_N (code c1) - 48) * 10 + (Z.of_N (code c2) - 48)).
Proof.
  intros Hl Hv. pose proof (decimal_value_digits _ _ Hv) as [Hne Hd].
  destruct m as [|c1 [|c2 [|c3 m]]]; [contradiction| | |simpl in Hl; lia].
  - left. exists c1. apply Forall_cons in Hd as [H1 _].
    rewrite (decimal_value_1 _ H1) in Hv. injection Hv as <-.
    apply is_digit_Z in H1. auto.
  - right. exists c1, c2.
    apply Forall_cons in Hd as [H1 Hd]. apply Forall_cons in Hd as [H2 _].
    rewrite (decimal_value_2 _ _ H1 H2) in Hv. injection Hv as <-.
    apply is_digit_Z in H1, H2. auto.
Qed.

(** [0?[1-9]] *)
Lemma small_number_matches b m a v :
  (length m ≤ 2)%nat → decimal_value m = Some v → 1 ≤ v ≤ 9 →
  RegExp.matches
    (RegExp.Seq (RegExp.Repeat (Ascii.eqb "0") 0 (Some 1%nat))
                (RegExp.Char (in_range "1" "9"))) b m a.
Proof.
  intros Hl Hv Hr. cbn [RegExp.matches].
  destruct (decimal_value_small _ _ Hl Hv)
    as [(c & -> & Hc & ->)|(c1 & c2 & -> & H1 & H2 & ->)].
  - exists [], [c]. split; [reflexivity|]. split.
    + split; [constructor|]. simpl. lia.
    + exists c. split; [reflexivity|]. apply in_range_of_Z.
      change (Z.of_N (code "1")) with 49. change (Z.of_N (code "9")) with 57. lia.
  - assert (c1 = "0"%char) as ->.
    { apply (code_inj c1 48); [reflexivity|]. lia. }
    exists ["0"%char], [c2]. split; [reflexivity|]. split.
    + split; [repeat constructor|]. simpl. lia.
    + exists c2. split; [reflexivity|]. apply in_range_of_Z.
      change (Z.of_N (code "0")) with 48 in Hr.
      change (Z.of_N (code "1")) with 49. change (Z.of_N (code "9")) with 57. lia.
Qed.

Lemma two_chars_matches b a (c1lo c1hi c2lo c2hi c1 c2 : ascii) :
  Z.of_N (code c1lo) ≤ Z.of_N (code c1) ≤ Z.of_N (code c1hi) →
  Z.of_N (code c2lo) ≤ Z.of_N (code c2) ≤ Z.of_N (code c2hi) →
  RegExp.matches
    (RegExp.Seq (RegExp.Char (in_range c1lo c1hi))
                (RegExp.Char (in_range c2lo c2hi))) b [c1; c2] a.
Proof.
  intros H1 H2. cbn [RegExp.matches].
  exists [c1], [c2]. split; [reflexivity|].
  split; eexists; (split; [reflexivity|apply in_range_of_Z; assumption]).
Qed.

Lemma lit_then_char_matches b a (l c2lo c2hi c2 : ascii) :
  Z.of_N (code c2lo) ≤ Z.of_N (code c2) ≤ Z.of_N (code c2hi) →
  RegExp.matches
    (RegExp.Seq (RegExp.lit l) (RegExp.Char (in_range c2lo c2hi))) b [l; c2] a.
Proof.
  intros H2. cbn [RegExp.matches RegExp.lit].
  exists [l], [c2]. split; [reflexivity|]. split.
  - exists l. split; [reflexivity|apply Ascii.eqb_refl].
  - exists c2. split; [reflexivity|apply in_range_of_Z; assumption].
Qed.

(** [(0?[1-9]|1[0-2])] *)
Lemma month_matches b m a v :
  (length m ≤ 2)%nat → decimal_value m = Some v → 1 ≤ v ≤ 12 →
  RegExp.matches
    (RegExp.Alt
       (RegExp.Seq (RegExp.Repeat (Ascii.eqb "0") 0 (Some 1%nat))
                   (RegExp.Char (in_range "1" "9")))
       (RegExp.Seq (RegExp.lit "1") (RegExp.Char (in_range "0" "2")))) b m a.
Proof.
  intros Hl Hv Hr.
  destruct (Z_le_gt_dec v 9) as [H9|H9].
  - left. apply (small_number_matches _ _ _ v); auto. lia.
  - right.
    destruct (decimal_value_small _ _ Hl Hv)
      as [(c & -> & Hc & ->)|(c1 & c2 & -> & H1 & H2 & ->)]; [lia|].
    assert (c1 = "1"%char) as ->.
    { apply (code_inj c1 49); [reflexivity|]. lia. }
    apply lit_then_char_matches.
    change (Z.of_N (code "1")) with 49 in *.
    change (Z.of_N (code "0")) with 48. change (Z.of_N (code "2")) with 50. lia.
Qed.

(** [(0?[1-9]|[12][0-9]|3[01])] *)
Lemma day_matches b d a v :
  (length d ≤ 2)%nat → decimal_value d = Some v → 1 ≤ v ≤ 31 →
  RegExp.matches
    (RegExp.Alt
       (RegExp.Seq (RegExp.Repeat (Ascii.eqb "0") 0 (Some 1%nat))
                   (RegExp.Char (in_range "1" "9")))
       (RegExp.Alt
          (RegExp.Seq (RegExp.Char (in_range "1" "2"))
                      (RegExp.Char (in_range "0" "9")))
          (RegExp.Seq (RegExp.lit "3") (RegExp.Char (in_range "0" "1")))))
    b d a.
Proof.
  intros Hl Hv Hr.
  destruct (Z_le_gt_dec v 9) as [H9|H9].
  - left. apply (small_number_matches _ _ _ v); auto. lia.
  - right.
    destruct (decimal_value_small _ _ Hl Hv)
      as [(c & -> & Hc & ->)|(c1 & c2 & -> & H1 & H2 & ->)]; [lia|].
    destruct (Z_le_gt_dec (Z.of_N (code c1)) 50) as [H2x|H3x].
    + left. apply two_chars_matches.
      * change (Z.of_N (code "1")) with 49. change (Z.of_N (code "2")) with 50. lia.
      * change (Z.of_N (code "0")) with 48. change (Z.of_N (code "9")) with 57. lia.
    + right. assert (c1 = "3"%char) as ->.
      { apply (code_inj c1 51); [reflexivity|]. lia. }
      apply lit_then_char_matches.
      change (Z.of_N (code "3")) with 51 in *.
      change (Z.of_N (code "0")) with 48. change (Z.of_N (code "1")) with 49. lia.
Qed.

(** A date in slash form that neither follows nor precedes a word
    character is matched by [dateRegex]. *)
Lemma slash_date_matches b w a :
  slash_date (string_of_list_ascii w) →
  RegExp.word_at b = false → RegExp.word_at a = false →
  RegExp.matches dateRegex b w a.
Proof.
  intros (m & d & y & Hw & Hml & (vm & Hvm & Hmr) & Hdl & (vd & Hvd & Hdr)
          & Hyl & Hy) Hb Ha.
  rewrite list_ascii_of_string_of_list_ascii in Hw. subst w.
  pose proof (decimal_value_digits _ _ Hvm) as [Hmne Hmd].
  unfold dateRegex, RegExp.sequence.
  cbn [fold_right]. cbn [RegExp.matches]. fold (RegExp.lit "/").
  exists [], (m ++ "/"%char :: d ++ "/"%char :: y).
  split; [reflexivity|]. split.
  { split; [reflexivity|]. rewrite Hb. simpl.
    destruct m as [|c m]; [contradiction|].
    apply Forall_cons in Hmd as [Hc _]. simpl. apply is_digit_is_word, Hc. }
  exists m, ("/"%char :: d ++ "/"%char :: y).
  split; [reflexivity|]. split; [eapply month_matches; eassumption|].
  exists ["/"%char], (d ++ "/"%char :: y).
  split; [reflexivity|]. split.
  { exists "/"%char. split; [reflexivity|apply Ascii.eqb_refl]. }
  exists d, ("/"%char :: y).
  split; [reflexivity|]. split; [eapply day_matches; eassumption|].
  exists ["/"%char], y.
  split; [reflexivity|]. split.
  { exists "/"%char. split; [reflexivity|apply Ascii.eqb_refl]. }
  exists y, [].
  split; [rewrite app_nil_r; reflexivity|]. split.
  { split; [exact Hy|]. lia. }
  exists [], []. split; [reflexivity|]. split; [|reflexivity].
  split; [reflexivity|]. cbn [app]. rewrite Ha, xorb_false_r.
  destruct y as [|y1 [|y2 [|y3 [|y4 [|y5 y]]]]]; try discriminate Hyl.
  simpl. apply is_digit_is_word.
  rewrite Forall_forall in Hy. apply Hy.
  apply list_elem_of_In. simpl. tauto.
Qed.
(* ----------------------------------------------------------------- *)
(** *** Every written date is found *)

Lemma digits_sep (a : list ascii) : ∀ a' x x' r r',
  Forall (fun c => is_digit c = true) a →
  Forall (fun c => is_digit c = true) a' →
  is_digit x = false → is_digit x' = false →
  a ++ x :: r = a' ++ x' :: r' → a = a' ∧ x = x' ∧ r = r'.
Proof.
  induction a as [|c a IH]; intros [|c' a'] x x' r r' Ha Ha' Hx Hx' E;
    simpl in E; injection E as E1 E2.
  - auto.
  - subst x. apply Forall_cons in Ha' as [Hc _]. congruence.
  - subst x'. apply Forall_cons in Ha as [Hc _]. congruence.
  - subst c'. apply Forall_cons in Ha as [_ Ha]. apply Forall_cons in Ha' as [_ Ha'].
    destruct (IH _ _ _ _ _ Ha Ha' Hx Hx' E2) as (-> & -> & ->). auto.
Qed.

Lemma digits_prefix_le (a : list ascii) : ∀ rest a' x r',
  Forall (fun c => is_digit c = true) a → is_digit x = false →
  a ++ rest = a' ++ x :: r' → (length a ≤ length a')%nat.
Proof.
  induction a as [|c a IH]; intros rest [|c' a'] x r' Ha Hx E; simpl in *;
    try lia.
  - injection E as E1 E2. subst x. apply Forall_cons in Ha as [Hc _]. congruence.
  - injection E as E1 E2. apply Forall_cons in Ha as [_ Ha].
    pose proof (IH _ _ _ _ Ha Hx E2). lia.
Qed.

Lemma split_at_nondigit (a : list ascii) : ∀ s R p x q,
  Forall (fun c => is_digit c = true) a → is_digit x = false →
  a ++ s :: R = p ++ x :: q →
  (p = a ∧ x = s ∧ q = R) ∨ (∃ p3, p = a ++ s :: p3 ∧ R = p3 ++ x :: q).
Proof.
  induction a as [|c a IH]; intros s R [|c' p] x q Ha Hx E; simpl in E;
    injection E as E1 E2.
  - left. auto.
  - right. exists p. subst c'. auto.
  - subst x. apply Forall_cons in Ha as [Hc _]. congruence.
  - subst c'. apply Forall_cons in Ha as [_ Ha].
    destruct (IH _ _ _ _ _ Ha Hx E2) as [(-> & -> & ->)|(p3 & -> & ->)].
    + left. auto.
    + right. exists p3. auto.
Qed.

Lemma app_eq_app_le {A} (l1 : list A) : ∀ l2 l1' l2',
  l1 ++ l2 = l1' ++ l2' → (length l1' ≤ length l1)%nat →
  ∃ l, l1 = l1' ++ l ∧ l2' = l ++ l2.
Proof.
  induction l1 as [|x l1 IH]; intros l2 [|x' l1'] l2' E Hl; simpl in *.
  - exists []. auto.
  - lia.
  - exists (x :: l1). auto.
  - injection E as -> E. destruct (IH _ _ _ E) as (l & -> & ->); [lia|].
    exists l. auto.
Qed.

(** The parts of a date in slash form. *)
Lemma slash_date_parts w :
  slash_date (string_of_list_ascii w) →
  ∃ m d y, w = m ++ "/"%char :: d ++ "/"%char :: y
           ∧ m ≠ [] ∧ Forall (fun c => is_digit c = true) m ∧ (length m ≤ 2)%nat
           ∧ Forall (fun c => is_digit c = true) d ∧ (length d ≤ 2)%nat
           ∧ Forall (fun c => is_digit c = true) y ∧ length y = 4%nat.
Proof.
  intros (m & d & y & Hw & Hml & (vm & Hvm & _) & Hdl & (vd & Hvd & _) & Hyl & Hy).
  rewrite list_ascii_of_string_of_list_ascii in Hw.
  destruct (decimal_value_digits _ _ Hvm) as [Hne Hmd].
  destruct (decimal_value_digits _ _ Hvd) as [_ Hdd].
  exists m, d, y. auto 10.
Qed.

(** Two dates in slash form that start at one place are one date. *)
Lemma slash_dates_same_start M rest w post :
  slash_date (string_of_list_ascii M) → slash_date (string_of_list_ascii w) →
  M ++ rest = w ++ post → M = w.
Proof.
  intros HM Hw E.
  apply slash_date_parts in HM as (m & d & y & -> & _ & Hm & _ & Hd & _ & Hy & Hyl).
  apply slash_date_parts in Hw as (m' & d' & y' & -> & _ & Hm' & _ & Hd' & _ & Hy' & Hyl').
  rewrite <- !app_assoc in E. simpl in E.
  apply digits_sep in E as (-> & _ & E); auto.
  rewrite <- !app_assoc in E. simpl in E.
  apply digits_sep in E as (-> & _ & E); auto.
  apply app_inj_1 in E as [-> _]; [reflexivity|congruence].
Qed.

(** A date in slash form that starts before a written one ends before
    it: the year takes four digits, a month or a day two at most. *)
Lemma slash_dates_apart M rest p w post :
  slash_date (string_of_list_ascii M) → slash_date (string_of_list_ascii w) →
  M ++ rest = p ++ w ++ post →
  p ≠ [] → RegExp.word_at (rev p) = false →
  (length M ≤ length p)%nat.
Proof.
  intros HM Hw E Hne Hb.
  destruct (le_lt_dec (length M) (length p)) as [Hle|Hlt]; [exact Hle|exfalso].
  apply app_eq_app_le in E as (q & HMq & Hq); [|lia].
  destruct (exists_last Hne) as (p' & x & ->).
  rewrite rev_app_distr in Hb. simpl in Hb.
  assert (Hx : is_digit x = false).
  { destruct (is_digit x) eqn:Ex; [|reflexivity].
    rewrite (is_digit_is_word _ Ex) in Hb. discriminate Hb. }
  rewrite <- app_assoc in HMq. simpl in HMq.
  apply slash_date_parts in HM as (m & d & y & -> & _ & Hm & _ & Hd & _ & Hy & Hyl).
  apply slash_date_parts in Hw as (m' & d' & y' & -> & _ & Hm' & Hml' & Hd' & Hdl' & _).
  apply split_at_nondigit in HMq as [(-> & -> & ->)|(p3 & -> & HMq)]; auto.
  - (* the character before the written date is the first slash *)
    rewrite <- ?app_assoc in Hq; simpl in Hq.
    rewrite <- ?app_assoc in Hq; simpl in Hq.
    apply digits_sep in Hq as (_ & _ & Hq); auto.
    symmetry in Hq. apply digits_prefix_le in Hq; auto. lia.
  - apply split_at_nondigit in HMq as [(-> & -> & ->)|(p4 & -> & ->)]; auto.
    + (* it is the second slash *)
      rewrite <- ?app_assoc in Hq; simpl in Hq.
      symmetry in Hq. apply digits_prefix_le in Hq; auto. lia.
    + (* it stands in the year *)
      apply Forall_app in Hy as [_ Hy]. apply Forall_cons in Hy as [Hy _].
      congruence.
Qed.
(** The iteration of [match] reaches every written date: a match found
    before it ends before it. *)
Lemma match_loop_finds_date : ∀ fuel pre bef w post,
  (length pre < fuel)%nat →
  slash_date (string_of_list_ascii w) →
  RegExp.word_at (rev pre ++ bef) = false → RegExp.word_at post = false →
  string_of_list_ascii w
  ∈ map RegExp.matched (RegExp.match_loop fuel dateRegex bef (pre ++ w ++ post)).
Proof.
  induction fuel as [|fuel IH]; intros pre bef w post Hfuel Hw Hb Ha; [lia|].
  assert (Hhere : RegExp.matcher dateRegex
                    (RegExp.mkState (rev pre ++ bef) (w ++ post) []) Some ≠ None).
  { apply matcher_complete; [|discriminate].
    apply slash_date_matches; assumption. }
  destruct (search_complete _ _ _ _ Hhere) as (b0 & st & Hs & Hl).
  cbn [RegExp.match_loop]. rewrite Hs.
  apply search_sound in Hs as (skipped & M & Hinp & Hb0 & Hbef & Hmat).
  assert (Hsk : (length skipped ≤ length pre)%nat).
  { rewrite Hb0, length_app, length_rev in Hl. lia. }
  apply app_eq_app_le in Hinp as (p & -> & Hp); [|exact Hsk].
  pose proof (dateRegex_slash_date _ _ _ Hmat) as HM.
  cbn [map]. destruct p as [|c p].
  - (* the search stops at the written date *)
    simpl in Hp.
    apply slash_dates_same_start in Hp as ->; [|assumption..].
    unfold RegExp.result_of. cbn [RegExp.matched].
    rewrite Hbef, consumed_app. left.
  - (* it stops at an earlier date *)
    right.
    assert (Hbp : RegExp.word_at (rev (c :: p)) = false).
    { rewrite rev_app_distr, <- app_assoc in Hb.
      destruct (rev (c :: p)) as [|x l] eqn:E; [reflexivity|exact Hb]. }
    assert (HMl : (length M ≤ length (c :: p))%nat).
    { apply (slash_dates_apart M (RegExp.rest st) (c :: p) w post);
        auto; discriminate. }
    symmetry in Hp.
    apply app_eq_app_le in Hp as (p2 & Hp2 & Hrest); [|exact HMl].
    assert (HMne : M ≠ []).
    { intros ->. exact (dateRegex_never_empty _ _ Hmat). }
    assert (Hlen : (length (RegExp.before st) =? length b0)%nat = false).
    { apply Nat.eqb_neq. rewrite Hbef, length_app, length_rev.
      destruct M; [contradiction|simpl; lia]. }
    rewrite Hlen, Hrest. apply IH.
    + rewrite length_app, Hp2, length_app in Hfuel.
      destruct M; [contradiction|simpl in Hfuel; lia].
    + exact Hw.
    + rewrite Hbef, Hb0. rewrite Hp2 in Hb.
      rewrite !rev_app_distr, <- ?app_assoc in Hb. exact Hb.
    + exact Ha.
Qed.

Lemma word_at_rev_digits (y b : list ascii) :
  y ≠ [] → Forall (fun c => is_digit c = true) y →
  RegExp.word_at (rev y ++ b) = true.
Proof.
  intros Hne Hy. destruct (exists_last Hne) as (y' & x & ->).
  apply Forall_app in Hy as [_ Hy]. apply Forall_cons in Hy as [Hx _].
  rewrite rev_app_distr. simpl. apply is_digit_is_word, Hx.
Qed.

(** What [dateRegex] matches stands between two word boundaries. *)
Lemma dateRegex_boundaries b w a :
  RegExp.matches dateRegex b w a →
  RegExp.word_at b = false ∧ RegExp.word_at a = false.
Proof.
  intros H. pose proof (dateRegex_slash_date _ _ _ H) as Hs.
  apply slash_date_parts in Hs as (m & d & y & Hw & Hmne & Hm & _).
  revert H. unfold dateRegex, RegExp.sequence.
  cbn [fold_right]. cbn [RegExp.matches]. fold (RegExp.lit "/").
  intros (w1 & r1 & E1 & [-> Hb] & wm & r2 & E2 & _
          & s1 & r3 & -> & _ & wd & r4 & -> & _
          & s2 & r5 & -> & _ & wy & r6 & -> & (Hy & Hy4 & _)
          & w2 & r7 & -> & [-> Ha] & ->).
  simpl in E1. subst r1. split.
  - rewrite Hw in Hb.
    destruct m as [|c m]; [contradiction|].
    apply Forall_cons in Hm as [Hc _]. simpl in Hb.
    rewrite (is_digit_is_word _ Hc), xorb_true_r in Hb.
    apply negb_true_iff in Hb. exact Hb.
  - simpl in Ha. rewrite word_at_rev_digits in Ha; auto.
    + simpl in Ha. apply negb_true_iff in Ha. exact Ha.
    + intros ->. simpl in Hy4. lia.
Qed.

(** [text.match(dateRegex)] returns exactly the dates written in the
    text. *)
Lemma String_match_dateRegex_written text dateStr :
  dateStr ∈ String_match dateRegex text ↔ written_slash_date text dateStr.
Proof.
  split.
  - intros H.
    apply String_match_sound in H as (pre & w & after & Heq & Hm & ->).
    split; [eapply dateRegex_slash_date; exact Hm|].
    exists pre, after. rewrite list_ascii_of_string_of_list_ascii.
    split; [exact Heq|]. eapply dateRegex_boundaries. exact Hm.
  - intros (Hs & pre & post & Heq & Hb & Ha).
    unfold String_match. rewrite Heq.
    rewrite <- (string_of_list_ascii_of_string dateStr) at 1.
    apply match_loop_finds_date.
    + rewrite <- length_list_ascii_of_string, Heq, length_app. lia.
    + rewrite string_of_list_ascii_of_string. exact Hs.
    + rewrite app_nil_r. exact Hb.
    + exact Ha.
Qed.

(** C7, amended. Take an evidence item in scope (its id is referenced by
    one of the reports; the ids of the evidence list are distinct and of
    one length) with extracted text that is not blank. For each date
    written in the text as month/day/four-digit-year with slashes, as a
    word of its own (no letter, digit or underscore right before or right
    after it), that the platform reads as a time after the creation time,
    the engine returns a [metadata_mismatch] record that cites the item
    and names that date, verified 3/3; each [metadata_mismatch] record
    citing the item comes from such a date; two such records differ in
    their explanation; and when no date written in that way is after the
    creation time, no [metadata_mismatch] record cites the item. *)
Theorem metadata_mismatch_for_slash_dates (P : Platform)
    (reports : list Report.t) (evidence : list Evidence.t) (tape : Tape)
    (e : Evidence.t) (text : string) :
  NoDup (map Evidence.id evidence) →
  ids_same_length evidence →
  e ∈ evidence →
  Evidence.id e ∈ map ref_id (all_refs reports) →
  Evidence.ocrText e = Some text →
  String.length (trim text) ≠ 0%nat →
  let result := runContradictionAnalysis P reports evidence tape in
  let T := Evidence.createdAt e in
  (∀ dateStr,
     written_slash_date text dateStr →
     Date_gt (Date_parse P dateStr) T = true →
     ∃ c, c ∈ result ∧ cites_metadata (Evidence.id e) c
          ∧ Contradiction.explanation c
            = metadata_explanation P (Date_parse P dateStr) T
          ∧ Contradiction.verification c = Verified_3_3)
  ∧ (∀ c, c ∈ result → cites_metadata (Evidence.id e) c →
          ∃ dateStr,
            written_slash_date text dateStr
            ∧ Date_gt (Date_parse P dateStr) T = true
            ∧ Contradiction.explanation c
              = metadata_explanation P (Date_parse P dateStr) T)
  ∧ (∀ c1 c2, c1 ∈ result → c2 ∈ result →
              cites_metadata (Evidence.id e) c1 →
              cites_metadata (Evidence.id e) c2 →
              Contradiction.explanation c1 = Contradiction.explanation c2 →
              c1 = c2)
  ∧ ((∀ dateStr, written_slash_date text dateStr →
                 Date_gt (Date_parse P dateStr) T = false) →
     ∀ c, c ∈ result → ¬ cites_metadata (Evidence.id e) c).
Proof.
  intros Hnd Hlen He Href Htext Hblank result T.
  destruct (metadata_mismatch_for_matches P reports evidence tape e text
              Hnd Hlen He Href Htext Hblank) as (Hfound & Hback & Hone & Hnone).
  fold result in Hfound, Hback, Hone, Hnone. fold T in Hfound, Hback, Hnone.
  split; [|split; [|split]].
  - intros d Hd Hgt. apply Hfound; [|exact Hgt].
    apply String_match_dateRegex_written. exact Hd.
  - intros c Hc Hcites.
    destruct (Hback c Hc Hcites) as (d & Hd & Hgt & Hexp).
    exists d. split; [|auto].
    apply String_match_dateRegex_written. exact Hd.
  - exact Hone.
  - intros Hall. apply Hnone. intros d Hd. apply Hall.
    apply String_match_dateRegex_written. exact Hd.
Qed.

Lemma metadata_mismatch_for_slash_dates_witness :
  ∃ c, c ∈ runContradictionAnalysis ReferencePlatform.platform
             [report_A] [ev_two_dates] []
       ∧ cites_metadata "ev-A" c
       ∧ Contradiction.explanation c
         = metadata_explanation ReferencePlatform.platform
             (ReferencePlatform.parse "3/14/2027") (Some t_2026)
       ∧ Contradiction.verification c = Verified_3_3.
Proof.
  refine (proj1 (metadata_mismatch_for_slash_dates ReferencePlatform.platform
                   [report_A] [ev_two_dates] [] ev_two_dates
                   "Signed on 3/14/2027, to be renewed on 3/14/2028."
                   _ _ _ _ _ _) "3/14/2027" _ _).
  - vm_compute. apply NoDup_singleton.
  - intros e1 e2 H1 H2.
    apply list_elem_of_singleton in H1, H2. subst e1 e2. reflexivity.
  - left.
  - vm_compute. left.
  - reflexivity.
  - vm_compute. lia.
  - apply String_match_dateRegex_written. vm_compute. left.
  - vm_compute. reflexivity.
Defined.

(** A date that follows a letter is not written as a word of its own,
    and [dateRegex] does not match it. *)
Lemma dateRegex_needs_word_boundary :
  String_match dateRegex "Payment due on3/14/2027." = []
  ∧ String_match dateRegex "Payment due on 3/14/2027." = ["3/14/2027"].
Proof. split; vm_compute; reflexivity. Qed.

(** The bounds built into [String_match] and [RegExp_exec_all] are never
    reached: any larger bound gives the same results. *)
Lemma String_match_any_fuel regex text fuel :
  (String.length text < fuel)%nat →
  String_match regex text
  = map RegExp.matched
        (RegExp.match_loop fuel regex [] (list_ascii_of_string text)).
Proof.
  intros H. unfold String_match. f_equal.
  apply match_loop_fuel; rewrite length_list_ascii_of_string; lia.
Qed.

Lemma omission_exec_any_fuel text fuel :
  (String.length text < fuel)%nat →
  RegExp_exec_all omissionRegex text
  = RegExp.exec_loop fuel omissionRegex [] (list_ascii_of_string text).
Proof.
  intros H. unfold RegExp_exec_all.
  apply (exec_loop_fuel _ omissionRegex_never_empty);
    rewrite length_list_ascii_of_string; lia.
Qed.

(** [Number_toString]: there is fuel for every digit. *)
Lemma Number_toString_fuel radix : ∀ fuel1 fuel2 n,
  (2 ≤ radix)%N →
  (N.to_nat (N.log2 n) < fuel1)%nat → (N.to_nat (N.log2 n) < fuel2)%nat →
  Number_toString_digits fuel1 radix n = Number_toString_digits fuel2 radix n.
Proof.
  induction fuel1 as [|fuel1 IH]; intros [|fuel2] n Hr H1 H2; try lia.
  simpl. destruct (N.ltb_spec n radix) as [Hlt|Hge]; [reflexivity|].
  assert (Hlog : (N.log2 (n / radix) < N.log2 n)%N).
  { assert (Hpos : (0 < n)%N) by lia.
    destruct (N.eq_dec (n / radix)%N 0%N) as [Hz|Hnz].
    - rewrite Hz. simpl. apply N.log2_pos. clear - Hr Hge. lia.
    - apply N.log2_lt_pow2; [apply N.neq_0_lt_0; exact Hnz|].
      pose proof (N.log2_spec n Hpos) as [_ Hup].
      rewrite N.pow_succ_r' in Hup.
      apply N.Div0.div_lt_upper_bound.
      apply N.lt_le_trans with (2 * 2 ^ N.log2 n)%N; [exact Hup|].
      apply N.mul_le_mono_r. exact Hr. }
  f_equal. apply IH; [exact Hr|lia|lia].
Qed.

(* ----------------------------------------------------------------- *)
(** *** One pass on [statement.pdf] and [statement_v2.pdf] *)

Lemma cites_pair_sources idA idB ty sources :
  cites_pair idA idB ty sources = true ↔
  ty = cross_doc_drift ∧ (sources = [idA; idB] ∨ sources = [idB; idA]).
Proof.
  unfold cites_pair. destruct ty;
    try (split; [discriminate|intros [H _]; discriminate H]).
  rewrite orb_true_iff, !bool_decide_eq_true. tauto.
Qed.

Lemma filter_nil_iff {A} (f : A → bool) (l : list A) :
  (∀ x, x ∈ l → f x = false) → List.filter f l = [].
Proof.
  induction l as [|a l IH]; intros H; simpl; [reflexivity|].
  rewrite (H a ltac:(left)). apply IH. intros x Hx. apply H. right. exact Hx.
Qed.

Lemma pass_drift_records_for_app idA idB l1 l2 :
  pass_drift_records_for idA idB (l1 ++ l2)
  = pass_drift_records_for idA idB l1 ++ pass_drift_records_for idA idB l2.
Proof. apply List.filter_app. Qed.

(** Records of the pairs starting at [x] cite [x] first. *)
Lemma drift_from_no_pair idA idB x later :
  Evidence.id x ≠ idA → Evidence.id x ≠ idB →
  pass_drift_records_for idA idB (flat_map (drift_rule x) later) = [].
Proof.
  intros HA HB. apply filter_nil_iff. intros c Hc.
  apply list_elem_of_In, in_flat_map in Hc as (y & _ & Hc).
  apply list_elem_of_In, drift_rule_spec in Hc as (_ & Hs & _).
  apply not_true_is_false. intros Hp.
  apply cites_pair_sources in Hp as [_ [Hp|Hp]];
    rewrite Hs in Hp; injection Hp as H1 _; congruence.
Qed.

Lemma drift_from_other idA idB x later :
  idB ∉ map Evidence.id later →
  Evidence.id x = idA →
  pass_drift_records_for idA idB (flat_map (drift_rule x) later) = [].
Proof.
  intros HB HA. apply filter_nil_iff. intros c Hc.
  apply list_elem_of_In, in_flat_map in Hc as (y & Hy & Hc).
  apply list_elem_of_In in Hy.
  apply list_elem_of_In, drift_rule_spec in Hc as (_ & Hs & _).
  apply not_true_is_false. intros Hp.
  apply cites_pair_sources in Hp as [_ [Hp|Hp]];
    rewrite Hs in Hp; injection Hp as H1 H2.
  - apply HB. rewrite <- H2. apply (list_elem_of_fmap_2 Evidence.id). exact Hy.
  - apply HB. replace idB with (Evidence.id y) by congruence.
    apply (list_elem_of_fmap_2 Evidence.id). exact Hy.
Qed.

Lemma drift_pairs_no_pair idA idB scope :
  idA ∉ map Evidence.id scope →
  pass_drift_records_for idA idB (drift_pairs scope) = [].
Proof.
  intros HA. apply filter_nil_iff. intros c Hc.
  apply drift_pairs_spec in Hc as (_ & a & b & Ha & Hb & Hs & _).
  apply (list_elem_of_fmap_2 Evidence.id) in Ha, Hb.
  apply not_true_is_false. intros Hp.
  apply cites_pair_sources in Hp as [_ [Hp|Hp]];
    rewrite Hs in Hp; injection Hp as H1 H2.
  - apply HA. rewrite <- H1. exact Ha.
  - apply HA. rewrite <- H2. exact Hb.
Qed.

Lemma pass_drift_records_for_sym idA idB found :
  pass_drift_records_for idA idB found = pass_drift_records_for idB idA found.
Proof.
  unfold pass_drift_records_for. apply filter_ext. intros c.
  unfold cites_pair. destruct (RawContradiction.type c); try reflexivity.
  apply orb_comm.
Qed.

(** Among the pairs starting at [x], the one with [y] is the only one
    citing both, when [y] occurs once. *)
Lemma drift_from_one x y later :
  NoDup (map Evidence.id later) → y ∈ later →
  Evidence.id x ≠ Evidence.id y →
  pass_drift_records_for (Evidence.id x) (Evidence.id y)
                         (flat_map (drift_rule x) later)
  = drift_rule x y.
Proof.
  intros Hnd Hy Hne.
  apply list_elem_of_split in Hy as (l1 & l2 & ->).
  rewrite map_app in Hnd. simpl in Hnd.
  apply NoDup_app in Hnd as (_ & Hdis & Hnd2).
  apply NoDup_cons in Hnd2 as [Hno2 _].
  assert (Hno1 : Evidence.id y ∉ map Evidence.id l1).
  { intros H. apply (Hdis _ H). left. }
  rewrite flat_map_app. cbn [flat_map].
  rewrite !pass_drift_records_for_app.
  rewrite !drift_from_other by auto. cbn [app]. rewrite app_nil_r.
  unfold drift_rule. destruct (_ && _); [|reflexivity].
  unfold pass_drift_records_for. cbn.
  rewrite !bool_decide_eq_true_2 by reflexivity. reflexivity.
Qed.

Lemma drift_rule_sym_length evA evB :
  length (drift_rule evB evA) = length (drift_rule evA evB).
Proof.
  unfold drift_rule.
  rewrite (orb_comm (includes (stripExtension (Evidence.name evB)) _)).
  rewrite (String.eqb_sym (stripExtension (Evidence.name evB))).
  rewrite (String.eqb_sym (Evidence.sha512 evB)).
  destruct (_ && _); reflexivity.
Qed.

(** In a scope with one record for each id, the pairs that cite two given
    items are the pair of these items in the order of the scope. *)
Lemma drift_pairs_one_pair scope : ∀ evA evB,
  NoDup (map Evidence.id scope) →
  evA ∈ scope → evB ∈ scope →
  Evidence.id evA ≠ Evidence.id evB →
  length (pass_drift_records_for (Evidence.id evA) (Evidence.id evB)
            (drift_pairs scope))
  = length (drift_rule evA evB).
Proof.
  induction scope as [|x later IH]; intros evA evB Hnd HA HB Hne.
  - inversion HA.
  - simpl in Hnd. apply NoDup_cons in Hnd as [Hx Hnd].
    cbn [drift_pairs].
    rewrite pass_drift_records_for_app, length_app.
    apply elem_of_cons in HA as [->|HA]; [|apply elem_of_cons in HB as [->|HB]].
    + (* the scope starts with evA *)
      apply elem_of_cons in HB as [->|HB]; [congruence|].
      rewrite drift_from_one by auto.
      rewrite drift_pairs_no_pair by exact Hx. simpl. lia.
    + (* the scope starts with evB *)
      rewrite (pass_drift_records_for_sym _ _ (flat_map _ _)).
      rewrite (pass_drift_records_for_sym _ _ (drift_pairs _)).
      rewrite drift_from_one by auto.
      rewrite drift_pairs_no_pair by exact Hx.
      rewrite drift_rule_sym_length. simpl. lia.
    + (* the scope starts with another item *)
      rewrite drift_from_no_pair.
      * simpl. apply IH; assumption.
      * intros Heq. apply Hx. rewrite Heq.
        apply (list_elem_of_fmap_2 Evidence.id). exact HA.
      * intros Heq. apply Hx. rewrite Heq.
        apply (list_elem_of_fmap_2 Evidence.id). exact HB.
Qed.

Lemma not_drift_after scope P (textEvidence : list Evidence.t) idA idB :
  pass_drift_records_for idA idB
    (flat_map (fun evidence =>
                 metadata_mismatches P evidence ++ omissions scope evidence)
              textEvidence) = [].
Proof.
  apply filter_nil_iff. intros c Hc.
  apply list_elem_of_In, in_flat_map in Hc as (e & _ & Hc).
  apply list_elem_of_In, elem_of_app in Hc.
  apply not_true_is_false. intros Hp.
  apply cites_pair_sources in Hp as [Hty _].
  destruct Hc as [Hc|Hc].
  - apply metadata_mismatches_spec in Hc as (d & _ & _ & ->). discriminate Hty.
  - apply omissions_spec in Hc as [Hty' _]. congruence.
Qed.

(** One pass of the detectors on a scope that holds [statement.pdf] and
    [statement_v2.pdf]: one [cross_doc_drift] record cites the two when
    their digests differ, and none when they are equal. *)
Lemma single_pass_statement_drift P reports evidenceList evA evB :
  evA ∈ allEvidenceInScope reports evidenceList →
  evB ∈ allEvidenceInScope reports evidenceList →
  Evidence.name evA = "statement.pdf" →
  Evidence.name evB = "statement_v2.pdf" →
  length (pass_drift_records_for (Evidence.id evA) (Evidence.id evB)
            (analyzeContradictionsOnce P reports evidenceList))
  = if String.eqb (Evidence.sha512 evA) (Evidence.sha512 evB)
    then 0%nat else 1%nat.
Proof.
  intros HA HB HnA HnB.
  destruct (scope_spec reports evidenceList) as [Hnd Hscope].
  assert (Hne : Evidence.id evA ≠ Evidence.id evB).
  { intros Heq.
    assert (evA = evB)
      by (apply (NoDup_map_inj Evidence.id _ _ _ Hnd HA HB Heq)).
    subst evB. rewrite HnA in HnB. discriminate HnB. }
  unfold analyzeContradictionsOnce.
  rewrite pass_drift_records_for_app, length_app.
  rewrite (not_drift_after _ P _ (Evidence.id evA) (Evidence.id evB)).
  rewrite (drift_pairs_one_pair _ evA evB Hnd HA HB Hne).
  unfold drift_rule, stripExtension. rewrite HnA, HnB.
  change (String_replace extensionRegex "" (toLowerCase "statement.pdf"))
    with "statement".
  change (String_replace extensionRegex "" (toLowerCase "statement_v2.pdf"))
    with "statement_v2".
  change (includes "statement" "statement_v2") with false.
  change (includes "statement_v2" "statement") with true.
  change (String.eqb "statement" "statement_v2") with false.
  cbn [orb andb negb].
  destruct (String.eqb (Evidence.sha512 evA) (Evidence.sha512 evB));
    reflexivity.
Qed.

(* ----------------------------------------------------------------- *)
(** *** Saved reports are read back *)

Lemma Map_new_getAll (store : gmap string Report.t) :
  (∀ k r, store !! k = Some r → Report.id r = k) →
  Map_new (map (fun r => (Report.id r, r)) (getAll store)) = store.
Proof.
  intros Hkeyed.
  assert (Hids : map Report.id (getAll store) = (map_to_list store).*1).
  { unfold getAll. rewrite <- list_fmap_compose.
    apply list_fmap_ext. intros i [k r] Hi. simpl.
    apply Hkeyed. apply elem_of_map_to_list.
    apply list_elem_of_lookup. eauto. }
  apply map_eq. intros k.
  destruct (store !! k) as [r|] eqn:E.
  - rewrite <- (Hkeyed _ _ E). apply Map_new_lookup_NoDup.
    + rewrite Hids. apply NoDup_fst_map_to_list.
    + unfold getAll. apply list_elem_of_fmap. exists (k, r).
      split; [reflexivity|]. apply elem_of_map_to_list. exact E.
  - destruct (Map_new _ !! k) as [r|] eqn:E'; [|reflexivity].
    apply Map_new_lookup in E' as [Hid Hin].
    unfold getAll in Hin. apply list_elem_of_fmap in Hin as ([k' r'] & -> & Hin).
    apply elem_of_map_to_list in Hin. simpl in Hid.
    rewrite (Hkeyed _ _ Hin) in Hid. subst k'. congruence.
Qed.

Lemma saveReport_frame io uuid now report db db' p :
  saveReport io uuid now report db = (db', p) →
  reports_keyed db →
  reports_keyed db'
  ∧ (∀ k, k ≠ uuid → REPORTS_STORE db' !! k = REPORTS_STORE db !! k)
  ∧ EVIDENCE_STORE db' = EVIDENCE_STORE db.
Proof.
  intros Hs Hk. unfold reports_keyed.
  destruct io; simpl in Hs; injection Hs as <- <-; simpl;
    try (split; [exact Hk|split; [reflexivity|reflexivity]]).
  split; [|split; [|reflexivity]].
  - intros k r Hr. destruct (decide (uuid = k)) as [->|Hne].
    + rewrite lookup_insert_eq in Hr. injection Hr as <-. reflexivity.
    + rewrite lookup_insert_ne in Hr by exact Hne. eauto.
  - intros k Hne. apply lookup_insert_ne. auto.
Qed.

Lemma run_saveReports_frame calls : ∀ db db' outs k,
  reports_keyed db →
  run_saveReports calls db = (db', outs) →
  k ∉ map call_uuid calls →
  reports_keyed db' ∧ REPORTS_STORE db' !! k = REPORTS_STORE db !! k.
Proof.
  induction calls as [|c rest IH]; intros db db' outs k Hk Hrun Hfresh.
  - simpl in Hrun. injection Hrun as <- <-. auto.
  - simpl in Hrun.
    destruct (saveReport (call_io c) (call_uuid c) (call_now c)
                         (call_report c) db) as [db1 p] eqn:Es.
    destruct (run_saveReports rest db1) as [db2 ps] eqn:Er.
    injection Hrun as <- <-.
    simpl in Hfresh. apply not_elem_of_cons in Hfresh as [Hne Hfresh].
    destruct (saveReport_frame _ _ _ _ _ _ _ Es Hk) as (Hk1 & Hframe & _).
    destruct (IH db1 db2 ps k Hk1 Er Hfresh) as [Hk2 Heq].
    split; [exact Hk2|]. rewrite Heq. apply Hframe. exact Hne.
Qed.

Lemma run_saveReports_stored calls : ∀ db db' outs,
  meta_keyed db → reports_keyed db →
  run_saveReports calls db = (db', outs) →
  Forall (fun p => is_resolved p = true) outs →
  NoDup (map call_uuid calls) →
  reports_keyed db'
  ∧ ∀ r, r ∈ resolved_values outs → REPORTS_STORE db' !! Report.id r = Some r.
Proof.
  induction calls as [|c rest IH]; intros db db' outs Hm Hk Hrun Hall Hnd.
  - simpl in Hrun. injection Hrun as <- <-. split; [exact Hk|].
    intros r Hr. inversion Hr.
  - simpl in Hrun.
    destruct (saveReport (call_io c) (call_uuid c) (call_now c)
                         (call_report c) db) as [db1 p] eqn:Es.
    destruct (run_saveReports rest db1) as [db2 ps] eqn:Er.
    injection Hrun as <- <-.
    apply Forall_cons in Hall as [Hp Hps].
    destruct p as [r0|]; [|discriminate].
    simpl in Hnd. apply NoDup_cons in Hnd as [Hfresh Hnd].
    destruct (saveReport_resolved _ _ _ _ _ _ _ Hm Es)
      as (Hm1 & Hid & _ & _ & _ & Hstored).
    destruct (saveReport_frame _ _ _ _ _ _ _ Es Hk) as (Hk1 & _ & _).
    destruct (IH db1 db2 ps Hm1 Hk1 Er Hps Hnd) as [Hk2 Hrest].
    split; [exact Hk2|].
    change (resolved_values (Resolved r0 :: ps)) with (r0 :: resolved_values ps).
    intros r Hr. apply elem_of_cons in Hr as [->|Hr]; [|auto].
    destruct (run_saveReports_frame rest db1 db2 ps (call_uuid c) Hk1 Er Hfresh)
      as [_ Heq].
    rewrite Hid, Heq. exact Hstored.
Qed.

(** After successful calls of [saveReport] on an empty database, with
    distinct UUIDs, [getAllReportsIndexed] returns the reports that the
    calls returned, in call order. *)
Lemma saved_reports_read_back (calls : list SaveCall) db' outs :
  run_saveReports calls empty_db = (db', outs) →
  Forall (fun p => is_resolved p = true) outs →
  NoDup (map call_uuid calls) →
  ∃ evidence,
    getAllReportsIndexed true db' = Resolved (resolved_values outs, evidence).
Proof.
  intros Hrun Hall Hnd.
  assert (Hk0 : reports_keyed empty_db).
  { intros k r Hr.
    change (REPORTS_STORE empty_db) with (∅ : gmap string Report.t) in Hr.
    rewrite lookup_empty in Hr. discriminate. }
  destruct (run_saveReports_spec calls empty_db db' outs
              meta_keyed_empty Hrun Hall) as (_ & Ho & Hi & _).
  destruct (run_saveReports_stored calls empty_db db' outs
              meta_keyed_empty Hk0 Hrun Hall Hnd) as [Hk Hst].
  change (index_order empty_db) with (@nil string) in Ho. simpl in Ho.
  eexists. unfold getAllReportsIndexed. do 2 f_equal.
  unfold ordered_reports. rewrite (Map_new_getAll _ Hk), Ho, <- Hi.
  clear Hi Ho. revert Hst.
  generalize (resolved_values outs) as reports.
  induction reports as [|r reports IH]; intros Hst; [reflexivity|].
  cbn [map omap list_omap]. rewrite (Hst r ltac:(left)). simpl. f_equal.
  apply IH. intros r' Hr'. apply Hst. right. exact Hr'.
Qed.

(* ----------------------------------------------------------------- *)
(** *** The report ledger when calls fail *)

Lemma saveReport_index_step io uuid now report db db' p :
  meta_keyed db →
  saveReport io uuid now report db = (db', p) →
  meta_keyed db'
  ∧ index_lastChapterIndex db ≤ index_lastChapterIndex db'
  ∧ (∀ r, p = Resolved r →
          Report.chapterIndex r = index_lastChapterIndex db'
          ∧ index_lastChapterIndex db < Report.chapterIndex r)
  ∧ Z.of_nat (length (index_order db')) - index_lastChapterIndex db'
    = Z.of_nat (length (index_order db)) - index_lastChapterIndex db.
Proof.
  intros Hk E.
  unfold index_lastChapterIndex, index_order, meta_keyed in *.
  unfold saveReport in E.
  destruct (META_STORE db !! "reports_index") as [m|] eqn:Em.
  - pose proof (Hk m eq_refl) as Hkey. simpl in E.
    destruct io; injection E as <- <-; simpl;
      rewrite ?Hkey, ?lookup_insert_eq, ?Em; simpl;
      (split; [first [exact Hk | intros ? [= <-]; simpl; first [reflexivity | exact Hkey]]|]);
      (split; [lia|]);
      (split; [first [discriminate | intros ? [= <-]; simpl; lia]|]);
      rewrite ?length_app; simpl; lia.
  - simpl in E.
    destruct io; injection E as <- <-; simpl;
      rewrite ?lookup_insert_eq, ?Em; simpl;
      (split; [first [exact Hk | intros ? [= <-]; reflexivity]|]);
      (split; [lia|]);
      (split; [first [discriminate | intros ? [= <-]; simpl; lia]|]);
      rewrite ?length_app; simpl; lia.
Qed.

(** A call adds one to the counter at most. *)
Lemma saveReport_counter_step io uuid now report db db' p :
  meta_keyed db →
  saveReport io uuid now report db = (db', p) →
  index_lastChapterIndex db' ≤ index_lastChapterIndex db + 1.
Proof.
  intros Hk E.
  unfold index_lastChapterIndex, meta_keyed in *.
  unfold saveReport in E.
  destruct (META_STORE db !! "reports_index") as [m|] eqn:Em.
  - pose proof (Hk m eq_refl) as Hkey. simpl in E.
    destruct io; injection E as <- <-; simpl;
      rewrite ?Hkey, ?lookup_insert_eq, ?Em; simpl; lia.
  - simpl in E.
    destruct io; injection E as <- <-; simpl;
      rewrite ?lookup_insert_eq, ?Em; simpl; lia.
Qed.

Lemma run_saveReports_chapters (calls : list SaveCall) :
  ∀ db db' outs,
  meta_keyed db →
  run_saveReports calls db = (db', outs) →
  let chapters := map Report.chapterIndex (resolved_values outs) in
  StronglySorted Z.lt chapters
  ∧ Forall (fun c => index_lastChapterIndex db < c ≤ index_lastChapterIndex db')
           chapters
  ∧ index_lastChapterIndex db ≤ index_lastChapterIndex db'
  ∧ index_lastChapterIndex db' ≤ index_lastChapterIndex db + Z.of_nat (length calls)
  ∧ Z.of_nat (length (index_order db')) - index_lastChapterIndex db'
    = Z.of_nat (length (index_order db)) - index_lastChapterIndex db.
Proof.
  induction calls as [|c rest IH]; intros db db' outs Hk E; simpl in E.
  - injection E as <- <-. simpl.
    split; [constructor|]. split; [constructor|]. split; [lia|].
    split; [lia|reflexivity].
  - destruct (saveReport (call_io c) (call_uuid c) (call_now c)
                         (call_report c) db) as [db1 p] eqn:E1.
    destruct (run_saveReports rest db1) as [db2 ps] eqn:E2.
    injection E as <- <-.
    destruct (saveReport_index_step _ _ _ _ _ _ _ Hk E1)
      as (Hk1 & Hle1 & Hres & Hstep1).
    pose proof (saveReport_counter_step _ _ _ _ _ _ _ Hk E1) as Hup1.
    destruct (IH db1 db2 ps Hk1 E2) as (Hsorted & Hrange & Hle2 & Hup2 & Hstep2).
    cbv zeta in *.
    assert (Hrange' :
      Forall (fun c => index_lastChapterIndex db < c ≤ index_lastChapterIndex db2)
             (map Report.chapterIndex (resolved_values ps))).
    { eapply Forall_impl; [exact Hrange|]. simpl. intros; lia. }
    assert (Hup : index_lastChapterIndex db2
                  ≤ index_lastChapterIndex db + Z.of_nat (length (c :: rest))).
    { simpl length. lia. }
    destruct p as [r|]; simpl.
    + destruct (Hres r eq_refl) as [Hr1 Hr2].
      split.
      { constructor; [exact Hsorted|].
        eapply Forall_impl; [exact Hrange|]. simpl. intros; lia. }
      split; [constructor; [lia|exact Hrange']|].
      split; [lia|]. split; [exact Hup|lia].
    + split; [exact Hsorted|]. split; [exact Hrange'|].
      split; [lia|]. split; [exact Hup|lia].
Qed.

(** Take a run of [saveReport] calls over which the counter stays a safe
    integer, so that the additions of the code are exact. Whatever fails
    among the calls, the chapter numbers of the reports that were returned
    increase strictly in call order, lie between the counter before and
    the counter after and are safe integers; the counter never goes back,
    and the index grows by as many ids as the counter grows. *)
Theorem saveReport_chapters_increase (calls : list SaveCall) :
  ∀ db db' outs,
  meta_keyed db →
  Number_isSafeInteger (index_lastChapterIndex db) →
  Number_isSafeInteger (index_lastChapterIndex db + Z.of_nat (length calls)) →
  run_saveReports calls db = (db', outs) →
  let chapters := map Report.chapterIndex (resolved_values outs) in
  StronglySorted Z.lt chapters
  ∧ Forall (fun c => index_lastChapterIndex db < c ≤ index_lastChapterIndex db')
           chapters
  ∧ Forall Number_isSafeInteger chapters
  ∧ index_lastChapterIndex db ≤ index_lastChapterIndex db'
  ∧ Number_isSafeInteger (index_lastChapterIndex db')
  ∧ Z.of_nat (length (index_order db')) - index_lastChapterIndex db'
    = Z.of_nat (length (index_order db)) - index_lastChapterIndex db.
Proof.
  intros db db' outs Hk Hlo Hhi E chapters.
  destruct (run_saveReports_chapters calls db db' outs Hk E)
    as (Hsorted & Hrange & Hle & Hup & Hstep).
  fold chapters in Hsorted, Hrange.
  unfold Number_isSafeInteger in *.
  split; [exact Hsorted|]. split; [exact Hrange|].
  split; [eapply Forall_impl; [exact Hrange|]; simpl; intros; lia|].
  split; [exact Hle|]. split; [lia|exact Hstep].
Qed.

Lemma saveReport_chapters_increase_witness :
  let '(db', outs) := run_saveReports demo_calls_failing empty_db in
  StronglySorted Z.lt (map Report.chapterIndex (resolved_values outs))
  ∧ index_lastChapterIndex db' = 3
  ∧ length (index_order db') = 3%nat.
Proof.
  destruct (run_saveReports demo_calls_failing empty_db) as [db' outs] eqn:E.
  assert (Hlo : Number_isSafeInteger (index_lastChapterIndex empty_db)).
  { vm_compute. split; discriminate. }
  assert (Hhi : Number_isSafeInteger
                  (index_lastChapterIndex empty_db
                   + Z.of_nat (length demo_calls_failing))).
  { vm_compute. split; discriminate. }
  destruct (saveReport_chapters_increase demo_calls_failing empty_db db' outs
              meta_keyed_empty Hlo Hhi E) as (Hs & _).
  split; [exact Hs|].
  vm_compute in E. injection E as <- <-. split; reflexivity.
Defined.

Lemma ordered_reports_index_app db1 db id :
  REPORTS_STORE db1 = REPORTS_STORE db →
  index_order db1 = index_order db ++ [id] →
  id ∉ map Report.id (getAll (REPORTS_STORE db)) →
  ordered_reports db1 = ordered_reports db.
Proof.
  intros Hr Ho Hid. unfold ordered_reports. rewrite Hr, Ho, omap_app. simpl.
  destruct (Map_new (map (fun r => (Report.id r, r)) (getAll (REPORTS_STORE db)))
              !! id) as [r|] eqn:El.
  - exfalso. apply Hid. apply (Map_new_is_Some Report.id). rewrite El. eauto.
  - apply app_nil_r.
Qed.

(** When the transaction on the reports store fails, [saveReport] rejects
    after the index was written: the id stays in the index without a
    report, [getAllReportsIndexed] returns what it returned before, and the
    next report saved skips one chapter number (the counter staying a safe
    integer, so that the additions of the code are exact). *)
Theorem saveReport_failed_write_leaves_gap (uuid : string) (now : Z)
    (report : PartialReport.t) (db : DB) :
  meta_keyed db →
  Number_isSafeInteger (index_lastChapterIndex db) →
  Number_isSafeInteger (index_lastChapterIndex db + 2) →
  uuid ∉ map Report.id (getAll (REPORTS_STORE db)) →
  let out := saveReport io_reportTransaction_error uuid now report db in
  out.2 = Rejected
  ∧ index_order out.1 = index_order db ++ [uuid]
  ∧ REPORTS_STORE out.1 = REPORTS_STORE db
  ∧ EVIDENCE_STORE out.1 = EVIDENCE_STORE db
  ∧ getAllReportsIndexed true out.1 = getAllReportsIndexed true db
  ∧ ∀ uuid' now' report',
      ∃ r, (saveReport io_ok uuid' now' report' out.1).2 = Resolved r
           ∧ Report.chapterIndex r = index_lastChapterIndex db + 2
           ∧ Number_isSafeInteger (Report.chapterIndex r).
Proof.
  intros Hk Hlo Hhi Hfresh out.
  assert (Hkey : ReportsIndexMeta.key
                   (default default_meta (META_STORE db !! "reports_index"))
                 = "reports_index").
  { destruct (META_STORE db !! "reports_index") as [m|] eqn:E; simpl; auto. }
  assert (Ho : index_order out.1 = index_order db ++ [uuid]).
  { unfold out, index_order. simpl. rewrite Hkey, lookup_insert_eq. simpl.
    destruct (META_STORE db !! "reports_index"); reflexivity. }
  split; [reflexivity|]. split; [exact Ho|].
  split; [reflexivity|]. split; [reflexivity|].
  split.
  - unfold getAllReportsIndexed.
    rewrite (ordered_reports_index_app out.1 db uuid eq_refl Ho Hfresh).
    reflexivity.
  - intros uuid' now' report'. eexists. split; [reflexivity|].
    unfold out, index_lastChapterIndex in *. simpl.
    rewrite Hkey, lookup_insert_eq. simpl.
    split; [lia|].
    replace (ReportsIndexMeta.lastChapterIndex
               (default default_meta (META_STORE db !! "reports_index")) + 1 + 1)
      with (ReportsIndexMeta.lastChapterIndex
               (default default_meta (META_STORE db !! "reports_index")) + 2) by lia.
    exact Hhi.
Qed.

Lemma saveReport_failed_write_leaves_gap_witness :
  let out := saveReport io_reportTransaction_error "r-0001" 1000
               (demo_partial "first" []) empty_db in
  index_order out.1 = ["r-0001"]
  ∧ getAllReportsIndexed true out.1 = getAllReportsIndexed true empty_db
  ∧ ∃ r, (saveReport io_ok "r-0002" 2000 (demo_partial "second" []) out.1).2
         = Resolved r
         ∧ Report.chapterIndex r = 2.
Proof.
  assert (Hfresh : "r-0001" ∉ map Report.id (getAll (REPORTS_STORE empty_db))).
  { vm_compute. apply not_elem_of_nil. }
  assert (Hlo : Number_isSafeInteger (index_lastChapterIndex empty_db)).
  { vm_compute. split; discriminate. }
  assert (Hhi : Number_isSafeInteger (index_lastChapterIndex empty_db + 2)).
  { vm_compute. split; discriminate. }
  destruct (saveReport_failed_write_leaves_gap "r-0001" 1000
              (demo_partial "first" []) empty_db meta_keyed_empty Hlo Hhi Hfresh)
    as (_ & Ho & _ & _ & Hread & Hnext).
  split; [exact Ho|]. split; [exact Hread|].
  destruct (Hnext "r-0002" 2000 (demo_partial "second" [])) as (r & Hr & Hc & _).
  exists r. split; [exact Hr|exact Hc].
Defined.

(* ----------------------------------------------------------------- *)
(** *** [clearEvidenceAndReports], [saveEvidence] and [getEvidenceById] *)

(** After [clearEvidenceAndReports] the case is empty: the read path
    returns no report and no evidence, no id is found, and the next report
    saved is chapter 1 again. A clear whose transaction fails changes
    nothing. *)
Theorem clearEvidenceAndReports_resets (db : DB) :
  let db' := (clearEvidenceAndReports true db).1 in
  getAllReportsIndexed true db' = Resolved ([], [])
  ∧ (∀ id, getEvidenceById true id db' = Resolved None)
  ∧ index_order db' = []
  ∧ (∀ uuid now report,
       ∃ r, (saveReport io_ok uuid now report db').2 = Resolved r
            ∧ Report.chapterIndex r = 1
            ∧ index_order (saveReport io_ok uuid now report db').1 = [uuid])
  ∧ (clearEvidenceAndReports false db).1 = db.
Proof.
  intros db'.
  assert (Hm : META_STORE db' !! "reports_index" = None).
  { unfold db'. simpl. apply lookup_delete_eq. }
  assert (Ho : index_order db' = []).
  { unfold index_order. rewrite Hm. reflexivity. }
  split.
  { unfold getAllReportsIndexed, ordered_reports. rewrite Ho. simpl.
    unfold db', getAll. simpl. rewrite map_to_list_empty. reflexivity. }
  split.
  { intros id. unfold getEvidenceById, db'. simpl.
    rewrite lookup_empty. reflexivity. }
  split; [exact Ho|].
  split; [|reflexivity].
  intros uuid now report.
  assert (Hk : meta_keyed db').
  { intros m Hl. rewrite Hm in Hl. discriminate. }
  destruct (saveReport io_ok uuid now report db') as [db2 p] eqn:E.
  assert (Hp : ∃ r, p = Resolved r).
  { unfold saveReport in E. injection E as _ <-. eauto. }
  destruct Hp as [r ->].
  destruct (saveReport_resolved _ _ _ _ _ _ _ Hk E) as (_ & _ & Hc & Hord & _).
  exists r. simpl. split; [reflexivity|].
  rewrite Hc, Hord, Ho. unfold index_lastChapterIndex. rewrite Hm.
  split; reflexivity.
Qed.

(** An uploaded file whose text comes from OCR: [saveEvidence], then
    [updateEvidence] with the text added. [getEvidenceById] returns the
    evidence with the text and with the digest computed at upload, the
    store holds one more record than before and not two, and nothing else
    changes. *)
Theorem saveEvidence_update_read_back (uuid : string) (now : Z)
    (sha512 : string) (file : File) (jurisdiction : Jurisdiction)
    (timezone text : string) (db : DB) :
  EVIDENCE_STORE db !! uuid = None →
  let saved := saveEvidence true uuid now sha512 file jurisdiction timezone db in
  ∃ evidence,
    saved.2 = Resolved evidence
    ∧ Evidence.id evidence = uuid
    ∧ Evidence.name evidence = file_name file
    ∧ Evidence.sha512 evidence = sha512
    ∧ getEvidenceById true uuid saved.1 = Resolved (Some evidence)
    ∧ let updated := Evidence.with_ocrText evidence text in
      let db2 := (updateEvidence true updated saved.1).1 in
      getEvidenceById true uuid db2 = Resolved (Some updated)
      ∧ Evidence.sha512 updated = sha512
      ∧ Evidence.ocrText updated = Some text
      ∧ length (getAll (EVIDENCE_STORE db2))
        = S (length (getAll (EVIDENCE_STORE db)))
      ∧ (∀ id, id ≠ uuid →
               getEvidenceById true id db2 = getEvidenceById true id db)
      ∧ REPORTS_STORE db2 = REPORTS_STORE db
      ∧ META_STORE db2 = META_STORE db.
Proof.
  intros Hfresh saved. eexists. split; [reflexivity|].
  split; [reflexivity|]. split; [reflexivity|]. split; [reflexivity|].
  split.
  { unfold getEvidenceById, saved. simpl. rewrite lookup_insert_eq. reflexivity. }
  cbv zeta. unfold getEvidenceById, saved. simpl.
  rewrite insert_insert_eq, lookup_insert_eq.
  split; [reflexivity|]. split; [reflexivity|]. split; [reflexivity|].
  split.
  { unfold getAll. rewrite !length_fmap.
    rewrite (Permutation_length (map_to_list_insert _ _ _ Hfresh)).
    reflexivity. }
  split; [|split; reflexivity].
  intros id Hid. rewrite lookup_insert_ne by congruence. reflexivity.
Qed.

Lemma saveEvidence_update_read_back_witness :
  let saved := saveEvidence true "ev-0001" 1000 "aaaa"
                 (demo_file "statement.pdf") Global "UTC" empty_db in
  ∃ evidence,
    saved.2 = Resolved evidence
    ∧ getEvidenceById true "ev-0001"
        (updateEvidence true (Evidence.with_ocrText evidence "text") saved.1).1
      = Resolved (Some (Evidence.with_ocrText evidence "text"))
    ∧ Evidence.sha512 (Evidence.with_ocrText evidence "text") = "aaaa".
Proof.
  assert (Hfresh : EVIDENCE_STORE empty_db !! "ev-0001" = None).
  { vm_compute. reflexivity. }
  destruct (saveEvidence_update_read_back "ev-0001" 1000 "aaaa"
              (demo_file "statement.pdf") Global "UTC" "text" empty_db Hfresh)
    as (evidence & Hs & _ & _ & _ & _ & Hget & Hsha & _).
  exists evidence. split; [exact Hs|]. split; [exact Hget|exact Hsha].
Defined.

(* ----------------------------------------------------------------- *)
(** *** What the read path returns *)

Lemma getAll_ids_NoDup (store : gmap string Evidence.t) :
  (∀ k e, store !! k = Some e → Evidence.id e = k) →
  NoDup (map Evidence.id (getAll store)).
Proof.
  intros Hkeyed.
  assert (Hids : map Evidence.id (getAll store) = (map_to_list store).*1).
  { unfold getAll. rewrite <- list_fmap_compose.
    apply list_fmap_ext. intros i [k e] Hi. simpl.
    apply Hkeyed. apply elem_of_map_to_list.
    apply list_elem_of_lookup. eauto. }
  rewrite Hids. apply NoDup_fst_map_to_list.
Qed.

Lemma NoDup_map_filter {A B} (f : A → B) (P : A → Prop)
    `{∀ x, Decision (P x)} (l : list A) :
  NoDup (map f l) → NoDup (map f (filter P l)).
Proof.
  induction l as [|x l IH]; simpl; intros Hnd; [constructor|].
  apply NoDup_cons in Hnd as [Hx Hnd].
  rewrite filter_cons. destruct (decide (P x)); [|auto].
  simpl. apply NoDup_cons. split; [|auto].
  intros Hin. apply Hx.
  apply list_elem_of_fmap in Hin as (y & -> & Hy).
  apply list_elem_of_filter in Hy as [_ Hy].
  apply list_elem_of_fmap. eauto.
Qed.

(** In a database whose records are stored under their ids,
    [getAllReportsIndexed] returns exactly the stored reports of the ids
    in the index, in index order, and exactly the stored evidence that one
    of these reports references, each evidence once whatever the number
    of reports that cite it. *)
Theorem getAllReportsIndexed_complete (db : DB) :
  reports_keyed db →
  evidence_keyed db →
  ∃ reports evidence,
    getAllReportsIndexed true db = Resolved (reports, evidence)
    ∧ reports = omap (fun id => REPORTS_STORE db !! id) (index_order db)
    ∧ (∀ e, e ∈ evidence ↔
            EVIDENCE_STORE db !! Evidence.id e = Some e
            ∧ ∃ r ref, r ∈ reports ∧ ref ∈ Report.evidenceRefs r
                       ∧ ref_id ref = Evidence.id e)
    ∧ NoDup (map Evidence.id evidence).
Proof.
  intros Hr He. unfold getAllReportsIndexed.
  eexists _, _. split; [reflexivity|].
  assert (Hrep : ordered_reports db
                 = omap (fun id => REPORTS_STORE db !! id) (index_order db)).
  { unfold ordered_reports. rewrite (Map_new_getAll _ Hr). reflexivity. }
  split; [exact Hrep|].
  split.
  - intros e. rewrite list_elem_of_filter, evidence_ids_flatMap.
    rewrite elem_of_list_to_set.
    assert (Hstored : e ∈ getAll (EVIDENCE_STORE db)
                      ↔ EVIDENCE_STORE db !! Evidence.id e = Some e).
    { unfold getAll. rewrite list_elem_of_fmap. split.
      - intros ([k e'] & -> & Hin). apply elem_of_map_to_list in Hin.
        simpl. rewrite (He _ _ Hin). exact Hin.
      - intros Hl. exists (Evidence.id e, e). split; [reflexivity|].
        apply elem_of_map_to_list. exact Hl. }
    rewrite Hstored.
    assert (Hcited :
      Evidence.id e ∈ flat_map (fun r => map ref_id (Report.evidenceRefs r))
                               (ordered_reports db)
      ↔ ∃ r ref, r ∈ ordered_reports db ∧ ref ∈ Report.evidenceRefs r
                 ∧ ref_id ref = Evidence.id e).
    { rewrite list_elem_of_In, in_flat_map. split.
      - intros (r & Hin & Hid). apply list_elem_of_In in Hin.
        apply list_elem_of_In, list_elem_of_fmap in Hid as (ref & Hid & Href).
        eauto.
      - intros (r & ref & Hin & Href & Hid). exists r.
        split; [apply list_elem_of_In; exact Hin|].
        apply list_elem_of_In, list_elem_of_fmap. eauto. }
    rewrite Hcited. tauto.
  - apply NoDup_map_filter. apply getAll_ids_NoDup. exact He.
Qed.

Lemma db_case_keyed : reports_keyed db_case ∧ evidence_keyed db_case.
Proof.
  split; intros k x Hl; unfold db_case in Hl; simpl in Hl;
    apply lookup_insert_Some in Hl as [[<- <-]|[_ Hl]];
    first [reflexivity | rewrite lookup_empty in Hl; discriminate].
Qed.

Lemma getAllReportsIndexed_complete_witness :
  ∃ reports evidence,
    getAllReportsIndexed true db_case = Resolved (reports, evidence)
    ∧ reports = [report_A]
    ∧ NoDup (map Evidence.id evidence).
Proof.
  destruct (getAllReportsIndexed_complete db_case
              (proj1 db_case_keyed) (proj2 db_case_keyed))
    as (reports & evidence & Hget & Hrep & _ & Hnd).
  exists reports, evidence. split; [exact Hget|].
  split; [|exact Hnd].
  rewrite Hrep. vm_compute. reflexivity.
Defined.

(* ----------------------------------------------------------------- *)
(** *** Reading back after failed saves *)

Lemma saveReport_effect io uuid now report db :
  meta_keyed db →
  let out := saveReport io uuid now report db in
  meta_keyed out.1
  ∧ EVIDENCE_STORE out.1 = EVIDENCE_STORE db
  ∧ match io with
    | io_ok =>
      ∃ r, out.2 = Resolved r ∧ Report.id r = uuid
           ∧ index_order out.1 = index_order db ++ [uuid]
           ∧ REPORTS_STORE out.1 = <[uuid := r]> (REPORTS_STORE db)
    | io_reportTransaction_error =>
      out.2 = Rejected
      ∧ index_order out.1 = index_order db ++ [uuid]
      ∧ REPORTS_STORE out.1 = REPORTS_STORE db
    | _ => out = (db, Rejected)
    end.
Proof.
  intros Hk out.
  assert (Hkey : ReportsIndexMeta.key
                   (default default_meta (META_STORE db !! "reports_index"))
                 = "reports_index").
  { destruct (META_STORE db !! "reports_index") as [m|] eqn:E; simpl; auto. }
  assert (Hord : ∀ m' : ReportsIndexMeta.t,
            ReportsIndexMeta.order m'
            = ReportsIndexMeta.order
                (default default_meta (META_STORE db !! "reports_index"))
              ++ [uuid] →
            ReportsIndexMeta.order m' = index_order db ++ [uuid]).
  { intros m' ->. unfold index_order.
    destruct (META_STORE db !! "reports_index"); reflexivity. }
  destruct io; subst out; cbn [saveReport fst snd].
  - split.
    { intros m. cbn [META_STORE]. rewrite Hkey, lookup_insert_eq.
      intros [= <-]. reflexivity. }
    split; [reflexivity|].
    eexists. split; [reflexivity|]. split; [reflexivity|].
    split; [|reflexivity].
    unfold index_order at 1. cbn [META_STORE].
    rewrite Hkey, lookup_insert_eq. apply Hord. reflexivity.
  - split; [exact Hk|]. split; reflexivity.
  - split; [exact Hk|]. split; reflexivity.
  - split.
    { intros m. cbn [META_STORE]. rewrite Hkey, lookup_insert_eq.
      intros [= <-]. reflexivity. }
    split; [reflexivity|]. split; [reflexivity|].
    split; [|reflexivity].
    unfold index_order at 1. cbn [META_STORE].
    rewrite Hkey, lookup_insert_eq. apply Hord. reflexivity.
Qed.

Lemma omap_lookup_ext {A} (m m' : gmap string A) (order : list string) :
  (∀ id, id ∈ order → m' !! id = m !! id) →
  omap (fun id => m' !! id) order = omap (fun id => m !! id) order.
Proof.
  induction order as [|id order IH]; intros H; [reflexivity|].
  cbn [omap list_omap]. rewrite (H id ltac:(left)).
  rewrite IH; [reflexivity|]. intros id' Hid. apply H. right. exact Hid.
Qed.

Lemma run_saveReports_read calls : ∀ db db' outs,
  meta_keyed db → reports_keyed db →
  NoDup (map call_uuid calls) →
  (∀ u, u ∈ map call_uuid calls →
        (u ∉ index_order db) ∧ REPORTS_STORE db !! u = None) →
  run_saveReports calls db = (db', outs) →
  reports_keyed db'
  ∧ EVIDENCE_STORE db' = EVIDENCE_STORE db
  ∧ omap (fun id => REPORTS_STORE db' !! id) (index_order db')
    = omap (fun id => REPORTS_STORE db !! id) (index_order db)
      ++ resolved_values outs.
Proof.
  induction calls as [|c rest IH]; intros db db' outs Hm Hk Hnd Hfresh Hrun;
    simpl in Hrun.
  - injection Hrun as <- <-. simpl. rewrite app_nil_r. auto.
  - destruct (saveReport (call_io c) (call_uuid c) (call_now c)
                         (call_report c) db) as [db1 p] eqn:Es.
    destruct (run_saveReports rest db1) as [db2 ps] eqn:Er.
    injection Hrun as <- <-.
    simpl in Hnd. apply NoDup_cons in Hnd as [Hnew Hnd].
    destruct (Hfresh (call_uuid c) ltac:(left)) as [Hnotin Hnone].
    pose proof (saveReport_effect (call_io c) (call_uuid c) (call_now c)
                  (call_report c) db Hm) as Heff.
    rewrite Es in Heff. cbn [fst snd] in Heff.
    destruct Heff as (Hm1 & Hev1 & Hio).
    assert (Hstep :
      reports_keyed db1
      ∧ (∀ u, u ∈ map call_uuid rest →
              (u ∉ index_order db1) ∧ REPORTS_STORE db1 !! u = None)
      ∧ omap (fun id => REPORTS_STORE db1 !! id) (index_order db1)
        = omap (fun id => REPORTS_STORE db !! id) (index_order db)
          ++ resolved_values [p]).
    { assert (Hrest : ∀ u, u ∈ map call_uuid rest → u ≠ call_uuid c).
      { intros u Hu ->. contradiction. }
      destruct (call_io c).
      - destruct Hio as (r & -> & Hid & Ho & Hst).
        split.
        { intros k r' Hl. rewrite Hst in Hl.
          apply lookup_insert_Some in Hl as [[<- <-]|[_ Hl]]; [exact Hid|].
          exact (Hk _ _ Hl). }
        split.
        { intros u Hu. destruct (Hfresh u ltac:(right; exact Hu)) as [H1 H2].
          split.
          - rewrite Ho, elem_of_app, list_elem_of_singleton.
            intros [H|H]; [contradiction|]. exact (Hrest u Hu H).
          - rewrite Hst, lookup_insert_ne; [exact H2|].
            intros Heq. exact (Hrest u Hu (eq_sym Heq)). }
        rewrite Ho, omap_app. cbn [omap list_omap resolved_values].
        rewrite Hst, lookup_insert_eq. f_equal.
        apply omap_lookup_ext. intros id Hid'.
        apply lookup_insert_ne. intros Heq. apply Hnotin.
        rewrite Heq. exact Hid'.
      - injection Hio as -> ->.
        split; [exact Hk|].
        split; [intros u Hu; apply Hfresh; right; exact Hu|].
        simpl. rewrite app_nil_r. reflexivity.
      - injection Hio as -> ->.
        split; [exact Hk|].
        split; [intros u Hu; apply Hfresh; right; exact Hu|].
        simpl. rewrite app_nil_r. reflexivity.
      - destruct Hio as (-> & Ho & Hst).
        split; [intros k r' Hl; rewrite Hst in Hl; exact (Hk _ _ Hl)|].
        split.
        { intros u Hu. destruct (Hfresh u ltac:(right; exact Hu)) as [H1 H2].
          split.
          - rewrite Ho, elem_of_app, list_elem_of_singleton.
            intros [H|H]; [contradiction|]. exact (Hrest u Hu H).
          - rewrite Hst. exact H2. }
        rewrite Ho, Hst, omap_app. cbn [omap list_omap resolved_values].
        rewrite Hnone. reflexivity. }
    destruct Hstep as (Hk1 & Hfresh1 & Hread1).
    destruct (IH db1 db2 ps Hm1 Hk1 Hnd Hfresh1 Er) as (Hk2 & Hev2 & Hread2).
    split; [exact Hk2|]. split; [congruence|].
    rewrite Hread2, Hread1, <- app_assoc. f_equal.
    destruct p; reflexivity.
Qed.

(** Whatever fails among calls of [saveReport] with distinct UUIDs on an
    empty database, [getAllReportsIndexed] afterwards returns exactly the
    reports that the calls returned, in call order: the ids that a failed
    write left in the index are passed over. *)
Theorem reports_read_back_after_failures (calls : list SaveCall)
    (db' : DB) (outs : list (Promise Report.t)) :
  run_saveReports calls empty_db = (db', outs) →
  NoDup (map call_uuid calls) →
  getAllReportsIndexed true db' = Resolved (resolved_values outs, []).
Proof.
  intros Hrun Hnd.
  assert (Hk0 : reports_keyed empty_db).
  { intros k r Hr.
    change (REPORTS_STORE empty_db) with (∅ : gmap string Report.t) in Hr.
    rewrite lookup_empty in Hr. discriminate. }
  destruct (run_saveReports_read calls empty_db db' outs meta_keyed_empty Hk0
              Hnd) as (Hk & Hev & Hread); [|exact Hrun|].
  { intros u _. split; [apply not_elem_of_nil|].
    change (REPORTS_STORE empty_db) with (∅ : gmap string Report.t).
    apply lookup_empty. }
  unfold getAllReportsIndexed, ordered_reports.
  rewrite (Map_new_getAll _ Hk), Hread, Hev.
  change (index_order empty_db) with (@nil string).
  change (EVIDENCE_STORE empty_db) with (∅ : gmap string Evidence.t).
  unfold getAll at 1. rewrite map_to_list_empty. reflexivity.
Qed.

Lemma reports_read_back_after_failures_witness :
  let '(db', outs) := run_saveReports demo_calls_failing empty_db in
  getAllReportsIndexed true db' = Resolved (resolved_values outs, [])
  ∧ map Report.id (resolved_values outs) = ["r-0001"; "r-0003"]
  ∧ index_order db' = ["r-0001"; "r-0002"; "r-0003"].
Proof.
  destruct (run_saveReports demo_calls_failing empty_db) as [db' outs] eqn:E.
  assert (Hnd : NoDup (map call_uuid demo_calls_failing)).
  { apply (bool_decide_unpack _). vm_compute. exact I. }
  split; [exact (reports_read_back_after_failures _ _ _ E Hnd)|].
  vm_compute in E. injection E as <- <-. split; reflexivity.
Defined.

(* ----------------------------------------------------------------- *)
(** *** What the records of a result cite *)

Lemma drift_rule_names evA evB c :
  c ∈ drift_rule evA evB →
  stripExtension (Evidence.name evA) ≠ stripExtension (Evidence.name evB)
  ∧ (includes (stripExtension (Evidence.name evA))
              (stripExtension (Evidence.name evB)) = true
     ∨ includes (stripExtension (Evidence.name evB))
                (stripExtension (Evidence.name evA)) = true).
Proof.
  unfold drift_rule. intros Hc.
  destruct (includes _ _ || includes _ _) eqn:Hinc; simpl in Hc;
    [|apply not_elem_of_nil in Hc; contradiction].
  destruct (String.eqb _ _) eqn:Hname; simpl in Hc;
    [apply not_elem_of_nil in Hc; contradiction|].
  apply String.eqb_neq in Hname. apply orb_true_iff in Hinc. auto.
Qed.

Lemma drift_pairs_names scope c :
  c ∈ drift_pairs scope →
  ∃ evA evB, evA ∈ scope ∧ evB ∈ scope
    ∧ RawContradiction.sources c = [Evidence.id evA; Evidence.id evB]
    ∧ Evidence.sha512 evA ≠ Evidence.sha512 evB
    ∧ stripExtension (Evidence.name evA) ≠ stripExtension (Evidence.name evB).
Proof.
  induction scope as [|evA later IH]; simpl; intros Hc.
  - apply not_elem_of_nil in Hc. contradiction.
  - apply elem_of_app in Hc as [Hc|Hc].
    + apply list_elem_of_In, in_flat_map in Hc as (evB & HB & Hc).
      apply list_elem_of_In in HB. apply list_elem_of_In in Hc.
      destruct (drift_rule_spec _ _ _ Hc) as (_ & Hsrc & Hsha).
      destruct (drift_rule_names _ _ _ Hc) as [Hname _].
      exists evA, evB. split; [left|]. split; [right; exact HB|]. auto.
    + destruct (IH Hc) as (a & b & Ha & Hb & Hrest).
      exists a, b. split; [right; exact Ha|]. split; [right; exact Hb|].
      exact Hrest.
Qed.

Lemma scope_elem_input reports evidence pass e :
  reordering reports evidence pass →
  e ∈ allEvidenceInScope pass.1 pass.2 →
  e ∈ evidence ∧ Evidence.id e ∈ map ref_id (all_refs reports).
Proof.
  intros [Hpr Hpe] He. split.
  - rewrite <- Hpe. eapply scope_in_evidence. exact He.
  - assert (Hid : Evidence.id e
                  ∈ map Evidence.id (allEvidenceInScope pass.1 pass.2)).
    { apply list_elem_of_fmap. eauto. }
    apply scope_ids in Hid as [Hid _].
    rewrite <- (all_refs_Permutation _ _ Hpr). exact Hid.
Qed.

(** Every record of a result cites evidence of the list given to
    [runContradictionAnalysis] that a report references, and nothing else.
    A [cross_doc_drift] record cites two such items, with different
    digests and with names that differ once lower-cased and stripped of
    their extension; a record of another type is a [metadata_mismatch] or
    an [omission] and cites one item, which has text. No record is of type
    [direct]. *)
Theorem runContradictionAnalysis_cites_scope (P : Platform)
    (reports : list Report.t) (evidence : list Evidence.t) (tape : Tape)
    (c : Contradiction.t) :
  c ∈ runContradictionAnalysis P reports evidence tape →
  let cited e :=
    e ∈ evidence ∧ Evidence.id e ∈ map ref_id (all_refs reports) in
  (Contradiction.type c = cross_doc_drift
   ∧ ∃ evA evB,
       cited evA ∧ cited evB
       ∧ Contradiction.sources c = [Evidence.id evA; Evidence.id evB]
       ∧ Evidence.sha512 evA ≠ Evidence.sha512 evB
       ∧ stripExtension (Evidence.name evA) ≠ stripExtension (Evidence.name evB))
  ∨ ((Contradiction.type c = metadata_mismatch
      ∨ Contradiction.type c = omission)
     ∧ ∃ e, cited e ∧ has_text e = true
            ∧ Contradiction.sources c = [Evidence.id e]).
Proof.
  intros Hc cited.
  apply result_from_pass in Hc as (pass & c0 & n & Hp & Hc0 & -> & _).
  simpl.
  apply analyzeContradictionsOnce_spec in Hc0. cbv zeta in Hc0.
  destruct Hc0 as [Hd | (e & He & Ht & [Hm | Ho])].
  - left. destruct (drift_pairs_spec _ _ Hd) as [Hty _].
    split; [exact Hty|].
    destruct (drift_pairs_names _ _ Hd) as (a & b & Ha & Hb & Hrest).
    exists a, b.
    split; [exact (scope_elem_input _ _ _ _ Hp Ha)|].
    split; [exact (scope_elem_input _ _ _ _ Hp Hb)|]. exact Hrest.
  - right. apply metadata_mismatches_spec in Hm as (d & _ & _ & ->).
    split; [left; reflexivity|].
    exists e. split; [exact (scope_elem_input _ _ _ _ Hp He)|]. auto.
  - right. destruct (omissions_spec _ _ _ Ho) as [Hty Hsrc].
    split; [right; exact Hty|].
    exists e. split; [exact (scope_elem_input _ _ _ _ Hp He)|]. auto.
Qed.

Lemma runContradictionAnalysis_cites_scope_witness :
  ∃ evA evB,
    evA ∈ [ev_statement; ev_statement_v2]
    ∧ evB ∈ [ev_statement; ev_statement_v2]
    ∧ Contradiction.sources demo_drift_record
      = [Evidence.id evA; Evidence.id evB]
    ∧ Evidence.sha512 evA ≠ Evidence.sha512 evB.
Proof.
  destruct (runContradictionAnalysis_cites_scope ReferencePlatform.platform
              [report_A; report_B] [ev_statement; ev_statement_v2]
              tape_steady demo_drift_record)
    as [(_ & a & b & [Ha _] & [Hb _] & Hs & Hsha & _) | [[Hty|Hty] _]].
  - vm_compute. left.
  - exists a, b. auto.
  - discriminate Hty.
  - discriminate Hty.
Defined.

(* ----------------------------------------------------------------- *)
(** *** Records that every pass finds *)

Lemma existsb_ext_elem {A} (f : A → bool) (l l' : list A) :
  (∀ x, x ∈ l ↔ x ∈ l') → existsb f l = existsb f l'.
Proof.
  intros Hiff. apply eq_true_iff_eq. rewrite !existsb_exists.
  split; intros (x & Hx & Hf); exists x; split; auto;
    apply list_elem_of_In, Hiff, list_elem_of_In; exact Hx.
Qed.

Lemma omissions_scope_ext scope scope' evidence :
  (∀ x, x ∈ scope ↔ x ∈ scope') →
  omissions scope evidence = omissions scope' evidence.
Proof.
  intros Hiff. unfold omissions. apply flat_map_ext. intros m.
  unfold omission_rule. rewrite (existsb_ext_elem _ scope scope' Hiff).
  reflexivity.
Qed.

(** With distinct ids, what a pass finds outside [drift_pairs] does not
    depend on the order of its inputs. *)
Lemma single_source_pass_invariant P reports evidence pass pass' c :
  NoDup (map Evidence.id evidence) →
  reordering reports evidence pass →
  reordering reports evidence pass' →
  c ∈ analyzeContradictionsOnce P pass.1 pass.2 →
  RawContradiction.type c ≠ cross_doc_drift →
  c ∈ analyzeContradictionsOnce P pass'.1 pass'.2.
Proof.
  intros Hnd Hp Hp' Hc Hty.
  assert (Hscope : ∀ x, x ∈ allEvidenceInScope pass.1 pass.2
                        ↔ x ∈ allEvidenceInScope pass'.1 pass'.2).
  { intros x. rewrite (scope_elem_Permutation _ _ _ x Hnd Hp).
    rewrite (scope_elem_Permutation _ _ _ x Hnd Hp'). reflexivity. }
  apply analyzeContradictionsOnce_spec in Hc. cbv zeta in Hc.
  apply analyzeContradictionsOnce_spec. cbv zeta.
  destruct Hc as [Hd | (e & He & Ht & Hrule)].
  - destruct (drift_pairs_spec _ _ Hd) as [Hty' _]. contradiction.
  - right. exists e. split; [apply Hscope; exact He|].
    split; [exact Ht|].
    destruct Hrule as [Hm|Ho]; [left; exact Hm|right].
    rewrite <- (omissions_scope_ext _ _ e Hscope). exact Ho.
Qed.

(** When the evidence items have distinct ids, every record of type
    [metadata_mismatch] or [omission] is found by each of the three passes
    and is therefore classified [Verified (3/3)]: a lower tier occurs on
    [cross_doc_drift] records only. *)
Theorem single_source_records_verified (P : Platform)
    (reports : list Report.t) (evidence : list Evidence.t) (tape : Tape)
    (c : Contradiction.t) :
  NoDup (map Evidence.id evidence) →
  c ∈ runContradictionAnalysis P reports evidence tape →
  Contradiction.type c ≠ cross_doc_drift →
  Contradiction.verification c = Verified_3_3.
Proof.
  intros Hnd Hc Hty.
  apply result_from_pass in Hc as (pass & c0 & n & Hp & Hc0 & -> & Hn).
  simpl in Hty. simpl.
  apply verification_of_three.
  destruct (allFound_passes P 3 reports evidence tape)
    as (passes & Hlen & Hall & Heq).
  rewrite Forall_forall in Hall.
  rewrite Hn, Heq, <- Hlen.
  apply occurrences_flat_map. intros pass' Hp'.
  exists c0. unfold pass_found.
  apply (list_elem_of_fmap_2 (fun c => (c, contradiction_key c))).
  eapply single_source_pass_invariant; eauto.
Qed.

Lemma single_source_records_verified_witness :
  Contradiction.type demo_omission_record = omission
  ∧ Contradiction.verification demo_omission_record = Verified_3_3.
Proof.
  split; [reflexivity|].
  refine (single_source_records_verified ReferencePlatform.platform
            [report_A] [ev_exhibit] tape_steady demo_omission_record _ _ _).
  - apply (bool_decide_unpack _). vm_compute. exact I.
  - vm_compute. left.
  - discriminate.
Defined.

(** The records of type [metadata_mismatch] and [omission] do not depend
    on the values of [Math.random]: when the evidence items have distinct
    ids, a key that one run reports for such a record is reported by
    every run, for a record of the same type classified
    [Verified (3/3)]. *)
Theorem single_source_records_reproducible (P : Platform)
    (reports : list Report.t) (evidence : list Evidence.t)
    (tape tape' : Tape) (c : Contradiction.t) :
  NoDup (map Evidence.id evidence) →
  c ∈ runContradictionAnalysis P reports evidence tape →
  Contradiction.type c ≠ cross_doc_drift →
  ∃ c', c' ∈ runContradictionAnalysis P reports evidence tape'
        ∧ key_of c' = key_of c
        ∧ Contradiction.type c' = Contradiction.type c
        ∧ Contradiction.verification c' = Verified_3_3.
Proof.
  intros Hnd Hc Hty.
  apply result_from_pass in Hc as (pass & c0 & n & Hp & Hc0 & -> & _).
  simpl in Hty. rewrite key_of_of_raw.
  destruct (allFound_passes P 3 reports evidence tape')
    as (passes & Hlen & Hall & Heq).
  rewrite Forall_forall in Hall.
  assert (Hin : ∀ pass', pass' ∈ passes →
            (c0, contradiction_key c0) ∈ pass_found P pass').
  { intros pass' Hp'. unfold pass_found.
    apply (list_elem_of_fmap_2 (fun c => (c, contradiction_key c))).
    eapply single_source_pass_invariant; eauto. }
  pose proof (contradictionCounts_counted
                (allFoundContradictions P 3 reports evidence tape'))
    as (_ & Hkeys & Hent).
  assert (Hk : contradiction_key c0
               ∈ map fst (contradictionCounts
                            (allFoundContradictions P 3 reports evidence tape'))).
  { apply Hkeys. rewrite Heq. apply list_elem_of_fmap.
    exists (c0, contradiction_key c0). split; [reflexivity|].
    destruct passes as [|pass' passes]; [discriminate Hlen|].
    simpl. apply elem_of_app. left. apply Hin. left. }
  apply list_elem_of_fmap in Hk as ([k [c1 n1]] & Hk & Hentry).
  simpl in Hk. subst k.
  destruct (Hent _ _ _ Hentry) as [Hcount Hc1].
  pose proof (allFound_keys _ _ _ _ _ _ _ Hc1) as Hkey1.
  exists (Contradiction.of_raw c1 (verification_of n1)).
  split; [apply result_entries; eauto|].
  split; [rewrite key_of_of_raw; symmetry; exact Hkey1|].
  split; [simpl; symmetry; apply key_determines_type; exact Hkey1|].
  simpl. apply verification_of_three.
  rewrite Hcount, Heq, <- Hlen.
  apply occurrences_flat_map. intros pass' Hp'. eauto.
Qed.

Lemma single_source_records_reproducible_witness :
  ∃ c', c' ∈ runContradictionAnalysis ReferencePlatform.platform
               [report_A] [ev_exhibit] tape_swap_first
        ∧ key_of c' = key_of demo_omission_record
        ∧ Contradiction.type c' = omission
        ∧ Contradiction.verification c' = Verified_3_3.
Proof.
  refine (single_source_records_reproducible ReferencePlatform.platform
            [report_A] [ev_exhibit] tape_steady tape_swap_first
            demo_omission_record _ _ _).
  - apply (bool_decide_unpack _). vm_compute. exact I.
  - vm_compute. left.
  - discriminate.
Defined.

(* ----------------------------------------------------------------- *)
(** *** Evidence with text *)

Lemma drop_spaces_nil (l : list ascii) :
  Forall (fun c => is_space c = true) l → drop_spaces l = [].
Proof.
  induction 1 as [|c l Hc _ IH]; [reflexivity|].
  cbn [drop_spaces]. rewrite Hc. exact IH.
Qed.

Lemma drop_spaces_keeps (l : list ascii) c :
  c ∈ l → is_space c = false → c ∈ drop_spaces l.
Proof.
  induction l as [|x l IH]; intros Hin Hc.
  - apply not_elem_of_nil in Hin. contradiction.
  - cbn [drop_spaces]. destruct (is_space x) eqn:Hx; [|exact Hin].
    apply elem_of_cons in Hin as [->|Hin]; [congruence|auto].
Qed.

Lemma length_string_of_list_ascii (l : list ascii) :
  String.length (string_of_list_ascii l) = length l.
Proof. induction l as [|c l IH]; simpl; congruence. Qed.

Lemma trim_length (text : string) :
  String.length (trim text) ≠ 0%nat
  ↔ Exists (fun c => is_space c = false) (list_ascii_of_string text).
Proof.
  unfold trim. rewrite length_string_of_list_ascii, length_rev.
  split.
  - intros Hlen.
    destruct (decide (Exists (fun c => is_space c = false)
                             (list_ascii_of_string text))) as [Hex|Hno];
      [exact Hex|].
    exfalso. apply Hlen.
    rewrite (drop_spaces_nil (list_ascii_of_string text)); [reflexivity|].
    apply Forall_forall. intros c Hc.
    destruct (is_space c) eqn:Hs; [reflexivity|].
    exfalso. apply Hno. apply Exists_exists. exists c.
    split; [exact Hc|exact Hs].
  - intros Hex. apply Exists_exists in Hex as (c & Hc & Hs).
    assert (Hin : c ∈ drop_spaces
                        (rev (drop_spaces (list_ascii_of_string text)))).
    { apply drop_spaces_keeps; [|exact Hs].
      apply list_elem_of_In. apply -> in_rev. apply list_elem_of_In.
      apply drop_spaces_keeps; assumption. }
    destruct (drop_spaces _); [apply not_elem_of_nil in Hin; contradiction|].
    discriminate.
Qed.

(** An evidence counts as text evidence exactly when it has an OCR text
    with a character that is not white space. *)
Theorem has_text_iff (e : Evidence.t) :
  has_text e = true
  ↔ ∃ text, Evidence.ocrText e = Some text
            ∧ Exists (fun c => is_space c = false) (list_ascii_of_string text).
Proof.
  unfold has_text. destruct (Evidence.ocrText e) as [text|].
  - rewrite negb_true_iff, Nat.eqb_neq, trim_length. split.
    + intros Hex. exists text. auto.
    + intros (text' & [= <-] & Hex). exact Hex.
  - split; [discriminate|intros (text & Heq & _); discriminate].
Qed.

(** An evidence without text, or whose text is white space only, is cited
    by no [metadata_mismatch] and no [omission] record: with distinct ids,
    no record of a result has it as its single source. *)
Theorem blank_evidence_not_inspected (P : Platform)
    (reports : list Report.t) (evidence : list Evidence.t) (tape : Tape)
    (e : Evidence.t) :
  NoDup (map Evidence.id evidence) →
  e ∈ evidence →
  (∀ text, Evidence.ocrText e = Some text →
           Forall (fun c => is_space c = true) (list_ascii_of_string text)) →
  Forall (fun c => Contradiction.sources c ≠ [Evidence.id e])
         (runContradictionAnalysis P reports evidence tape).
Proof.
  intros Hnd He Hblank. apply Forall_forall. intros c Hc Hsrc.
  assert (Hno : has_text e = false).
  { apply not_true_iff_false. rewrite has_text_iff.
    intros (text & Htext & Hex).
    apply Exists_exists in Hex as (x & Hx & Hs).
    pose proof (Hblank text Htext) as Hall.
    rewrite Forall_forall in Hall. rewrite (Hall x Hx) in Hs. discriminate. }
  apply result_from_pass in Hc as (pass & c0 & n & Hp & Hc0 & -> & _).
  simpl in Hsrc.
  apply analyzeContradictionsOnce_cases in Hc0. cbv zeta in Hc0.
  assert (Hsame : ∀ e0, e0 ∈ allEvidenceInScope pass.1 pass.2 →
            has_text e0 = true →
            RawContradiction.sources c0 = [Evidence.id e0] → False).
  { intros e0 He0 Ht Hs0. rewrite Hs0 in Hsrc. injection Hsrc as Hid.
    destruct (scope_elem_input _ _ _ _ Hp He0) as [He0' _].
    apply (NoDup_map_inj Evidence.id evidence) in Hid; auto.
    subst e0. congruence. }
  destruct Hc0 as [(_ & a & b & _ & _ & Hs0 & _)
                  | [(e0 & d & He0 & Ht & _ & _ & ->) | (_ & e0 & He0 & Ht & Hs0)]].
  - rewrite Hs0 in Hsrc. discriminate.
  - exact (Hsame e0 He0 Ht eq_refl).
  - exact (Hsame e0 He0 Ht Hs0).
Qed.

Lemma blank_evidence_not_inspected_witness :
  Forall (fun c => Contradiction.sources c ≠ ["ev-B"])
         (runContradictionAnalysis ReferencePlatform.platform
            [report_A; report_B] [ev_exhibit; ev_blank] tape_steady).
Proof.
  apply (blank_evidence_not_inspected ReferencePlatform.platform
           [report_A; report_B] [ev_exhibit; ev_blank] tape_steady ev_blank).
  - apply (bool_decide_unpack _). vm_compute. exact I.
  - right. left.
  - intros text [= <-]. repeat constructor.
Defined.

(* ----------------------------------------------------------------- *)
(** *** The orders [shuffle] can return *)

Lemma shuffle_from_tape {T} i : ∀ (a : list T) tape,
  (shuffle_from i a tape).2 = drop i tape.
Proof.
  induction i as [|i IH]; intros a tape; simpl; [reflexivity|].
  destruct tape as [|d tape]; simpl; rewrite IH; [apply drop_nil|reflexivity].
Qed.

Lemma swap_length {T} (a : list T) i j : length (swap a i j) = length a.
Proof.
  unfold swap. destruct (a !! i), (a !! j); try reflexivity.
  rewrite !length_insert. reflexivity.
Qed.

Lemma shuffle_from_reaches {T} i : ∀ (a b : list T),
  (i < length a)%nat →
  take (S i) a ≡ₚ take (S i) b →
  drop (S i) a = drop (S i) b →
  ∃ tape, (shuffle_from i a tape).1 = b.
Proof.
  induction i as [|i IH]; intros a b Hi Htake Hdrop.
  - exists []. simpl.
    rewrite <- (take_drop 1 a), <- (take_drop 1 b), Hdrop. f_equal.
    destruct a as [|x a]; [simpl in Hi; lia|].
    destruct b as [|y b]; simpl in *; rewrite ?take_0 in *.
    + apply Permutation_nil_r in Htake. discriminate.
    + apply Permutation_singleton_l in Htake. congruence.
  - assert (Hlen : length a = length b).
    { rewrite <- (take_drop (S (S i)) a), <- (take_drop (S (S i)) b).
      rewrite !length_app, Hdrop. f_equal. apply Permutation_length. exact Htake. }
    destruct (lookup_lt_is_Some_2 b (S i)) as [x Hx]; [lia|].
    destruct (lookup_lt_is_Some_2 a (S i)) as [y Hy]; [lia|].
    assert (Hin : x ∈ take (S (S i)) a).
    { rewrite Htake. apply list_elem_of_lookup. exists (S i).
      rewrite lookup_take_lt by lia. exact Hx. }
    apply list_elem_of_lookup in Hin as [j Hj].
    assert (Hjlt : (j < S (S i))%nat).
    { apply lookup_lt_Some in Hj. rewrite length_take in Hj. lia. }
    rewrite lookup_take_lt in Hj by lia.
    set (a' := swap a (S i) j).
    assert (Ha'x : a' !! S i = Some x).
    { unfold a', swap. rewrite Hy, Hj.
      destruct (decide (j = S i)) as [->|Hne].
      - rewrite list_lookup_insert_eq by (rewrite length_insert; lia).
        congruence.
      - rewrite list_lookup_insert_ne by exact Hne.
        apply list_lookup_insert_eq. lia. }
    assert (Ha'drop : drop (S (S i)) a' = drop (S (S i)) a).
    { unfold a', swap. rewrite Hy, Hj.
      rewrite !drop_insert_lt by lia. reflexivity. }
    assert (Ha'take : take (S (S i)) a' ≡ₚ take (S (S i)) a).
    { apply (Permutation_app_inv_r (drop (S (S i)) a)).
      rewrite <- Ha'drop at 1. rewrite !take_drop.
      apply swap_Permutation. }
    destruct (IH a' b) as [tape Htape].
    + unfold a'. rewrite swap_length. lia.
    + apply (Permutation_app_inv_r [x]).
      rewrite <- (take_S_r a' (S i) x Ha'x), <- (take_S_r b (S i) x Hx).
      rewrite Ha'take. exact Htake.
    + rewrite (drop_S a' x (S i) Ha'x), (drop_S b x (S i) Hx).
      rewrite Ha'drop, Hdrop. reflexivity.
    + exists (j :: tape). cbn [shuffle_from random_below].
      rewrite Nat.mod_small by lia. exact Htape.
Qed.

(** [shuffle] can return every order of its input and nothing else: a list
    is a result of [shuffle] for some values of [Math.random] exactly when
    it is a permutation of the input. It draws one value per element but
    the first. *)
Theorem shuffle_returns_the_permutations {T} (array target : list T) :
  ((∃ tape, (shuffle array tape).1 = target) ↔ target ≡ₚ array)
  ∧ (∀ tape, length (shuffle array tape).1 = length array
             ∧ (shuffle array tape).2 = drop (length array - 1) tape).
Proof.
  split.
  - split.
    + intros [tape <-]. apply shuffle_Permutation.
    + intros Hperm. unfold shuffle.
      destruct array as [|x array].
      * apply Permutation_nil_r in Hperm. subst target. exists []. reflexivity.
      * apply shuffle_from_reaches.
        -- simpl. lia.
        -- rewrite !take_ge; [symmetry; exact Hperm| |];
             [rewrite (Permutation_length Hperm)|]; simpl; lia.
        -- rewrite !drop_ge; [reflexivity| |];
             [rewrite (Permutation_length Hperm)|]; simpl; lia.
  - intros tape. split.
    + apply Permutation_length, shuffle_Permutation.
    + apply shuffle_from_tape.
Qed.

(* ----------------------------------------------------------------- *)
(** *** [Array_sort] and what is built on it *)

Lemma String_compare_trans (s1 : string) : ∀ s2 s3,
  String.compare s1 s2 ≠ Gt → String.compare s2 s3 ≠ Gt →
  String.compare s1 s3 ≠ Gt.
Proof.
  induction s1 as [|c1 s1 IH]; intros [|c2 s2] [|c3 s3]; simpl;
    try congruence.
  unfold Ascii.compare.
  destruct (N.compare_spec (N_of_ascii c1) (N_of_ascii c2)) as [E12|L12|G12];
    destruct (N.compare_spec (N_of_ascii c2) (N_of_ascii c3)) as [E23|L23|G23];
    destruct (N.compare_spec (N_of_ascii c1) (N_of_ascii c3)) as [E13|L13|G13];
    try congruence; try lia.
  apply IH.
Qed.

Lemma String_leb_trans s1 s2 s3 :
  String.leb s1 s2 = true → String.leb s2 s3 = true → String.leb s1 s3 = true.
Proof.
  unfold String.leb. intros H12 H23.
  pose proof (String_compare_trans s1 s2 s3) as Ht.
  destruct (String.compare s1 s2), (String.compare s2 s3),
           (String.compare s1 s3); try reflexivity; try discriminate;
    exfalso; apply Ht; congruence.
Qed.

Lemma sort_insert_comm x y l :
  sort_insert x (sort_insert y l) = sort_insert y (sort_insert x l).
Proof.
  induction l as [|z l IH]; simpl.
  - destruct (String.leb x y) eqn:Hxy, (String.leb y x) eqn:Hyx;
      try reflexivity.
    + rewrite (String.leb_antisym _ _ Hxy Hyx). reflexivity.
    + destruct (String.leb_total x y); congruence.
  - destruct (String.leb y z) eqn:Hyz, (String.leb x z) eqn:Hxz; simpl;
      rewrite ?Hyz, ?Hxz.
    + destruct (String.leb x y) eqn:Hxy, (String.leb y x) eqn:Hyx;
        try reflexivity.
      * rewrite (String.leb_antisym _ _ Hxy Hyx). reflexivity.
      * destruct (String.leb_total x y); congruence.
    + destruct (String.leb x y) eqn:Hxy; [|reflexivity].
      rewrite (String_leb_trans _ _ _ Hxy Hyz) in Hxz. discriminate.
    + destruct (String.leb y x) eqn:Hyx; [|reflexivity].
      rewrite (String_leb_trans _ _ _ Hyx Hxz) in Hyz. discriminate.
    + rewrite IH. reflexivity.
Qed.

Lemma Array_sort_Permutation l l' :
  l ≡ₚ l' → Array_sort l = Array_sort l'.
Proof.
  unfold Array_sort. induction 1 as [|x l l' _ IH|x y l|l l' l'' _ IH1 _ IH2];
    simpl.
  - reflexivity.
  - rewrite IH. reflexivity.
  - apply sort_insert_comm.
  - congruence.
Qed.

Lemma sort_insert_Permutation x l : sort_insert x l ≡ₚ x :: l.
Proof.
  induction l as [|y l IH]; simpl; [reflexivity|].
  destruct (String.leb x y); [reflexivity|].
  rewrite IH. apply Permutation_swap.
Qed.

Lemma Array_sort_is_Permutation l : Array_sort l ≡ₚ l.
Proof.
  unfold Array_sort. induction l as [|x l IH]; simpl; [reflexivity|].
  rewrite sort_insert_Permutation, IH. reflexivity.
Qed.

(** The key of a record does not depend on the order in which the record
    lists its sources: two records of one type with one explanation whose
    sources are the same ids in any order have the same key, and so are
    counted as one contradiction. *)
Theorem contradiction_key_sources_order (c1 c2 : RawContradiction.t) :
  RawContradiction.type c1 = RawContradiction.type c2 →
  RawContradiction.explanation c1 = RawContradiction.explanation c2 →
  RawContradiction.sources c1 ≡ₚ RawContradiction.sources c2 →
  contradiction_key c1 = contradiction_key c2.
Proof.
  intros Hty Hexp Hsrc. unfold contradiction_key.
  rewrite Hty, Hexp, (Array_sort_Permutation _ _ Hsrc). reflexivity.
Qed.

Lemma contradiction_key_sources_order_witness :
  contradiction_key
    (RawContradiction.mk cross_doc_drift None None None ["ev-B"; "ev-A"] "drift")
  = contradiction_key
      (RawContradiction.mk cross_doc_drift None None None ["ev-A"; "ev-B"] "drift").
Proof.
  apply contradiction_key_sources_order; [reflexivity|reflexivity|].
  simpl. apply Permutation_swap.
Defined.

(* ----------------------------------------------------------------- *)
(** *** The hexadecimal form loses nothing *)

Lemma hex_byte_encode (b : byte) (rest : string) :
  hex_byte (padStart 2 "0" (Number_toString 16 (Byte.to_N b)) +:+ rest)
  = Some b.
Proof. destruct b; reflexivity. Qed.

Lemma hashHex_inj (l1 : list byte) : ∀ l2,
  hashHex l1 = hashHex l2 → l1 = l2.
Proof.
  induction l1 as [|b1 l1 IH]; intros [|b2 l2] Heq.
  - reflexivity.
  - apply (f_equal String.length) in Heq. rewrite !hashHex_length in Heq.
    simpl in Heq. lia.
  - apply (f_equal String.length) in Heq. rewrite !hashHex_length in Heq.
    simpl in Heq. lia.
  - rewrite !hashHex_cons in Heq.
    pose proof (f_equal hex_byte Heq) as Hb.
    rewrite !hex_byte_encode in Hb. injection Hb as ->.
    destruct (byte_two_hex_digits b2) as (c1 & c2 & Hf & _).
    rewrite Hf in Heq. injection Heq as Heq.
    rewrite (IH _ Heq). reflexivity.
Qed.

(** The hexadecimal string that [calculateSHA512] returns determines the
    64 bytes of the digest: two byte arrays are printed as the same string
    only if they are equal, so two inputs get the same string exactly when
    their SHA-512 digests are equal. *)
Theorem hashHex_faithful :
  (∀ l1 l2 : list byte, hashHex l1 = hashHex l2 ↔ l1 = l2)
  ∧ (∀ f1 f2 : File,
       calculateSHA512 (of_File f1) = calculateSHA512 (of_File f2)
       ↔ SHA512.digest (file_bytes f1) = SHA512.digest (file_bytes f2))
  ∧ (∀ s1 s2 : string,
       calculateSHA512 (of_string s1) = calculateSHA512 (of_string s2)
       ↔ SHA512.digest (TextEncoder_encode s1)
         = SHA512.digest (TextEncoder_encode s2)).
Proof.
  assert (H : ∀ l1 l2 : list byte, hashHex l1 = hashHex l2 ↔ l1 = l2).
  { intros l1 l2. split; [apply hashHex_inj|intros ->; reflexivity]. }
  split; [exact H|]. split; intros; apply H.
Qed.

(* ----------------------------------------------------------------- *)
(** *** What [stripExtension] removes *)

Lemma repeat_to_end p caps : ∀ inp min bef,
  RegExp.repeat_greedy p min None bef inp caps
    (fun st => RegExp.matcher (RegExp.Seq RegExp.EndOfInput RegExp.Empty) st Some)
  = if forallb p inp && (min <=? length inp)%nat
    then Some (RegExp.mkState (rev inp ++ bef) [] caps)
    else None.
Proof.
  induction inp as [|c inp IH]; intros min bef.
  - destruct min; reflexivity.
  - cbn [RegExp.repeat_greedy forallb length]. rewrite andb_true_r.
    destruct (p c) eqn:Hp.
    + change (Nat.pred <$> None) with (@None nat).
      rewrite IH. cbn [rev]. rewrite <- app_assoc. cbn [app andb].
      assert (Hle : (Nat.pred min <=? length inp)%nat
                    = (min <=? S (length inp))%nat).
      { destruct min; reflexivity. }
      rewrite Hle.
      destruct (forallb p inp && (min <=? S (length inp))%nat);
        [reflexivity|destruct min; reflexivity].
    + destruct min; reflexivity.
Qed.

Lemma matcher_extension bef inp :
  RegExp.matcher extensionRegex (RegExp.mkState bef inp []) Some
  = match inp with
    | c :: ext =>
      if Ascii.eqb "." c
      then if forallb (fun c => negb (Ascii.eqb c "/" || Ascii.eqb c ".")) ext
              && (1 <=? length ext)%nat
           then Some (RegExp.mkState (rev ext ++ c :: bef) [] [])
           else None
      else None
    | [] => None
    end.
Proof.
  destruct inp as [|c ext]; [reflexivity|].
  unfold extensionRegex, RegExp.sequence, RegExp.lit.
  cbn [fold_right RegExp.matcher RegExp.rest RegExp.before RegExp.captures].
  destruct (Ascii.eqb "." c); [|reflexivity].
  apply repeat_to_end.
Qed.

Lemma search_extension_found ext : ∀ base bef,
  ext ≠ [] →
  forallb (fun c => negb (Ascii.eqb c "/" || Ascii.eqb c ".")) ext = true →
  RegExp.search extensionRegex bef (base ++ "."%char :: ext)
  = Some (rev base ++ bef,
          RegExp.mkState (rev ext ++ "."%char :: rev base ++ bef) [] []).
Proof.
  intros base bef Hne Hext. revert bef.
  induction base as [|c base IH]; intros bef.
  - cbn [app rev]. destruct ext as [|e ext]; [contradiction|].
    cbn [RegExp.search]. rewrite matcher_extension.
    rewrite Hext. reflexivity.
  - cbn [app RegExp.search]. rewrite matcher_extension.
    assert (Hno : (if Ascii.eqb "." c
                   then if forallb (fun c => negb (Ascii.eqb c "/" || Ascii.eqb c "."))
                                   (base ++ "."%char :: ext)
                           && (1 <=? length (base ++ "."%char :: ext))%nat
                        then Some (RegExp.mkState
                                     (rev (base ++ "."%char :: ext) ++ c :: bef) [] [])
                        else None
                   else None) = None).
    { destruct (Ascii.eqb "." c); [|reflexivity].
      rewrite forallb_app. cbn [forallb]. 
      change (Ascii.eqb "." ".") with true.
      rewrite orb_true_r. cbn [negb andb]. rewrite andb_false_r. reflexivity. }
    rewrite Hno, IH. cbn [rev]. rewrite <- !app_assoc. reflexivity.
Qed.

Lemma search_extension_none : ∀ inp bef,
  (∀ base ext, inp = base ++ "."%char :: ext → ext ≠ [] →
     forallb (fun c => negb (Ascii.eqb c "/" || Ascii.eqb c ".")) ext = true →
     False) →
  RegExp.search extensionRegex bef inp = None.
Proof.
  induction inp as [|c inp IH]; intros bef Hno.
  - reflexivity.
  - cbn [RegExp.search]. rewrite matcher_extension.
    destruct (Ascii.eqb "." c) eqn:Hc.
    + apply Ascii.eqb_eq in Hc. subst c.
      destruct (forallb _ inp) eqn:Hext; cbn [andb].
      * destruct inp as [|e inp]; cbn [length Nat.leb].
        -- apply IH. intros [|b base] ext Heq; discriminate.
        -- exfalso. apply (Hno [] (e :: inp)); [reflexivity|discriminate|exact Hext].
      * apply IH. intros base ext Heq. apply (Hno ("."%char :: base) ext).
        rewrite Heq. reflexivity.
    + apply IH. intros base ext Heq. apply (Hno (c :: base) ext).
      rewrite Heq. reflexivity.
Qed.

Lemma extension_chars (ext : string) :
  Forall (fun c => c ≠ "/"%char ∧ c ≠ "."%char) (list_ascii_of_string ext) ↔
  forallb (fun c => negb (Ascii.eqb c "/" || Ascii.eqb c "."))
          (list_ascii_of_string ext) = true.
Proof.
  rewrite forallb_forall, Forall_forall.
  split; intros H c Hc.
  - apply list_elem_of_In, H in Hc as [H1 H2].
    apply Ascii.eqb_neq in H1, H2. rewrite H1, H2. reflexivity.
  - apply list_elem_of_In, H in Hc.
    apply negb_true_iff, orb_false_iff in Hc as [H1 H2].
    split; apply Ascii.eqb_neq; assumption.
Qed.

Lemma stripExtension_found (name base ext : string) :
  has_extension (toLowerCase name) base ext → stripExtension name = base.
Proof.
  intros (Heq & Hne & Hchars). unfold stripExtension, String_replace.
  rewrite Heq, !list_ascii_of_append. cbn [list_ascii_of_string app].
  rewrite search_extension_found.
  - cbn [RegExp.rest]. rewrite app_nil_r, rev_involutive.
    rewrite string_of_list_ascii_of_string. cbn [string_of_list_ascii].
    rewrite !append_empty_r. reflexivity.
  - destruct ext; [contradiction|discriminate].
  - apply extension_chars. exact Hchars.
Qed.

Lemma stripExtension_none (name : string) :
  (∀ base ext, ¬ has_extension (toLowerCase name) base ext) →
  stripExtension name = toLowerCase name.
Proof.
  intros Hno. unfold stripExtension, String_replace.
  rewrite search_extension_none; [reflexivity|].
  intros base ext Heq Hne Hext.
  apply (Hno (string_of_list_ascii base) (string_of_list_ascii ext)).
  split; [|split].
  - rewrite <- (string_of_list_ascii_of_string (toLowerCase name)), Heq.
    rewrite <- (string_of_list_ascii_of_string
                  (string_of_list_ascii base +:+ "." +:+ string_of_list_ascii ext)).
    f_equal.
    rewrite !list_ascii_of_append, !list_ascii_of_string_of_list_ascii.
    reflexivity.
  - destruct ext; [contradiction|discriminate].
  - apply extension_chars. rewrite list_ascii_of_string_of_list_ascii.
    exact Hext.
Qed.

(** [stripExtension] lower-cases a name and removes its extension, the
    last dot and what follows, when one or more characters follow and
    none of them is a slash; a name without such an ending is only
    lower-cased. *)
Theorem stripExtension_spec (name : string) :
  (∀ base ext, has_extension (toLowerCase name) base ext →
               stripExtension name = base)
  ∧ ((∀ base ext, ¬ has_extension (toLowerCase name) base ext) →
     stripExtension name = toLowerCase name).
Proof.
  split; [apply stripExtension_found|apply stripExtension_none].
Qed.

Lemma stripExtension_spec_witness :
  stripExtension "Report.Final.PDF" = "report.final".
Proof.
  apply (proj1 (stripExtension_spec "Report.Final.PDF") "report.final" "pdf").
  split; [reflexivity|]. split; [discriminate|].
  apply extension_chars. reflexivity.
Defined.

(** Two files whose names differ only by case and by their extension are
    never reported as a [cross_doc_drift], whatever their digests: the
    rule compares the names lower-cased and without extension, and
    requires them to differ. *)
Theorem same_base_name_never_drift (P : Platform) (reports : list Report.t)
    (evidence : list Evidence.t) (tape : Tape) (evA evB : Evidence.t)
    (base extA extB : string) :
  NoDup (map Evidence.id evidence) →
  evA ∈ evidence → evB ∈ evidence →
  has_extension (toLowerCase (Evidence.name evA)) base extA →
  has_extension (toLowerCase (Evidence.name evB)) base extB →
  drift_rule evA evB = []
  ∧ drift_records_for (Evidence.id evA) (Evidence.id evB)
      (runContradictionAnalysis P reports evidence tape) = [].
Proof.
  intros Hnd HA HB HextA HextB.
  pose proof (stripExtension_found _ _ _ HextA) as HsA.
  pose proof (stripExtension_found _ _ _ HextB) as HsB.
  split.
  { unfold drift_rule. rewrite HsA, HsB, String.eqb_refl.
    rewrite andb_false_r. reflexivity. }
  apply filter_nil_iff. intros c Hc.
  destruct (cites_pair _ _ _ _) eqn:Hcite; [exfalso|reflexivity].
  apply cites_pair_sources in Hcite as [Hty Hsrc].
  apply result_from_pass in Hc as (pass & c0 & n & Hp & Hc0 & -> & _).
  simpl in Hty, Hsrc.
  apply analyzeContradictionsOnce_spec in Hc0. cbv zeta in Hc0.
  destruct Hc0 as [Hd | (e & _ & _ & [Hm | Ho])].
  - destruct (drift_pairs_names _ _ Hd)
      as (a & b & Ha & Hb & Hsrc0 & _ & Hnames).
    destruct (scope_elem_input _ _ _ _ Hp Ha) as [Ha' _].
    destruct (scope_elem_input _ _ _ _ Hp Hb) as [Hb' _].
    rewrite Hsrc0 in Hsrc.
    destruct Hsrc as [[= Hia Hib] | [= Hia Hib]].
    + apply (NoDup_map_inj Evidence.id evidence) in Hia; auto.
      apply (NoDup_map_inj Evidence.id evidence) in Hib; auto.
      subst a b. congruence.
    + apply (NoDup_map_inj Evidence.id evidence) in Hia; auto.
      apply (NoDup_map_inj Evidence.id evidence) in Hib; auto.
      subst a b. congruence.
  - apply metadata_mismatches_spec in Hm as (d & _ & _ & ->).
    discriminate Hty.
  - destruct (omissions_spec _ _ _ Ho) as [Hty' _]. congruence.
Qed.

Lemma same_base_name_never_drift_witness :
  drift_rule ev_statement ev_statement_docx = []
  ∧ drift_records_for "ev-A" "ev-B"
      (runContradictionAnalysis ReferencePlatform.platform
         [report_A; report_B] [ev_statement; ev_statement_docx] tape_steady)
    = [].
Proof.
  apply (same_base_name_never_drift ReferencePlatform.platform
           [report_A; report_B] [ev_statement; ev_statement_docx] tape_steady
           ev_statement ev_statement_docx "statement" "pdf" "docx").
  - apply (bool_decide_unpack _). vm_compute. exact I.
  - left.
  - right. left.
  - split; [reflexivity|]. split; [discriminate|].
    apply extension_chars. reflexivity.
  - split; [reflexivity|]. split; [discriminate|].
    apply extension_chars. reflexivity.
Defined.

(* ----------------------------------------------------------------- *)
(** *** How a drifting pair is reported *)

Lemma drift_rule_cases evA evB :
  drift_rule evA evB = [drift_record evA evB] ∨ drift_rule evA evB = [].
Proof.
  unfold drift_rule. destruct (_ && _); [left|right]; reflexivity.
Qed.

Lemma drift_pairs_the_pair scope : ∀ evA evB,
  NoDup (map Evidence.id scope) →
  evA ∈ scope → evB ∈ scope →
  Evidence.id evA ≠ Evidence.id evB →
  pass_drift_records_for (Evidence.id evA) (Evidence.id evB) (drift_pairs scope)
  = drift_rule evA evB
  ∨ pass_drift_records_for (Evidence.id evA) (Evidence.id evB)
                           (drift_pairs scope)
    = drift_rule evB evA.
Proof.
  induction scope as [|x later IH]; intros evA evB Hnd HA HB Hne.
  - inversion HA.
  - simpl in Hnd. apply NoDup_cons in Hnd as [Hx Hnd].
    cbn [drift_pairs]. rewrite pass_drift_records_for_app.
    apply elem_of_cons in HA as [->|HA]; [|apply elem_of_cons in HB as [->|HB]].
    + apply elem_of_cons in HB as [->|HB]; [congruence|].
      rewrite drift_from_one by auto.
      rewrite drift_pairs_no_pair by exact Hx.
      left. apply app_nil_r.
    + rewrite (pass_drift_records_for_sym _ _ (flat_map _ _)).
      rewrite (pass_drift_records_for_sym _ _ (drift_pairs _)).
      rewrite drift_from_one by auto.
      rewrite drift_pairs_no_pair by exact Hx.
      right. apply app_nil_r.
    + rewrite drift_from_no_pair.
      * simpl. apply IH; assumption.
      * intros Heq. apply Hx. rewrite Heq.
        apply (list_elem_of_fmap_2 Evidence.id). exact HA.
      * intros Heq. apply Hx. rewrite Heq.
        apply (list_elem_of_fmap_2 Evidence.id). exact HB.
Qed.

(** What one pass reports for a pair of evidence items in scope. *)
Lemma pass_pair_records P reports evidence pass evA evB :
  NoDup (map Evidence.id evidence) →
  reordering reports evidence pass →
  evA ∈ evidence → evB ∈ evidence →
  Evidence.id evA ∈ map ref_id (all_refs reports) →
  Evidence.id evB ∈ map ref_id (all_refs reports) →
  Evidence.id evA ≠ Evidence.id evB →
  pass_drift_records_for (Evidence.id evA) (Evidence.id evB)
    (analyzeContradictionsOnce P pass.1 pass.2) = drift_rule evA evB
  ∨ pass_drift_records_for (Evidence.id evA) (Evidence.id evB)
      (analyzeContradictionsOnce P pass.1 pass.2) = drift_rule evB evA.
Proof.
  intros Hnd Hp HA HB HrA HrB Hne.
  assert (Hin : ∀ e, e ∈ evidence →
            Evidence.id e ∈ map ref_id (all_refs reports) →
            e ∈ allEvidenceInScope pass.1 pass.2).
  { intros e He Hr. apply (scope_elem_Permutation _ _ _ e Hnd Hp).
    apply scope_elem_NoDup; auto. }
  destruct (scope_spec pass.1 pass.2) as [Hnds _].
  unfold analyzeContradictionsOnce.
  rewrite pass_drift_records_for_app, not_drift_after, app_nil_r.
  apply drift_pairs_the_pair; auto.
Qed.

Lemma filter_filter_implied {A} (f g : A → bool) (l : list A) :
  (∀ x, x ∈ l → f x = true → g x = true) →
  List.filter f l = List.filter f (List.filter g l).
Proof.
  induction l as [|x l IH]; intros H; simpl; [reflexivity|].
  assert (IH' : List.filter f l = List.filter f (List.filter g l)).
  { apply IH. intros y Hy. apply H. right. exact Hy. }
  destruct (f x) eqn:Hf.
  - rewrite (H x ltac:(left) Hf). simpl. rewrite Hf, IH'. reflexivity.
  - destruct (g x); simpl; rewrite ?Hf; exact IH'.
Qed.

Lemma occurrences_pass_found P pass k :
  occurrences k (pass_found P pass)
  = length (List.filter (fun c => String.eqb (contradiction_key c) k)
                        (analyzeContradictionsOnce P pass.1 pass.2)).
Proof.
  unfold occurrences, pass_found.
  induction (analyzeContradictionsOnce P pass.1 pass.2) as [|c l IH];
    simpl; [reflexivity|].
  destruct (String.eqb (contradiction_key c) k); simpl; rewrite IH; reflexivity.
Qed.

(** With ids of one length, a record of a pass whose key is the key of a
    record citing the pair cites the pair. *)
Lemma key_of_pair_cites P reports evidence pass pass' c r idA idB :
  ids_same_length evidence →
  reordering reports evidence pass →
  reordering reports evidence pass' →
  c ∈ analyzeContradictionsOnce P pass.1 pass.2 →
  r ∈ analyzeContradictionsOnce P pass'.1 pass'.2 →
  cites_pair idA idB (RawContradiction.type r) (RawContradiction.sources r)
  = true →
  contradiction_key c = contradiction_key r →
  cites_pair idA idB (RawContradiction.type c) (RawContradiction.sources c)
  = true.
Proof.
  intros Hlen Hp Hp' Hc Hr Hcite Hk.
  pose proof (pass_records_key_inj P _ _ _ _ _ _ Hlen Hp Hp' Hc Hr Hk) as Hf.
  unfold key_fields in Hf. injection Hf as Hty Hsort _.
  apply cites_pair_sources in Hcite as [Htr Hsr].
  apply cites_pair_sources. split; [congruence|].
  assert (Hperm : RawContradiction.sources c ≡ₚ RawContradiction.sources r).
  { rewrite <- (Array_sort_is_Permutation (RawContradiction.sources c)).
    rewrite Hsort. apply Array_sort_is_Permutation. }
  destruct Hsr as [Hsr|Hsr]; rewrite Hsr in Hperm; symmetry in Hperm;
    apply Permutation_length_2_inv in Hperm as [->| ->]; auto.
Qed.

Lemma pass_pair_key_occurrences P reports evidence pass pass' r r' idA idB :
  ids_same_length evidence →
  reordering reports evidence pass →
  reordering reports evidence pass' →
  pass_drift_records_for idA idB (analyzeContradictionsOnce P pass.1 pass.2)
  = [r] →
  r' ∈ analyzeContradictionsOnce P pass'.1 pass'.2 →
  cites_pair idA idB (RawContradiction.type r') (RawContradiction.sources r')
  = true →
  occurrences (contradiction_key r') (pass_found P pass)
  = if String.eqb (contradiction_key r) (contradiction_key r')
    then 1%nat else 0%nat.
Proof.
  intros Hlen Hp Hp' Hpair Hr' Hcite.
  rewrite occurrences_pass_found.
  rewrite (filter_filter_implied _
             (fun c => cites_pair idA idB (RawContradiction.type c)
                                  (RawContradiction.sources c))).
  - unfold pass_drift_records_for in Hpair. rewrite Hpair. simpl.
    destruct (String.eqb _ _); reflexivity.
  - intros c Hc Hk. apply String.eqb_eq in Hk.
    exact (key_of_pair_cites P reports evidence pass pass' c r' idA idB
             Hlen Hp Hp' Hc Hr' Hcite Hk).
Qed.

Lemma filter_map_comm {A B} (f : B → bool) (g : A → B) (l : list A) :
  List.filter f (map g l) = map g (List.filter (fun x => f (g x)) l).
Proof.
  induction l as [|x l IH]; simpl; [reflexivity|].
  destruct (f (g x)); simpl; rewrite IH; reflexivity.
Qed.

Lemma NoDup_map_List_filter {A B} (g : A → B) (f : A → bool) (l : list A) :
  NoDup (map g l) → NoDup (map g (List.filter f l)).
Proof.
  induction l as [|x l IH]; simpl; intros Hnd; [constructor|].
  apply NoDup_cons in Hnd as [Hx Hnd].
  destruct (f x); [|auto].
  simpl. apply NoDup_cons. split; [|auto].
  intros Hin. apply Hx.
  apply list_elem_of_fmap in Hin as (y & -> & Hy).
  apply list_elem_of_In, filter_In in Hy as [Hy _].
  apply list_elem_of_fmap. exists y. split; [reflexivity|].
  apply list_elem_of_In. exact Hy.
Qed.

Lemma NoDup_one {A} (l : list A) a :
  NoDup l → (∀ x, x ∈ l → x = a) → a ∈ l → l = [a].
Proof.
  intros Hnd Hall Ha.
  assert (Hperm : l ≡ₚ [a]).
  { apply NoDup_Permutation; [exact Hnd|apply NoDup_singleton|].
    intros x. rewrite list_elem_of_singleton. split; [apply Hall|].
    intros ->. exact Ha. }
  apply Permutation_length_1_inv. symmetry. exact Hperm.
Qed.

Lemma NoDup_two {A} (l : list A) a b :
  NoDup l → (∀ x, x ∈ l → x = a ∨ x = b) → a ∈ l → b ∈ l → a ≠ b →
  l = [a; b] ∨ l = [b; a].
Proof.
  intros Hnd Hall Ha Hb Hne.
  assert (Hperm : [a; b] ≡ₚ l).
  { apply NoDup_Permutation; [|exact Hnd|].
    - apply NoDup_cons. split; [|apply NoDup_singleton].
      rewrite list_elem_of_singleton. exact Hne.
    - intros x. rewrite elem_of_cons, list_elem_of_singleton. split.
      + intros [->| ->]; assumption.
      + apply Hall. }
  apply Permutation_length_2_inv in Hperm. exact Hperm.
Qed.

(** How [runContradictionAnalysis] reports two evidence items in scope,
    with distinct ids of one length. When [drift_rule] does not fire on
    them, no record cites the pair. When it fires, the pair is never
    missed, and it is reported in one of two ways: by one record
    [Verified (3/3)], when the three passes met the two items in the same
    order, or by two records, one [Consensus (2/3)] and one
    [Inconclusive (≤1/3)], when they did not. *)
Theorem drift_pair_tiers (P : Platform) (reports : list Report.t)
    (evidence : list Evidence.t) (tape : Tape) (evA evB : Evidence.t) :
  NoDup (map Evidence.id evidence) →
  ids_same_length evidence →
  evA ∈ evidence → evB ∈ evidence →
  Evidence.id evA ∈ map ref_id (all_refs reports) →
  Evidence.id evB ∈ map ref_id (all_refs reports) →
  Evidence.id evA ≠ Evidence.id evB →
  let tiers := pair_tiers (Evidence.id evA) (Evidence.id evB)
                 (runContradictionAnalysis P reports evidence tape) in
  (drift_rule evA evB = [] → tiers = [])
  ∧ (drift_rule evA evB ≠ [] →
     tiers = [Verified_3_3]
     ∨ tiers = [Consensus_2_3; Inconclusive_1_3]
     ∨ tiers = [Inconclusive_1_3; Consensus_2_3]).
Proof.
  intros Hnd Hlen HA HB HrA HrB Hne tiers.
  set (found := allFoundContradictions P 3 reports evidence tape).
  set (cites := fun c : RawContradiction.t =>
                  cites_pair (Evidence.id evA) (Evidence.id evB)
                             (RawContradiction.type c)
                             (RawContradiction.sources c)).
  destruct (allFound_passes P 3 reports evidence tape)
    as (passes & Hn & Hall & Heq).
  rewrite Forall_forall in Hall. fold found in Heq.
  pose proof (contradictionCounts_counted found) as (Hndk & Hkeys & Hent).
  set (E := List.filter (fun entry : string * (RawContradiction.t * nat) =>
                           cites entry.2.1)
                        (contradictionCounts found)).
  assert (Htiers : tiers
                   = map (fun k => verification_of (occurrences k found))
                         (map fst E)).
  { unfold tiers, pair_tiers, drift_records_for, runContradictionAnalysis.
    rewrite filter_map_comm, !map_map. fold found.
    apply map_ext_in. intros [k [c n]] Hin. simpl.
    apply filter_In in Hin as [Hin _]. apply list_elem_of_In in Hin.
    destruct (Hent _ _ _ Hin) as [-> _]. reflexivity. }
  assert (Hfound : ∀ c k, (c, k) ∈ found →
            ∃ pass, pass ∈ passes
                    ∧ c ∈ analyzeContradictionsOnce P pass.1 pass.2
                    ∧ k = contradiction_key c).
  { intros c k Hc. rewrite Heq in Hc.
    apply list_elem_of_In, in_flat_map in Hc as (pass & Hp & Hc).
    apply list_elem_of_In in Hp. apply list_elem_of_In in Hc.
    unfold pass_found in Hc.
    apply list_elem_of_fmap in Hc as (c1 & Heq1 & Hc1).
    injection Heq1 as -> ->. eauto. }
  assert (Hpass : ∀ pass, pass ∈ passes →
            List.filter cites (analyzeContradictionsOnce P pass.1 pass.2)
            = drift_rule evA evB
            ∨ List.filter cites (analyzeContradictionsOnce P pass.1 pass.2)
              = drift_rule evB evA).
  { intros pass Hp.
    apply (pass_pair_records P reports evidence pass evA evB); auto. }
  split.
  - (* the rule does not fire *)
    intros Hnil.
    assert (Hnil' : drift_rule evB evA = []).
    { pose proof (drift_rule_sym_length evA evB) as Hl. rewrite Hnil in Hl.
      destruct (drift_rule evB evA); [reflexivity|discriminate Hl]. }
    rewrite Htiers.
    assert (HE : E = []).
    { apply filter_nil_iff. intros [k [c n]] Hin. simpl.
      destruct (cites c) eqn:Hc; [exfalso|reflexivity].
      destruct (Hent _ _ _ Hin) as [_ Hf].
      destruct (Hfound _ _ Hf) as (pass & Hp & Hcp & _).
      assert (Hcf : In c (List.filter cites
                            (analyzeContradictionsOnce P pass.1 pass.2))).
      { apply filter_In. split; [apply list_elem_of_In; exact Hcp|exact Hc]. }
      destruct (Hpass pass Hp) as [Hr|Hr]; rewrite Hr in Hcf;
        rewrite ?Hnil, ?Hnil' in Hcf; exact Hcf. }
    rewrite HE. reflexivity.
  - (* the rule fires *)
    intros Hfire.
    destruct (drift_rule_cases evA evB) as [HAB|HAB]; [|contradiction].
    assert (HBA : drift_rule evB evA = [drift_record evB evA]).
    { destruct (drift_rule_cases evB evA) as [H|H]; [exact H|].
      pose proof (drift_rule_sym_length evA evB) as Hl.
      rewrite H, HAB in Hl. discriminate Hl. }
    assert (Hone : ∀ pass, pass ∈ passes →
              ∃ r, List.filter cites
                     (analyzeContradictionsOnce P pass.1 pass.2) = [r]
                   ∧ (r = drift_record evA evB ∨ r = drift_record evB evA)).
    { intros pass Hp. destruct (Hpass pass Hp) as [Hr|Hr]; rewrite Hr.
      - exists (drift_record evA evB). auto.
      - exists (drift_record evB evA). auto. }
    destruct passes as [|p1 [|p2 [|p3 [|p4 passes]]]]; try discriminate Hn.
    destruct (Hone p1 ltac:(left)) as (r1 & Hr1 & Hab1).
    destruct (Hone p2 ltac:(right; left)) as (r2 & Hr2 & Hab2).
    destruct (Hone p3 ltac:(right; right; left)) as (r3 & Hr3 & Hab3).
    assert (Hin_pass : ∀ pass r,
              List.filter cites (analyzeContradictionsOnce P pass.1 pass.2)
              = [r] →
              r ∈ analyzeContradictionsOnce P pass.1 pass.2
              ∧ cites r = true).
    { intros pass r Hr.
      assert (Hin : In r (List.filter cites
                            (analyzeContradictionsOnce P pass.1 pass.2)))
        by (rewrite Hr; left; reflexivity).
      apply filter_In in Hin as [Hin Hc].
      split; [apply list_elem_of_In; exact Hin|exact Hc]. }
    destruct (Hin_pass _ _ Hr1) as [Hi1 Hc1].
    destruct (Hin_pass _ _ Hr2) as [Hi2 Hc2].
    destruct (Hin_pass _ _ Hr3) as [Hi3 Hc3].
    pose proof (Hall p1 ltac:(left)) as Hp1.
    pose proof (Hall p2 ltac:(right; left)) as Hp2.
    pose proof (Hall p3 ltac:(right; right; left)) as Hp3.
    set (K1 := contradiction_key r1) in *.
    set (K2 := contradiction_key r2) in *.
    set (K3 := contradiction_key r3) in *.
    assert (Hocc : ∀ pass' r', reordering reports evidence pass' →
              r' ∈ analyzeContradictionsOnce P pass'.1 pass'.2 →
              cites r' = true →
              occurrences (contradiction_key r') found
              = ((if String.eqb K1 (contradiction_key r') then 1 else 0)
                 + ((if String.eqb K2 (contradiction_key r') then 1 else 0)
                    + (if String.eqb K3 (contradiction_key r') then 1 else 0)))%nat).
    { intros pass' r' Hp' Hr' Hc'. rewrite Heq.
      change (flat_map (pass_found P) [p1; p2; p3])
        with (pass_found P p1 ++ pass_found P p2 ++ pass_found P p3 ++ []).
      rewrite app_nil_r, !occurrences_app.
      rewrite (pass_pair_key_occurrences P reports evidence p1 pass' r1 r'
                 _ _ Hlen Hp1 Hp' Hr1 Hr' Hc').
      rewrite (pass_pair_key_occurrences P reports evidence p2 pass' r2 r'
                 _ _ Hlen Hp2 Hp' Hr2 Hr' Hc').
      rewrite (pass_pair_key_occurrences P reports evidence p3 pass' r3 r'
                 _ _ Hlen Hp3 Hp' Hr3 Hr' Hc').
      reflexivity. }
    pose proof (Hocc p1 r1 Hp1 Hi1 Hc1) as Ho1.
    pose proof (Hocc p2 r2 Hp2 Hi2 Hc2) as Ho2.
    pose proof (Hocc p3 r3 Hp3 Hi3 Hc3) as Ho3.
    fold K1 in Ho1. fold K2 in Ho2. fold K3 in Ho3.
    assert (HE1 : NoDup (map fst E)).
    { apply NoDup_map_List_filter. exact Hndk. }
    assert (HE2 : ∀ k, k ∈ map fst E → k = K1 ∨ k = K2 ∨ k = K3).
    { intros k Hk. apply list_elem_of_fmap in Hk as ([k' [c n]] & -> & Hin).
      simpl. apply list_elem_of_In, filter_In in Hin as [Hin Hc].
      apply list_elem_of_In in Hin. simpl in Hc.
      destruct (Hent _ _ _ Hin) as [_ Hf].
      destruct (Hfound _ _ Hf) as (pass & Hp & Hcp & ->).
      assert (Hcf : In c (List.filter cites
                            (analyzeContradictionsOnce P pass.1 pass.2))).
      { apply filter_In. split; [apply list_elem_of_In; exact Hcp|exact Hc]. }
      apply list_elem_of_In in Hp.
      destruct Hp as [<-|[<-|[<-|[]]]];
        [rewrite Hr1 in Hcf|rewrite Hr2 in Hcf|rewrite Hr3 in Hcf];
        destruct Hcf as [<-|[]]; auto. }
    assert (HE3 : ∀ pass r, pass ∈ [p1; p2; p3] →
              r ∈ analyzeContradictionsOnce P pass.1 pass.2 →
              cites r = true →
              contradiction_key r ∈ map fst E).
    { intros pass r Hp Hr Hc.
      assert (Hk : contradiction_key r ∈ map fst (contradictionCounts found)).
      { apply Hkeys. rewrite Heq. apply list_elem_of_fmap.
        exists (r, contradiction_key r). split; [reflexivity|].
        apply list_elem_of_In, in_flat_map. exists pass.
        split; [apply list_elem_of_In; exact Hp|].
        apply list_elem_of_In. unfold pass_found.
        apply (list_elem_of_fmap_2 (fun c => (c, contradiction_key c))).
        exact Hr. }
      apply list_elem_of_fmap in Hk as ([k [c n]] & Hk & Hin).
      simpl in Hk. subst k.
      destruct (Hent _ _ _ Hin) as [_ Hf].
      destruct (Hfound _ _ Hf) as (pass' & Hp' & Hcp & Hkc).
      apply list_elem_of_fmap. exists (contradiction_key r, (c, n)).
      split; [reflexivity|].
      apply list_elem_of_In, filter_In.
      split; [apply list_elem_of_In; exact Hin|]. simpl.
      apply (key_of_pair_cites P reports evidence pass' pass c r _ _ Hlen
               (Hall _ Hp') (Hall _ Hp) Hcp Hr Hc).
      symmetry. exact Hkc. }
    pose proof (HE3 p1 r1 ltac:(left) Hi1 Hc1) as Hk1.
    pose proof (HE3 p2 r2 ltac:(right; left) Hi2 Hc2) as Hk2.
    pose proof (HE3 p3 r3 ltac:(right; right; left) Hi3 Hc3) as Hk3.
    fold K1 in Hk1. fold K2 in Hk2. fold K3 in Hk3.
    rewrite Htiers.
    destruct (decide (K1 = K2)) as [E12|N12];
      destruct (decide (K1 = K3)) as [E13|N13];
      destruct (decide (K2 = K3)) as [E23|N23];
      try congruence.
    + (* the three passes agree *)
      left.
      rewrite (NoDup_one (map fst E) K1 HE1);
        [|intros k Hk; destruct (HE2 k Hk) as [->|[->| ->]]; congruence
         |exact Hk1].
      cbn [map]. rewrite Ho1. key_tests. reflexivity.
    + (* the third pass differs *)
      right.
      destruct (NoDup_two (map fst E) K1 K3 HE1) as [Hks|Hks];
        [intros k Hk; destruct (HE2 k Hk) as [->|[->| ->]]; auto
        |exact Hk1|exact Hk3|exact N13| |];
        rewrite Hks; cbn [map]; rewrite Ho1, Ho3; key_tests;
        [left|right]; reflexivity.
    + (* the second pass differs *)
      right.
      destruct (NoDup_two (map fst E) K1 K2 HE1) as [Hks|Hks];
        [intros k Hk; destruct (HE2 k Hk) as [->|[->| ->]]; auto
        |exact Hk1|exact Hk2|exact N12| |];
        rewrite Hks; cbn [map]; rewrite Ho1, Ho2; key_tests;
        [left|right]; reflexivity.
    + (* the first pass differs *)
      right.
      destruct (NoDup_two (map fst E) K2 K1 HE1) as [Hks|Hks];
        [intros k Hk; destruct (HE2 k Hk) as [->|[->| ->]]; auto
        |exact Hk2|exact Hk1|congruence| |];
        rewrite Hks; cbn [map]; rewrite Ho1, Ho2; key_tests;
        [left|right]; reflexivity.
    + (* three different keys for two records *)
      exfalso. unfold K1, K2, K3 in *.
      destruct Hab1 as [->| ->], Hab2 as [->| ->], Hab3 as [->| ->];
        congruence.
Qed.

Lemma drift_pair_tiers_witness :
  let tiers := pair_tiers "ev-A" "ev-B"
                 (runContradictionAnalysis ReferencePlatform.platform
                    [report_A; report_B] [ev_statement; ev_statement_v2]
                    tape_swap_first) in
  tiers = [Verified_3_3]
  ∨ tiers = [Consensus_2_3; Inconclusive_1_3]
  ∨ tiers = [Inconclusive_1_3; Consensus_2_3].
Proof.
  refine (proj2 (drift_pair_tiers ReferencePlatform.platform
                   [report_A; report_B] [ev_statement; ev_statement_v2]
                   tape_swap_first ev_statement ev_statement_v2
                   _ _ _ _ _ _ _) _).
  - apply (bool_decide_unpack _). vm_compute. exact I.
  - intros e1 e2 H1 H2.
    apply elem_of_cons in H1 as [->|H1]; [|apply list_elem_of_singleton in H1 as ->];
      (apply elem_of_cons in H2 as [->|H2];
       [|apply list_elem_of_singleton in H2 as ->]); reflexivity.
  - left.
  - right. left.
  - vm_compute. left.
  - vm_compute. right. left.
  - discriminate.
  - vm_compute. discriminate.
Defined.

(* ----------------------------------------------------------------- *)
(** *** What an [omission] record refers to *)

Lemma search_position r : ∀ inp bef b0 st,
  RegExp.search r bef inp = Some (b0, st) →
  ∃ skipped rest0,
    inp = skipped ++ rest0
    ∧ b0 = rev skipped ++ bef
    ∧ RegExp.matcher r (RegExp.mkState b0 rest0 []) Some = Some st.
Proof.
  induction inp as [|c inp IH]; intros bef b0 st H; simpl in H.
  - destruct (RegExp.matcher r (RegExp.mkState bef [] []) Some) as [st'|] eqn:E;
      [|discriminate].
    injection H as <- <-. exists [], []. auto.
  - destruct (RegExp.matcher r (RegExp.mkState bef (c :: inp) []) Some)
      as [st'|] eqn:E.
    + injection H as <- <-. exists [], (c :: inp). auto.
    + apply IH in H as (skipped & rest0 & -> & -> & Hm).
      exists (c :: skipped), rest0. simpl.
      split; [reflexivity|]. split; [rewrite <- app_assoc; reflexivity|exact Hm].
Qed.

Lemma word_i_sound (s : string) : ∀ st k res,
  RegExp.matcher (RegExp.word_i s) st k = Some res →
  ∃ w after,
    RegExp.rest st = w ++ after
    ∧ map lower_char w = map lower_char (list_ascii_of_string s)
    ∧ k (RegExp.mkState (rev w ++ RegExp.before st) after (RegExp.captures st))
      = Some res.
Proof.
  unfold RegExp.word_i.
  induction s as [|c s IH]; intros [bef inp caps] k res H; simpl in *.
  - exists [], inp. auto.
  - destruct inp as [|x inp]; [discriminate|].
    destruct (Ascii.eqb (lower_char x) (lower_char c)) eqn:Ex; [|discriminate].
    apply Ascii.eqb_eq in Ex.
    apply IH in H as (w & after & Hr & Hw & Hk). simpl in *. subst inp.
    exists (x :: w), after. simpl.
    split; [reflexivity|]. split; [rewrite Ex, Hw; reflexivity|].
    rewrite <- app_assoc. exact Hk.
Qed.

Lemma toLowerCase_map (w : list ascii) :
  toLowerCase (string_of_list_ascii w) = string_of_list_ascii (map lower_char w).
Proof. induction w as [|c w IH]; simpl; congruence. Qed.

Lemma word_i_keyword (s : string) (w : list ascii) :
  map lower_char (list_ascii_of_string s) = list_ascii_of_string s →
  map lower_char w = map lower_char (list_ascii_of_string s) →
  toLowerCase (string_of_list_ascii w) = s.
Proof.
  intros Hs Hw. rewrite toLowerCase_map, Hw, Hs.
  apply string_of_list_ascii_of_string.
Qed.

(** One match of [omissionRegex] at a position. *)
Lemma omission_match_sound b0 inp st :
  RegExp.matcher omissionRegex (RegExp.mkState b0 inp []) Some = Some st →
  ∃ kw sp tok after,
    inp = kw ++ sp ++ tok ++ after
    ∧ toLowerCase (string_of_list_ascii kw)
      ∈ ["see"; "ref"; "reference"; "attachment"; "exhibit"]
    ∧ sp ≠ []
    ∧ Forall (fun c => is_space c = true) sp
    ∧ (1 ≤ length tok ≤ 10)%nat
    ∧ Forall (fun c => is_upper c || is_lower c || is_digit c
                       || Ascii.eqb c "-" = true) tok
    ∧ RegExp.captures st = [string_of_list_ascii kw; string_of_list_ascii tok].
Proof.
  unfold omissionRegex, RegExp.sequence.
  cbn [fold_right RegExp.matcher RegExp.before RegExp.rest RegExp.captures].
  intros H.
  assert (Hkw : ∃ kw after1,
            inp = kw ++ after1
            ∧ toLowerCase (string_of_list_ascii kw)
              ∈ ["see"; "ref"; "reference"; "attachment"; "exhibit"]
            ∧ RegExp.repeat_greedy is_space 1 None (rev kw ++ b0) after1
                [string_of_list_ascii kw]
                (fun st' =>
                   RegExp.repeat_greedy
                     (fun c => is_upper c || is_lower c || is_digit c
                               || Ascii.eqb c "-")
                     1 (Some 10%nat) (RegExp.before st') (RegExp.rest st')
                     (RegExp.captures st')
                     (fun st'' =>
                        Some (RegExp.mkState (RegExp.before st'')
                                (RegExp.rest st'')
                                (RegExp.captures st''
                                 ++ [RegExp.consumed (RegExp.before st')
                                                     (RegExp.before st'')]))))
              = Some st).
  { repeat match type of H with
           | match ?m with Some _ => _ | None => _ end = Some _ =>
             let E := fresh "E" in
             destruct m eqn:E; [injection H as ->|]
           end.
    all: match goal with
         | E : RegExp.matcher (RegExp.word_i ?s) _ _ = Some _ |- _ =>
           apply word_i_sound in E as (kw & after1 & Hr & Hw & Hk);
           simpl in Hr, Hk; rewrite consumed_app in Hk;
           exists kw, after1; split; [exact Hr|];
           split; [|exact Hk];
           rewrite (word_i_keyword s kw eq_refl Hw)
         end.
    all: repeat first [left; reflexivity | right].
    all: idtac. }
  destruct Hkw as (kw & after1 & -> & Hkey & Hsp).
  apply repeat_greedy_sound in Hsp as (sp & after2 & -> & Hspaces & Hmin & _ & Htok).
  cbn [RegExp.before RegExp.rest RegExp.captures] in Htok.
  apply repeat_greedy_sound in Htok as (tok & after & -> & Hcls & Hmin' & Hmax & Hres).
  injection Hres as <-.
  cbn [RegExp.before RegExp.captures]. rewrite consumed_app.
  exists kw, sp, tok, after.
  split; [reflexivity|]. split; [exact Hkey|].
  split; [destruct sp; [simpl in Hmin; lia|discriminate]|].
  split; [exact Hspaces|]. split; [lia|]. split; [exact Hcls|reflexivity].
Qed.

Lemma exec_loop_sound r : ∀ fuel bef inp m,
  m ∈ RegExp.exec_loop fuel r bef inp →
  ∃ pre rest0 b0 st,
    rev bef ++ inp = pre ++ rest0
    ∧ b0 = rev pre
    ∧ RegExp.matcher r (RegExp.mkState b0 rest0 []) Some = Some st
    ∧ m = RegExp.result_of b0 st.
Proof.
  induction fuel as [|fuel IH]; intros bef inp m Hm; simpl in Hm.
  - inversion Hm.
  - destruct (RegExp.search r bef inp) as [[b0 st]|] eqn:Es; [|inversion Hm].
    pose proof (search_sound _ _ _ _ _ Es)
      as (skipped & w & Hinp & Hb0 & Hbef & _).
    apply search_position in Es as (skipped' & rest0 & Hinp' & Hb0' & Hmat).
    apply elem_of_cons in Hm as [->|Hm].
    + exists (rev bef ++ skipped'), rest0, b0, st.
      split; [rewrite Hinp', <- app_assoc; reflexivity|].
      split; [rewrite rev_app_distr, rev_involutive; exact Hb0'|].
      split; [exact Hmat|reflexivity].
    + apply IH in Hm as (pre & rest1 & b1 & st1 & Heq & Hb1 & Hm1 & Hres).
      exists pre, rest1, b1, st1.
      split; [|auto].
      rewrite <- Heq, Hbef, Hb0, Hinp.
      rewrite !rev_app_distr, !rev_involutive, <- !app_assoc. reflexivity.
Qed.

Lemma omission_exec_sound (text : string) (m : RegExp.MatchResult) :
  m ∈ RegExp_exec_all omissionRegex text →
  omission_reference text (nth 1 (RegExp.groups m) "").
Proof.
  unfold RegExp_exec_all. intros Hm.
  apply exec_loop_sound in Hm as (pre & rest0 & b0 & st & Heq & Hb0 & Hmat & ->).
  apply omission_match_sound in Hmat
    as (kw & sp & tok & after & -> & Hkey & Hsp & Hspaces & Hlen & Hcls & Hcaps).
  unfold RegExp.result_of. cbn [RegExp.groups]. rewrite Hcaps. cbn [nth].
  exists pre, kw, sp, after.
  rewrite list_ascii_of_string_of_list_ascii, length_string_of_list_ascii.
  simpl in Heq. auto 10.
Qed.

Lemma omission_rule_spec scope evidence m c :
  c ∈ omission_rule scope evidence m →
  RawContradiction.claimA c
  = Some ("Reference to " +:+ dquote +:+ nth 1 (RegExp.groups m) "" +:+ dquote)
  ∧ ∀ e, e ∈ scope →
         includes (toLowerCase (Evidence.name e))
                  (toLowerCase (nth 1 (RegExp.groups m) "")) = false.
Proof.
  unfold omission_rule. intros Hc.
  destruct (existsb _ scope) eqn:Hex;
    [apply not_elem_of_nil in Hc; contradiction|].
  apply list_elem_of_singleton in Hc as ->. split; [reflexivity|].
  intros e He. apply not_true_iff_false. intros Hinc.
  apply not_true_iff_false in Hex. apply Hex.
  apply existsb_exists. exists e. split; [apply list_elem_of_In; exact He|].
  exact Hinc.
Qed.

(** Every [omission] record comes from a reference in the text of the
    evidence it cites: one of the words see, ref, reference, attachment
    or exhibit in any case, white space, and a token of one to ten
    letters, digits or hyphens. The record quotes that token, and no
    evidence in scope has a file name that contains the token, case
    ignored. *)
Theorem omission_record_reference (P : Platform) (reports : list Report.t)
    (evidence : list Evidence.t) (tape : Tape) (c : Contradiction.t) :
  NoDup (map Evidence.id evidence) →
  c ∈ runContradictionAnalysis P reports evidence tape →
  Contradiction.type c = omission →
  ∃ e text token,
    e ∈ evidence
    ∧ Contradiction.sources c = [Evidence.id e]
    ∧ Evidence.ocrText e = Some text
    ∧ omission_reference text token
    ∧ Contradiction.claimA c
      = Some ("Reference to " +:+ dquote +:+ token +:+ dquote)
    ∧ ∀ e', e' ∈ evidence →
            Evidence.id e' ∈ map ref_id (all_refs reports) →
            includes (toLowerCase (Evidence.name e')) (toLowerCase token)
            = false.
Proof.
  intros Hnd Hc Hty.
  apply result_from_pass in Hc as (pass & c0 & n & Hp & Hc0 & -> & _).
  simpl in Hty. simpl.
  apply analyzeContradictionsOnce_spec in Hc0. cbv zeta in Hc0.
  destruct Hc0 as [Hd | (e & He & Ht & [Hm | Ho])].
  - destruct (drift_pairs_spec _ _ Hd) as [Hty' _]. congruence.
  - apply metadata_mismatches_spec in Hm as (d & _ & _ & ->). discriminate Hty.
  - destruct (omissions_spec _ _ _ Ho) as [_ Hsrc].
    unfold omissions in Ho.
    apply list_elem_of_In, in_flat_map in Ho as (m & Hm & Ho).
    apply list_elem_of_In in Hm. apply list_elem_of_In in Ho.
    destruct (omission_rule_spec _ _ _ _ Ho) as [HclaimA Hnone].
    unfold has_text in Ht.
    destruct (Evidence.ocrText e) as [text|] eqn:Htext; [|discriminate].
    simpl in Hm.
    exists e, text, (nth 1 (RegExp.groups m) "").
    split; [exact (proj1 (scope_elem_input _ _ _ _ Hp He))|].
    split; [exact Hsrc|]. split; [exact Htext|].
    split; [apply omission_exec_sound; exact Hm|].
    split; [exact HclaimA|].
    intros e' He' Hr'. apply Hnone.
    apply (scope_elem_Permutation _ _ _ e' Hnd Hp).
    apply scope_elem_NoDup; auto.
Qed.

Lemma omission_record_reference_witness :
  ∃ e text token,
    e ∈ [ev_exhibit]
    ∧ Contradiction.sources demo_omission_record = [Evidence.id e]
    ∧ Evidence.ocrText e = Some text
    ∧ omission_reference text token
    ∧ Contradiction.claimA demo_omission_record
      = Some ("Reference to " +:+ dquote +:+ token +:+ dquote)
    ∧ ∀ e', e' ∈ [ev_exhibit] →
            Evidence.id e' ∈ map ref_id (all_refs [report_A]) →
            includes (toLowerCase (Evidence.name e')) (toLowerCase token)
            = false.
Proof.
  refine (omission_record_reference ReferencePlatform.platform
            [report_A] [ev_exhibit] tape_steady demo_omission_record _ _ _).
  - apply (bool_decide_unpack _). vm_compute. exact I.
  - vm_compute. left.
  - reflexivity.
Defined.

(* ----------------------------------------------------------------- *)
(** *** [guessJurisdiction] *)

Lemma useJurisdiction_lt_spec (x y : Q) :
  useJurisdiction.lt x y = true ↔ (x < y)%Q.
Proof.
  unfold useJurisdiction.lt. rewrite negb_true_iff.
  rewrite <- not_true_iff_false, Qle_bool_iff. split.
  - apply Qnot_le_lt.
  - apply Qlt_not_le.
Qed.

Lemma useJurisdiction_test (a b c d lat lon : Q) :
  useJurisdiction.lt a lat && useJurisdiction.lt lat b
  && useJurisdiction.lt c lon && useJurisdiction.lt lon d = true
  ↔ useJurisdiction.inside a b c d lat lon.
Proof.
  unfold useJurisdiction.inside.
  rewrite !andb_true_iff, !useJurisdiction_lt_spec. tauto.
Qed.

(** [guessJurisdiction] answers by rectangles of latitude and longitude.
    The rectangles of ZA, EU, UAE and US decide alone; the one of KSA
    overlaps the one of UAE, which is tested first, so KSA is answered in
    its rectangle outside the one of UAE; everywhere else the answer is
    UN. *)
Theorem guessJurisdiction_regions (lat lon : Q) :
  let g := useJurisdiction.guessJurisdiction lat lon in
  let ZA := useJurisdiction.inside (-36) (-20) 16 33 lat lon in
  let EU := useJurisdiction.inside 35 72 (-25) 45 lat lon in
  let UAE := useJurisdiction.inside 22 27.5 51 56.5 lat lon in
  let KSA := useJurisdiction.inside 16 32.5 34 56 lat lon in
  let US := useJurisdiction.inside 24 49 (-125) (-66) lat lon in
  (g = useJurisdiction.ZA ↔ ZA)
  ∧ (g = useJurisdiction.EU ↔ EU)
  ∧ (g = useJurisdiction.UAE ↔ UAE)
  ∧ (g = useJurisdiction.KSA ↔ KSA ∧ ¬ UAE)
  ∧ (g = useJurisdiction.US ↔ US)
  ∧ (g = useJurisdiction.UN ↔ ¬ ZA ∧ ¬ EU ∧ ¬ UAE ∧ ¬ KSA ∧ ¬ US).
Proof.
  intros g ZA EU UAE KSA US. subst g ZA EU UAE KSA US.
  unfold useJurisdiction.guessJurisdiction.
  assert (HZA : useJurisdiction.lt lat (-20) && useJurisdiction.lt (-36) lat
                && useJurisdiction.lt 16 lon && useJurisdiction.lt lon 33 = true
                ↔ useJurisdiction.inside (-36) (-20) 16 33 lat lon).
  { unfold useJurisdiction.inside.
    rewrite !andb_true_iff, !useJurisdiction_lt_spec. tauto. }
  pose proof (useJurisdiction_test 35 72 (-25) 45 lat lon) as HEU.
  pose proof (useJurisdiction_test 22 27.5 51 56.5 lat lon) as HUAE.
  pose proof (useJurisdiction_test 16 32.5 34 56 lat lon) as HKSA.
  pose proof (useJurisdiction_test 24 49 (-125) (-66) lat lon) as HUS.
  destruct (useJurisdiction.lt lat (-20) && _ && _ && _);
    [|destruct (useJurisdiction.lt 35 lat && _ && _ && _);
      [|destruct (useJurisdiction.lt 22 lat && _ && _ && _);
        [|destruct (useJurisdiction.lt 16 lat && _ && _ && _);
          [|destruct (useJurisdiction.lt 24 lat && _ && _ && _)]]]].
  all: unfold useJurisdiction.inside in *.
  all: repeat split; try discriminate; try reflexivity; intros.
  all: try (exfalso; intuition (try discriminate; try lra); fail).
  all: intuition (try discriminate; try lra).
Qed.

(* ----------------------------------------------------------------- *)
(** *** The selection and [handleAnalyzeContradictions] *)

(** Toggling an evidence id selects it when it was not selected and
    deselects it when it was, leaves the other ids as they are, and done
    twice gives the selection back. *)
Theorem handleToggleEvidenceSelection_spec (evidenceId : string)
    (prev : gset string) :
  let next := handleToggleEvidenceSelection evidenceId prev in
  (evidenceId ∈ next ↔ evidenceId ∉ prev)
  ∧ (∀ id, id ≠ evidenceId → (id ∈ next ↔ id ∈ prev))
  ∧ handleToggleEvidenceSelection evidenceId next = prev
  ∧ (evidenceId ∉ prev → size next = S (size prev))
  ∧ (evidenceId ∈ prev → S (size next) = size prev).
Proof.
  unfold handleToggleEvidenceSelection.
  destruct (decide (evidenceId ∈ prev)) as [Hin|Hout]; cbv zeta.
  - assert (Hgone : evidenceId ∉ prev ∖ {[evidenceId]}).
    { rewrite elem_of_difference, elem_of_singleton. tauto. }
    split; [tauto|].
    split.
    { intros id Hid. rewrite elem_of_difference, elem_of_singleton. tauto. }
    split.
    { destruct (decide (evidenceId ∈ prev ∖ {[evidenceId]})); [contradiction|].
      apply set_eq. intros x.
      rewrite elem_of_union, elem_of_difference, elem_of_singleton.
      destruct (decide (x = evidenceId)) as [->|Hne]; tauto. }
    split; [contradiction|]. intros _.
    assert (Hsub : ({[evidenceId]} : gset string) ⊆ prev).
    { intros x Hx. apply elem_of_singleton in Hx. subst x. exact Hin. }
    pose proof (size_difference prev {[evidenceId]} Hsub) as Hsize.
    rewrite size_singleton in Hsize.
    assert (size prev ≠ 0%nat).
    { intros Hz. apply size_empty_inv in Hz.
      apply (not_elem_of_empty (C := gset string) evidenceId).
      rewrite <- (leibniz_equiv _ _ Hz). exact Hin. }
    lia.
  - assert (Hnew : evidenceId ∈ prev ∪ {[evidenceId]}).
    { rewrite elem_of_union, elem_of_singleton. tauto. }
    split; [tauto|].
    split.
    { intros id Hid. rewrite elem_of_union, elem_of_singleton. tauto. }
    split.
    { destruct (decide (evidenceId ∈ prev ∪ {[evidenceId]})); [|contradiction].
      apply set_eq. intros x.
      rewrite elem_of_difference, elem_of_union, elem_of_singleton.
      destruct (decide (x = evidenceId)) as [->|Hne]; tauto. }
    split; [|contradiction]. intros _.
    assert (Hdis : prev ## ({[evidenceId]} : gset string)).
    { intros x Hx Hx'. apply elem_of_singleton in Hx'. subst x. contradiction. }
    rewrite (size_union _ _ Hdis), size_singleton. lia.
Qed.

Lemma Map_set_spec {A} (m : list (string * A)) k v :
  NoDup (map fst m) →
  NoDup (map fst (Map_set m k v))
  ∧ (∀ k', k' ∈ map fst (Map_set m k v) ↔ k' = k ∨ k' ∈ map fst m)
  ∧ (∀ k' v', (k', v') ∈ Map_set m k v →
              (k' = k ∧ v' = v) ∨ (k', v') ∈ m).
Proof.
  induction m as [|[k0 v0] m IH]; simpl; intros Hnd.
  - split; [apply NoDup_singleton|].
    split.
    + intros k'. rewrite list_elem_of_singleton.
      split; [auto|intros [H|H]; [exact H|inversion H]].
    + intros k' v' H. apply list_elem_of_singleton in H.
      injection H as -> ->. auto.
  - apply NoDup_cons in Hnd as [Hk0 Hnd].
    destruct (String.eqb_spec k0 k) as [->|Hne]; simpl.
    + split; [apply NoDup_cons; auto|].
      split.
      * intros k'. rewrite elem_of_cons. tauto.
      * intros k' v' H. apply elem_of_cons in H as [H|H].
        -- injection H as -> ->. auto.
        -- right. right. exact H.
    + destruct (IH Hnd) as (IH1 & IH2 & IH3).
      split.
      * apply NoDup_cons. split; [|exact IH1].
        rewrite IH2. intros [H|H]; [congruence|contradiction].
      * split.
        -- intros k'. rewrite !elem_of_cons, IH2. tauto.
        -- intros k' v' H. apply elem_of_cons in H as [H|H].
           ++ rewrite H. right. left.
           ++ destruct (IH3 _ _ H) as [H'|H']; [auto|].
              right. right. exact H'.
Qed.

Lemma Map_values_fold (refs : list EvidenceRef) :
  ∀ (m : list (string * EvidenceRef)) (seen : list EvidenceRef),
  NoDup (map fst m) →
  (∀ k, k ∈ map fst m ↔ k ∈ map ref_id seen) →
  (∀ k item, (k, item) ∈ m → ref_id item = k ∧ item ∈ seen) →
  let m' := foldl (fun m kv => Map_set m kv.1 kv.2) m
                  (map (fun item => (ref_id item, item)) refs) in
  NoDup (map fst m')
  ∧ (∀ k, k ∈ map fst m' ↔ k ∈ map ref_id (seen ++ refs))
  ∧ (∀ k item, (k, item) ∈ m' → ref_id item = k ∧ item ∈ seen ++ refs).
Proof.
  induction refs as [|x refs IH]; intros m seen Hnd Hkeys Hitems; simpl.
  - rewrite app_nil_r. auto.
  - destruct (Map_set_spec m (ref_id x) x Hnd) as (H1 & H2 & H3).
    specialize (IH (Map_set m (ref_id x) x) (seen ++ [x]) H1).
    rewrite <- !app_assoc in IH. simpl in IH. apply IH.
    + intros k. rewrite H2, Hkeys, map_app, elem_of_app. simpl.
      rewrite list_elem_of_singleton. tauto.
    + intros k item Hin. rewrite elem_of_app, list_elem_of_singleton.
      destruct (H3 _ _ Hin) as [[-> ->]|Hold]; [auto|].
      destruct (Hitems _ _ Hold) as [Hid Hs]. auto.
Qed.

Lemma uniqueEvidenceRefs_spec (refs : list EvidenceRef) :
  NoDup (map ref_id (uniqueEvidenceRefs refs))
  ∧ (∀ id, id ∈ map ref_id (uniqueEvidenceRefs refs) ↔ id ∈ map ref_id refs)
  ∧ (∀ item, item ∈ uniqueEvidenceRefs refs → item ∈ refs).
Proof.
  destruct (Map_values_fold refs [] []) as (H1 & H2 & H3).
  - constructor.
  - intros k. simpl. tauto.
  - intros k item Hin. inversion Hin.
  - simpl in H1, H2, H3.
    unfold uniqueEvidenceRefs, Map_values.
    set (m := foldl _ _ _) in *.
    assert (Hids : map ref_id (map snd m) = map fst m).
    { rewrite map_map. apply map_ext_in. intros [k item] Hin.
      apply list_elem_of_In in Hin. simpl. apply (H3 _ _ Hin). }
    rewrite Hids. split; [exact H1|]. split; [exact H2|].
    intros item Hin. apply list_elem_of_fmap in Hin as ([k item'] & -> & Hin).
    simpl. apply (H3 _ _ Hin).
Qed.

Lemma result_sources_referenced P reports evidence tape c id :
  c ∈ runContradictionAnalysis P reports evidence tape →
  id ∈ Contradiction.sources c →
  id ∈ map ref_id (all_refs reports).
Proof.
  intros Hc Hid.
  apply result_from_pass in Hc as (pass & c0 & n & Hp & Hc0 & -> & _).
  simpl in Hid.
  apply analyzeContradictionsOnce_cases in Hc0. cbv zeta in Hc0.
  destruct Hc0 as [(_ & a & b & Ha & Hb & Hs & _)
                  | [(e & d & He & _ & _ & _ & ->) | (_ & e & He & _ & Hs)]].
  - rewrite Hs in Hid.
    apply elem_of_cons in Hid as [->|Hid];
      [exact (proj2 (scope_elem_input _ _ _ _ Hp Ha))|].
    apply list_elem_of_singleton in Hid as ->.
    exact (proj2 (scope_elem_input _ _ _ _ Hp Hb)).
  - simpl in Hid. apply list_elem_of_singleton in Hid as ->.
    exact (proj2 (scope_elem_input _ _ _ _ Hp He)).
  - rewrite Hs in Hid. apply list_elem_of_singleton in Hid as ->.
    exact (proj2 (scope_elem_input _ _ _ _ Hp He)).
Qed.

Lemma saveReport_fields io uuid now report db db' r :
  saveReport io uuid now report db = (db', Resolved r) →
  Report.evidenceRefs r = PartialReport.evidenceRefs report
  ∧ Report.contradictions r = PartialReport.contradictions report
  ∧ Report.findings r = PartialReport.findings report
  ∧ Report.title r = PartialReport.title report.
Proof.
  intros H. destruct io; simpl in H; try discriminate.
  injection H as _ <-. auto.
Qed.

(** When [handleAnalyzeContradictions] saves a report, two or more
    evidence items were selected and two or more indexed reports cite a
    selected item. The report references every evidence that these
    reports reference, selected or not, each id once, and every source of
    every contradiction it holds is among these references. The selection
    is empty afterwards. *)
Theorem handleAnalyzeContradictions_report (P : Platform)
    (sessionContext : option SessionContext)
    (selectedEvidenceIds : gset string) (read_ok : bool) (io : saveReport_io)
    (uuid : string) (now : Z) (tape : Tape) (db db' : DB)
    (selection' : gset string) (r : Report.t) :
  handleAnalyzeContradictions P sessionContext selectedEvidenceIds read_ok io
                              uuid now tape db
  = (db', selection', Some r) →
  let selected := selectedReports selectedEvidenceIds (ordered_reports db) in
  selection' = ∅
  ∧ (2 ≤ size selectedEvidenceIds)%nat
  ∧ (2 ≤ length selected)%nat
  ∧ (∀ r0, r0 ∈ selected →
           r0 ∈ ordered_reports db
           ∧ ∃ ref, ref ∈ Report.evidenceRefs r0
                    ∧ ref_id ref ∈ selectedEvidenceIds)
  ∧ NoDup (map ref_id (Report.evidenceRefs r))
  ∧ (∀ id, id ∈ map ref_id (Report.evidenceRefs r)
           ↔ ∃ r0, r0 ∈ selected ∧ id ∈ map ref_id (Report.evidenceRefs r0))
  ∧ (∀ c id, c ∈ Report.contradictions r → id ∈ Contradiction.sources c →
             id ∈ map ref_id (Report.evidenceRefs r))
  ∧ Report.findings r = []
  ∧ Report.id r = uuid.
Proof.
  intros H selected. unfold handleAnalyzeContradictions in H.
  destruct sessionContext as [session|]; [|discriminate].
  destruct (size selectedEvidenceIds <? 2)%nat eqn:Hsize; [discriminate|].
  apply Nat.ltb_ge in Hsize.
  destruct read_ok; [|discriminate]. cbn [getAllReportsIndexed] in H.
  fold selected in H.
  destruct (length selected <? 2)%nat eqn:Hlen; [discriminate|].
  apply Nat.ltb_ge in Hlen.
  match type of H with
  | context [saveReport ?i ?u ?n ?p ?d] =>
    destruct (saveReport i u n p d) as [db1 out] eqn:Hsave
  end.
  cbn [fst snd] in H. destruct out as [r1|]; [|discriminate].
  injection H as <- <- <-.
  destruct (saveReport_fields _ _ _ _ _ _ _ Hsave) as (Hrefs & Hcon & Hfind & _).
  cbn [PartialReport.evidenceRefs PartialReport.contradictions
       PartialReport.findings] in Hrefs, Hcon, Hfind.
  destruct (uniqueEvidenceRefs_spec (flat_map Report.evidenceRefs selected))
    as (Hu1 & Hu2 & _).
  assert (Hall : ∀ id, id ∈ map ref_id (flat_map Report.evidenceRefs selected)
                       ↔ ∃ r0, r0 ∈ selected
                               ∧ id ∈ map ref_id (Report.evidenceRefs r0)).
  { intros id. rewrite list_elem_of_fmap. split.
    - intros (ref & -> & Hin).
      apply list_elem_of_In, in_flat_map in Hin as (r0 & Hr0 & Hin).
      exists r0. split; [apply list_elem_of_In; exact Hr0|].
      apply list_elem_of_fmap. exists ref.
      split; [reflexivity|apply list_elem_of_In; exact Hin].
    - intros (r0 & Hr0 & Hin).
      apply list_elem_of_fmap in Hin as (ref & -> & Hin).
      exists ref. split; [reflexivity|].
      apply list_elem_of_In, in_flat_map. exists r0.
      split; apply list_elem_of_In; assumption. }
  split; [reflexivity|]. split; [exact Hsize|]. split; [exact Hlen|].
  split.
  { intros r0 Hr0. unfold selected, selectedReports in Hr0.
    apply list_elem_of_In, filter_In in Hr0 as [Hin Hsome].
    split; [apply list_elem_of_In; exact Hin|].
    apply existsb_exists in Hsome as (ref & Href & Hsel).
    exists ref. split; [apply list_elem_of_In; exact Href|].
    apply bool_decide_eq_true in Hsel. exact Hsel. }
  rewrite Hrefs.
  split; [exact Hu1|].
  split; [intros id; rewrite Hu2; apply Hall|].
  split.
  { intros c id Hc Hid. rewrite Hcon in Hc. apply Hu2.
    exact (result_sources_referenced _ _ _ _ _ _ Hc Hid). }
  split; [exact Hfind|].
  destruct io; simpl in Hsave; try discriminate;
    injection Hsave as _ <-; reflexivity.
Qed.

Lemma handleAnalyzeContradictions_report_witness :
  ∃ db' r,
    handleAnalyzeContradictions ReferencePlatform.platform (Some demo_session)
      {["ev-A"; "ev-B"]} true io_ok "r-C" 5000 tape_steady db_two_reports
    = (db', ∅, Some r)
    ∧ NoDup (map ref_id (Report.evidenceRefs r))
    ∧ Report.id r = "r-C".
Proof.
  destruct (handleAnalyzeContradictions ReferencePlatform.platform
              (Some demo_session) {["ev-A"; "ev-B"]} true io_ok "r-C" 5000
              tape_steady db_two_reports) as [[db' selection'] [r|]] eqn:E;
    [|vm_compute in E; discriminate E].
  destruct (handleAnalyzeContradictions_report _ _ _ _ _ _ _ _ _ _ _ _ E)
    as (-> & _ & _ & _ & Hnd & _ & _ & _ & Hid).
  exists db', r. auto.
Defined.

(* ----------------------------------------------------------------- *)
(** *** From the uploaded file to the report: [handleFileUpload] *)

Lemma triple_eq_inv {A B C} (a a' : A) (b b' : B) (c c' : C) :
  (a, b, c) = (a', b', c') → a = a' ∧ b = b' ∧ c = c'.
Proof. intros [= -> -> ->]. auto. Qed.

Lemma saveReport_evidence_store io uuid now report db :
  EVIDENCE_STORE (saveReport io uuid now report db).1 = EVIDENCE_STORE db.
Proof. destruct io; reflexivity. Qed.

Lemma runAnalysisAndSaveReport_store session results io uuid now e db :
  EVIDENCE_STORE (runAnalysisAndSaveReport session results io uuid now e db).1
  = EVIDENCE_STORE db.
Proof.
  unfold runAnalysisAndSaveReport.
  destruct session as [s|]; [|reflexivity].
  destruct results as [[r1 r2] r3].
  destruct (List.filter _ _) as [|primary rest]; [reflexivity|].
  destruct (data primary) as [d|]; [|reflexivity].
  match goal with
  | |- context [saveReport ?i ?u ?n ?p ?d] =>
    pose proof (saveReport_evidence_store i u n p d) as Hs;
    destruct (saveReport i u n p d) as [db1 [r|]]
  end; exact Hs.
Qed.

Lemma runAnalysisAndSaveReport_refs session results io uuid now e db r :
  (runAnalysisAndSaveReport session results io uuid now e db).2 = Some r →
  Report.evidenceRefs r = [mkRef (Evidence.id e) (Evidence.sha512 e)].
Proof.
  unfold runAnalysisAndSaveReport.
  destruct session as [s|]; [|discriminate].
  destruct results as [[r1 r2] r3].
  destruct (List.filter _ _) as [|primary rest]; [discriminate|].
  destruct (data primary) as [d|]; [|discriminate].
  match goal with
  | |- context [saveReport ?i ?u ?n ?p ?d] =>
    destruct (saveReport i u n p d) as [db1 [r1'|]] eqn:Hsave
  end; [|discriminate].
  intros [= ->].
  exact (proj1 (saveReport_fields _ _ _ _ _ _ _ Hsave)).
Qed.

(** The chain from an uploaded file to its report. The report that
    [handleFileUpload] saves references the evidence under the SHA-512 of
    the file, which is also the digest of the stored evidence and of the
    evidence handed to the analysis. The stored evidence has a text only
    when the user ran the local OCR: the text that [extractPdfText] finds
    in a machine-readable PDF is handed to the analysis and not stored, so
    the stored evidence of such a PDF is no text evidence. *)
Theorem handleFileUpload_digest_and_text
    (sessionContext : option SessionContext) (tx_ok : bool) (uuid : string)
    (now : Z) (file : File) (pdfText : Promise string)
    (choice : ScannedChoice)
    (results : SealedReport * SealedReport * SealedReport)
    (io : saveReport_io) (report_uuid : string) (report_now : Z)
    (db db' : DB) (analysed : option Evidence.t) (saved : option Report.t) :
  handleFileUpload sessionContext tx_ok uuid now file pdfText choice results
                   io report_uuid report_now db
  = (db', analysed, saved) →
  EVIDENCE_STORE db !! uuid = None →
  let digest := calculateSHA512 (of_File file) in
  (∀ r, saved = Some r → Report.evidenceRefs r = [mkRef uuid digest])
  ∧ (∀ e, analysed = Some e →
          Evidence.id e = uuid ∧ Evidence.sha512 e = digest
          ∧ ∃ stored, EVIDENCE_STORE db' !! uuid = Some stored
                      ∧ Evidence.sha512 stored = digest
                      ∧ Evidence.blob stored = file)
  ∧ (∀ stored text,
       EVIDENCE_STORE db' !! uuid = Some stored →
       Evidence.ocrText stored = Some text →
       choice = run_local_ocr (Resolved text) true)
  ∧ (∀ text,
       file_type file = "application/pdf" →
       pdfText = Resolved text →
       (100 ≤ String.length (trim text))%nat →
       ∀ e, analysed = Some e →
            Evidence.ocrText e = Some text
            ∧ ∃ stored, EVIDENCE_STORE db' !! uuid = Some stored
                        ∧ Evidence.ocrText stored = None
                        ∧ has_text stored = false).
Proof.
  intros H Hfresh digest. unfold handleFileUpload in H.
  destruct sessionContext as [session|].
  2:{ cbv iota beta in H. injection H as <- <- <-.
    split; [discriminate|]. split; [discriminate|].
    split; [|discriminate].
    intros stored text Hs. rewrite Hfresh in Hs. discriminate. }
  destruct tx_ok.
  2:{ cbn [saveEvidence fst snd] in H. injection H as <- <- <-.
      split; [discriminate|]. split; [discriminate|].
      split; [|discriminate].
      intros stored text Hs. rewrite Hfresh in Hs. discriminate. }
  set (evidence := Evidence.mk uuid (file_name file) (file_size file)
                     (file_type file) file (calculateSHA512 (of_File file))
                     (Some now) (session_jurisdiction session)
                     (session_timezone session) ∅ None) in *.
  set (db1 := mkDB (<[Evidence.id evidence := evidence]> (EVIDENCE_STORE db))
                   (REPORTS_STORE db) (META_STORE db)) in *.
  assert (Hdb1 : EVIDENCE_STORE db1 !! uuid = Some evidence)
    by (apply lookup_insert_eq).
  (* the leaves of the handler *)
  assert (Hnone : (db', analysed, saved) = (db1, None, None) →
            (∀ r, saved = Some r → Report.evidenceRefs r = [mkRef uuid digest])
            ∧ (∀ e, analysed = Some e →
                    Evidence.id e = uuid ∧ Evidence.sha512 e = digest
                    ∧ ∃ stored, EVIDENCE_STORE db' !! uuid = Some stored
                                ∧ Evidence.sha512 stored = digest
                                ∧ Evidence.blob stored = file)
            ∧ (∀ stored text,
                 EVIDENCE_STORE db' !! uuid = Some stored →
                 Evidence.ocrText stored = Some text →
                 choice = run_local_ocr (Resolved text) true)
            ∧ (∀ text,
                 file_type file = "application/pdf" →
                 pdfText = Resolved text →
                 (100 ≤ String.length (trim text))%nat →
                 ∀ e, analysed = Some e →
                      Evidence.ocrText e = Some text
                      ∧ ∃ stored, EVIDENCE_STORE db' !! uuid = Some stored
                                  ∧ Evidence.ocrText stored = None
                                  ∧ has_text stored = false)).
  { intros Heq. apply triple_eq_inv in Heq as (-> & -> & ->).
    split; [discriminate|]. split; [discriminate|].
    split; [|discriminate].
    intros stored text Hs Ht. rewrite Hdb1 in Hs. injection Hs as <-.
    discriminate Ht. }
  assert (Hanalyse : ∀ e db0,
            (db', analysed, saved)
            = ((runAnalysisAndSaveReport (Some session) results io report_uuid
                  report_now e db0).1, Some e,
               (runAnalysisAndSaveReport (Some session) results io report_uuid
                  report_now e db0).2) →
            Evidence.id e = uuid → Evidence.sha512 e = digest →
            (∃ stored, EVIDENCE_STORE db0 !! uuid = Some stored
                       ∧ Evidence.sha512 stored = digest
                       ∧ Evidence.blob stored = file) →
            (∀ r, saved = Some r → Report.evidenceRefs r = [mkRef uuid digest])
            ∧ (∀ e, analysed = Some e →
                    Evidence.id e = uuid ∧ Evidence.sha512 e = digest
                    ∧ ∃ stored, EVIDENCE_STORE db' !! uuid = Some stored
                                ∧ Evidence.sha512 stored = digest
                                ∧ Evidence.blob stored = file)
            ∧ EVIDENCE_STORE db' = EVIDENCE_STORE db0
            ∧ analysed = Some e).
  { intros e db0 Heq Hid Hsha Hstored.
    apply triple_eq_inv in Heq as (-> & -> & ->).
    rewrite runAnalysisAndSaveReport_store.
    split.
    { intros r Hr. rewrite (runAnalysisAndSaveReport_refs _ _ _ _ _ _ _ _ Hr).
      rewrite Hid, Hsha. reflexivity. }
    split; [|split; reflexivity].
    intros e' [= <-]. auto. }
  assert (Hstored1 : ∃ stored, EVIDENCE_STORE db1 !! uuid = Some stored
                               ∧ Evidence.sha512 stored = digest
                               ∧ Evidence.blob stored = file).
  { exists evidence. split; [exact Hdb1|]. split; reflexivity. }
  assert (Hcontinue : ∀ textContent,
            (file_type file = "application/pdf" → pdfText = Resolved textContent) →
            (db', analysed, saved)
            = (if (String.length (trim textContent) <? 100)%nat
               then match choice with
                    | no_choice => (db1, None, None)
                    | analyze_as_image_only =>
                      ((runAnalysisAndSaveReport (Some session) results io
                          report_uuid report_now evidence db1).1,
                       Some evidence,
                       (runAnalysisAndSaveReport (Some session) results io
                          report_uuid report_now evidence db1).2)
                    | run_local_ocr ocr update_ok =>
                      match ocr with
                      | Rejected => (db1, None, None)
                      | Resolved ocrText =>
                        match (updateEvidence update_ok
                                 (Evidence.with_ocrText evidence ocrText) db1).2
                        with
                        | Rejected =>
                          ((updateEvidence update_ok
                              (Evidence.with_ocrText evidence ocrText) db1).1,
                           None, None)
                        | Resolved _ =>
                          ((runAnalysisAndSaveReport (Some session) results io
                              report_uuid report_now
                              (Evidence.with_ocrText evidence ocrText)
                              (updateEvidence update_ok
                                 (Evidence.with_ocrText evidence ocrText)
                                 db1).1).1,
                           Some (Evidence.with_ocrText evidence ocrText),
                           (runAnalysisAndSaveReport (Some session) results io
                              report_uuid report_now
                              (Evidence.with_ocrText evidence ocrText)
                              (updateEvidence update_ok
                                 (Evidence.with_ocrText evidence ocrText)
                                 db1).1).2)
                        end
                      end
                    end
               else ((runAnalysisAndSaveReport (Some session) results io
                        report_uuid report_now
                        (Evidence.with_ocrText evidence textContent) db1).1,
                     Some (Evidence.with_ocrText evidence textContent),
                     (runAnalysisAndSaveReport (Some session) results io
                        report_uuid report_now
                        (Evidence.with_ocrText evidence textContent) db1).2)) →
            (∀ r, saved = Some r → Report.evidenceRefs r = [mkRef uuid digest])
            ∧ (∀ e, analysed = Some e →
                    Evidence.id e = uuid ∧ Evidence.sha512 e = digest
                    ∧ ∃ stored, EVIDENCE_STORE db' !! uuid = Some stored
                                ∧ Evidence.sha512 stored = digest
                                ∧ Evidence.blob stored = file)
            ∧ (∀ stored text,
                 EVIDENCE_STORE db' !! uuid = Some stored →
                 Evidence.ocrText stored = Some text →
                 choice = run_local_ocr (Resolved text) true)
            ∧ (∀ text,
                 file_type file = "application/pdf" →
                 pdfText = Resolved text →
                 (100 ≤ String.length (trim text))%nat →
                 ∀ e, analysed = Some e →
                      Evidence.ocrText e = Some text
                      ∧ ∃ stored, EVIDENCE_STORE db' !! uuid = Some stored
                                  ∧ Evidence.ocrText stored = None
                                  ∧ has_text stored = false)).
  { intros textContent Hpdf Hres.
    destruct (String.length (trim textContent) <? 100)%nat eqn:Hscan.
    - (* a scanned document *)
      apply Nat.ltb_lt in Hscan.
      assert (Hlast : ∀ text,
                file_type file = "application/pdf" →
                pdfText = Resolved text →
                (100 ≤ String.length (trim text))%nat → False).
      { intros text Hty Hp Hlen. rewrite (Hpdf Hty) in Hp.
        injection Hp as ->. lia. }
      destruct choice as [|[ocrText|] update_ok|].
      + destruct (Hnone Hres) as (H1 & H2 & H3 & _).
        split; [exact H1|]. split; [exact H2|]. split; [exact H3|].
        intros text Hty Hp Hlen. destruct (Hlast text Hty Hp Hlen).
      + destruct update_ok; cbn [updateEvidence fst snd] in Hres.
        * destruct (Hanalyse _ _ Hres eq_refl eq_refl)
            as (H1 & H2 & Hstore & _).
          { exists (Evidence.with_ocrText evidence ocrText).
            split; [apply lookup_insert_eq|]. split; reflexivity. }
          split; [exact H1|]. split; [exact H2|].
          split.
          { intros stored text Hs Ht. rewrite Hstore in Hs.
            cbn [EVIDENCE_STORE] in Hs. rewrite lookup_insert_eq in Hs.
            injection Hs as <-. cbn in Ht. injection Ht as ->. reflexivity. }
          intros text Hty Hp Hlen. destruct (Hlast text Hty Hp Hlen).
        * destruct (Hnone Hres) as (H1 & H2 & H3 & _).
          split; [exact H1|]. split; [exact H2|].
          split.
          { intros stored text Hs Ht. discriminate (H3 stored text Hs Ht). }
          intros text Hty Hp Hlen. destruct (Hlast text Hty Hp Hlen).
      + destruct (Hnone Hres) as (H1 & H2 & H3 & _).
        split; [exact H1|]. split; [exact H2|].
        split.
        { intros stored text Hs Ht. discriminate (H3 stored text Hs Ht). }
        intros text Hty Hp Hlen. destruct (Hlast text Hty Hp Hlen).
      + destruct (Hanalyse _ _ Hres eq_refl eq_refl Hstored1)
          as (H1 & H2 & Hstore & _).
        split; [exact H1|]. split; [exact H2|].
        split.
        { intros stored text Hs Ht. rewrite Hstore, Hdb1 in Hs.
          injection Hs as <-. discriminate Ht. }
        intros text Hty Hp Hlen. destruct (Hlast text Hty Hp Hlen).
    - (* a document with text *)
      destruct (Hanalyse _ _ Hres eq_refl eq_refl Hstored1)
        as (H1 & H2 & Hstore & Han).
      split; [exact H1|]. split; [exact H2|].
      split.
      { intros stored text Hs Ht. rewrite Hstore, Hdb1 in Hs.
        injection Hs as <-. discriminate Ht. }
      intros text Hty Hp Hlen e He. rewrite Han in He. injection He as <-.
      rewrite (Hpdf Hty) in Hp. injection Hp as ->.
      split; [reflexivity|].
      exists evidence. rewrite Hstore. auto. }
  destruct (String.eqb_spec (file_type file) "application/pdf") as [Hty|Hty].
  - destruct pdfText as [textContent|].
    + apply (Hcontinue textContent); [reflexivity|symmetry; exact H].
    + destruct (Hnone (eq_sym H)) as (H1 & H2 & H3 & _).
      split; [exact H1|]. split; [exact H2|]. split; [exact H3|].
      intros text _ Hp. discriminate Hp.
  - destruct (Hcontinue "") as (H1 & H2 & H3 & _);
      [intros Hty'; contradiction|symmetry; exact H|].
    split; [exact H1|]. split; [exact H2|]. split; [exact H3|].
    intros text Hty'. contradiction.
Qed.

Lemma handleFileUpload_digest_and_text_witness :
  let '(db', analysed, saved) :=
    handleFileUpload (Some demo_session) true "ev-0001" 1000 demo_pdf
      (Resolved demo_pdf_text) no_choice (demo_sealed, demo_sealed, demo_sealed)
      io_ok "r-0001" 2000 empty_db in
  (∀ r, saved = Some r →
        Report.evidenceRefs r
        = [mkRef "ev-0001" (calculateSHA512 (of_File demo_pdf))])
  ∧ ∀ e, analysed = Some e →
         Evidence.ocrText e = Some demo_pdf_text
         ∧ ∃ stored, EVIDENCE_STORE db' !! "ev-0001" = Some stored
                     ∧ Evidence.ocrText stored = None
                     ∧ has_text stored = false.
Proof.
  destruct (handleFileUpload (Some demo_session) true "ev-0001" 1000 demo_pdf
              (Resolved demo_pdf_text) no_choice
              (demo_sealed, demo_sealed, demo_sealed) io_ok "r-0001" 2000
              empty_db) as [[db' analysed] saved] eqn:E.
  assert (Hfresh : EVIDENCE_STORE empty_db !! "ev-0001" = None)
    by reflexivity.
  assert (Hlen : (100 ≤ String.length (trim demo_pdf_text))%nat).
  { apply Nat.leb_le. vm_compute. reflexivity. }
  destruct (handleFileUpload_digest_and_text _ _ _ _ _ _ _ _ _ _ _ _ _ _ _
              E Hfresh) as (H1 & _ & _ & H4).
  split; [exact H1|].
  exact (H4 demo_pdf_text eq_refl eq_refl Hlen).
Defined.
